(** * GreenBucks: receipt pipeline, eco scoring and cashback

    A shallow embedding of the receipt-processing core of the backend:

    - [app/services/eco_scoring.py]         (module [eco_scoring])
    - [app/services/integrations/item_category_map.py]
                                            (module [item_category_map])
    - [app/services/integrations/climatiq_client.py]
                                            (module [climatiq_client])
    - [app/services/integrations/ocr_google_vision.py]
                                            (module [ocr_google_vision])
    - [app/api/routes/receipts.py]          (module [receipts])

    and, of the rest of the backend, the scores from merchant and category
    of [app/services/eco_scoring.py] (module [merchant_scoring]) and the
    category column of [app/api/routes/transactions.py] (module
    [transactions]).

    Conventions of the embedding.

    - A Python [float] is an IEEE-754 binary64 value, represented by the
      Standard Library's [spec_float] and computed with its operations at
      precision 53 and maximal exponent 1024.  A decimal literal of the
      source ([0.05], [5.0], ...) denotes the binary64 value nearest to it
      ([binary64.of_Q]); [str] of a float is its shortest decimal that
      reads back as the same float ([binary64.shortest]).
    - A [decimal.Decimal] is the number it denotes, a rational, or the
      negative zero, one of the two infinities or the quiet NaN
      ([decimal.Decimal]).  Arithmetic
      is that of the default context: the exact result of [+], [*] and [/]
      is rounded to 28 significant digits, ties to even
      ([decimal.context]); [quantize] raises InvalidOperation when its
      result needs more than 28 digits; InvalidOperation and
      DivisionByZero are trapped.  The constructors [Decimal(str(x))] and
      [Decimal(n)] are exact.  The exponent range of the context
      (10^999999 and its inverse) is not represented: no number of the
      sources comes near it.
    - A Python exception is a value of [exn] in the [result] monad.
    - A [str] is a list of code points below 256 ([pystr.str]).
    - [async]/[await] is sequential composition: every awaited call of the
      sources runs to completion before the next statement.
    - The settings, the two rows and the database session are declared
      in files that are not among the sources; they are modelled from the
      specification where they are used, and the comment there says so.

    The definitions come first, module by module as the sources; then the
    statements of the specification that the code is compared with; then
    the properties. *)

From Stdlib Require Import ZArith QArith Qround Qabs Qpower Floats Bool Ascii String List Lia Lqa.
From stdpp Require Import gmap.

Open Scope Z_scope.

(** ** Exceptions *)

Inductive exn : Set :=
| InvalidOperation      (* decimal.InvalidOperation *)
| DivisionByZero        (* decimal.DivisionByZero *)
| ZeroDivisionError
| OverflowError
| ValueError
| AttributeError
| TypeError
| IndexError
| KeyError
| RequestException      (* requests.post failed: connection, timeout *)
| HTTPError             (* resp.raise_for_status() *)
| JSONDecodeError.      (* resp.json() *)

Inductive result (A : Type) : Type :=
| Ok (a : A)
| Raise (e : exn).
Arguments Ok {A} a.
Arguments Raise {A} e.

#[export] Instance result_ret : MRet result := fun A a => Ok a.
#[export] Instance result_bind : MBind result := fun A B f m =>
  match m with
  | Ok a => f a
  | Raise e => Raise e
  end.
#[export] Instance result_fmap : FMap result := fun A B f m =>
  match m with
  | Ok a => Ok (f a)
  | Raise e => Raise e
  end.

(** [try: body except Exception: handler] *)
Definition try_except {A} (body : result A) (handler : A) : A :=
  match body with
  | Ok a => a
  | Raise _ => handler
  end.

(** ** Python floats: IEEE-754 binary64 *)

Module binary64.

Definition float : Type := spec_float.

Definition zero : float := S754_zero false.

(** Correctly rounded (nearest, ties to even) conversion of a rational:
    the quotient of numerator by denominator, in lowest terms, rounded
    once.  This is the value of a decimal literal, of [float("12.34")] and
    of [a / b] on integers. *)
Definition of_Q (q : Q) : float :=
  let q := Qred q in
  match Qnum q with
  | Z0 => zero
  | Zpos p =>
      SFdiv prec emax (S754_finite false p 0) (S754_finite false (Qden q) 0)
  | Zneg p =>
      SFdiv prec emax (S754_finite true p 0) (S754_finite false (Qden q) 0)
  end.

Definition of_Z (n : Z) : float := of_Q (inject_Z n).

Definition add : float -> float -> float := SFadd prec emax.
Definition sub : float -> float -> float := SFsub prec emax.
Definition mul : float -> float -> float := SFmul prec emax.
Definition leb : float -> float -> bool := SFleb.
Definition ltb : float -> float -> bool := SFltb.

Definition is_zero (x : float) : bool :=
  match x with
  | S754_zero _ => true
  | _ => false
  end.

(** [x / y]: Python raises on a zero divisor, otherwise IEEE division. *)
Definition div (x y : float) : result float :=
  if is_zero y then Raise ZeroDivisionError else Ok (SFdiv prec emax x y).

(** [bool(x)]: every float but the zeros is true (NaN included). *)
Definition truthy (x : float) : bool := negb (is_zero x).

(** The exact value of the finite float [m * 2^e]. *)
Definition to_Q (m : positive) (e : Z) : Q :=
  match e with
  | Z0 => Zpos m # 1
  | Zpos _ => Zpos m * 2 ^ e # 1
  | Zneg k => Zpos m # 2 ^ k
  end.

Definition pow10 (k : Z) : Q :=
  match k with
  | Z0 => 1
  | Zpos _ => 10 ^ k # 1
  | Zneg p => 1 # 10 ^ p
  end.

(** The decimal exponent [k] of a positive [v]: [10^k <= v < 10^(k+1)]. *)
Fixpoint exp10_up (fuel : nat) (v : Q) (k : Z) : Z :=
  match fuel with
  | O => k
  | S fuel' =>
      if Qle_bool 10 v then exp10_up fuel' (Qred (v / 10)) (k + 1) else k
  end.

Fixpoint exp10_down (fuel : nat) (v : Q) (k : Z) : Z :=
  match fuel with
  | O => k
  | S fuel' =>
      if Qle_bool 1 v then k else exp10_down fuel' (Qred (v * 10)) (k - 1)
  end.

Definition exp10 (v : Q) : Z :=
  if Qle_bool 1 v then exp10_up 400 v 0 else exp10_down 400 v 0.

(** [d] is a positive decimal that reads back as [x]. *)
Definition round_trips (x : float) (d : Q) : bool :=
  (0 <? Qnum d) && SFeqb (of_Q d) x.

(** The decimal of [n] significant digits that reads back as [x], if
    there is one: one of the two neighbours of the exact value [v] on
    the grid of [n]-digit decimals, the nearer one if both do. *)
Definition candidate (x : float) (v : Q) (n : Z) : option Q :=
  let u := pow10 (exp10 v + 1 - n) in
  let lo := Qfloor (v / u) in
  let d1 := Qred (inject_Z lo * u) in
  let d2 := Qred (inject_Z (lo + 1) * u) in
  match round_trips x d1, round_trips x d2 with
  | true, true => Some (if Qle_bool (v - d1) (d2 - v) then d1 else d2)
  | true, false => Some d1
  | false, true => Some d2
  | false, false => None
  end.

Fixpoint shortest_from (x : float) (v : Q) (n : Z) (fuel : nat) : Q :=
  match fuel with
  | O => Qred v
  | S fuel' =>
      match candidate x v n with
      | Some d => d
      | None => shortest_from x v (n + 1) fuel'
      end
  end.

(** [repr] of the positive finite float [m * 2^e], as a number: the
    shortest decimal (at most 17 significant digits) that reads back as
    the same float. *)
Definition shortest (m : positive) (e : Z) : Q :=
  shortest_from (S754_finite false m e) (to_Q m e) 1 17.

(** [int(x)]: truncation toward zero. *)
Definition to_int (x : float) : result Z :=
  match x with
  | S754_zero _ => Ok 0
  | S754_finite s m e =>
      let n := Qfloor (to_Q m e) in Ok (if s then - n else n)
  | S754_infinity _ => Raise OverflowError
  | S754_nan => Raise ValueError
  end.

End binary64.

Abbreviation float := binary64.float.

(** A float literal of the source. *)
Definition lit (q : Q) : float := binary64.of_Q q.

(** ** decimal.Decimal, default context *)

Module decimal.

(** A finite Decimal is the number it denotes; the zero of [Finite] is the
    positive one, and [NegZero] is [Decimal("-0")]. *)
Inductive Decimal : Type :=
| Finite (q : Q)
| Infinity (negative : bool)
| NaN
| NegZero.

Definition dec (q : Q) : Decimal := Finite (Qred q).

(** Rounding to the nearest integer, ties to the even one
    (ROUND_HALF_EVEN, the rounding of the default context). *)
Definition round_half_even (x : Q) : Z :=
  let f := Qfloor x in
  match Qcompare (x - inject_Z f) (1 # 2) with
  | Lt => f
  | Gt => f + 1
  | Eq => if Z.even f then f else f + 1
  end.

(** [getcontext().prec]: the significant digits of the default context. *)
Definition context_prec : Z := 28.

(** [q.adjusted()] for a [q] that is not zero: the exponent [k] of its
    leading digit, [10^k <= |q| < 10^(k+1)]. *)
Definition adjusted (q : Q) : Z :=
  let v := Qabs q in
  if Qle_bool 1 v
  then binary64.exp10_up (Pos.to_nat (Pos.size (Z.to_pos (Qnum v)))) v 0
  else binary64.exp10_down (Pos.to_nat (Pos.size (Qden v))) v 0.

(** [q] rounded to [n] significant digits, ties to even. *)
Definition round_digits (n : Z) (q : Q) : Q :=
  let q := Qred q in
  if Qeq_bool q 0 then 0%Q
  else
    let u := (10 ^ (adjusted q + 1 - n))%Q in
    Qred (inject_Z (round_half_even (q / u)) * u).

(** The rounding that the context applies to the exact result of an
    arithmetic operation. *)
Definition context (q : Q) : Q := round_digits context_prec q.

(** The zero of sign [s], [true] for minus. *)
Definition zero (s : bool) : Decimal := if s then NegZero else Finite 0.

(** The sign of a finite number. *)
Definition negative (q : Q) : bool := Qnum q <? 0.

(** The result of a product or a quotient whose exact value is [q]: [q]
    rounded by the context; a zero has the sign [s] of the operation. *)
Definition rounded (s : bool) (q : Q) : Decimal :=
  let r := context q in
  if Qeq_bool r 0 && s then NegZero else Finite r.

(** [Decimal(str(x))] for a float [x]: [str] prints the shortest decimal
    that reads back as [x], which has at most 17 significant digits, and
    the constructor takes it as it is, a zero with its sign.
    [round_digits 17] changes no decimal of 17 digits; it gives the bound
    to the values of [spec_float] that are no binary64 number as well. *)
Definition of_float (x : float) : Decimal :=
  match x with
  | S754_zero s => zero s
  | S754_finite s m e =>
      let d := round_digits 17 (binary64.shortest m e) in
      Finite (if s then Qred (- d) else d)
  | S754_infinity s => Infinity s
  | S754_nan => NaN
  end.

(** [Decimal(n)] for an int [n]. *)
Definition of_int (n : Z) : Decimal := Finite (inject_Z n).

Definition mul (a b : Decimal) : result Decimal :=
  match a, b with
  | NaN, _ | _, NaN => Ok NaN
  | Finite x, Finite y => Ok (rounded (xorb (negative x) (negative y)) (x * y))
  | NegZero, Finite y | Finite y, NegZero => Ok (zero (negb (negative y)))
  | NegZero, NegZero => Ok (Finite 0)
  | Infinity s, Infinity t => Ok (Infinity (xorb s t))
  | Infinity s, Finite y | Finite y, Infinity s =>
      if Qeq_bool y 0 then Raise InvalidOperation
      else Ok (Infinity (xorb s (negative y)))
  | Infinity _, NegZero | NegZero, Infinity _ => Raise InvalidOperation
  end.

(** A sum that is zero is the positive zero, unless both terms are the
    negative one. *)
Definition add (a b : Decimal) : result Decimal :=
  match a, b with
  | NaN, _ | _, NaN => Ok NaN
  | Finite x, Finite y => Ok (Finite (context (x + y)))
  | NegZero, Finite y | Finite y, NegZero => Ok (Finite (context y))
  | NegZero, NegZero => Ok NegZero
  | Infinity s, Infinity t =>
      if Bool.eqb s t then Ok (Infinity s) else Raise InvalidOperation
  | Infinity s, (Finite _ | NegZero) | (Finite _ | NegZero), Infinity s =>
      Ok (Infinity s)
  end.

Definition div (a b : Decimal) : result Decimal :=
  match a, b with
  | NaN, _ | _, NaN => Ok NaN
  | Infinity _, Infinity _ => Raise InvalidOperation
  | Infinity s, Finite y => Ok (Infinity (xorb s (negative y)))
  | Infinity s, NegZero => Ok (Infinity (negb s))
  | Finite x, Infinity s => Ok (zero (xorb (negative x) s))
  | NegZero, Infinity s => Ok (zero (negb s))
  | Finite x, Finite y =>
      if Qeq_bool y 0 then
        if Qeq_bool x 0 then Raise InvalidOperation else Raise DivisionByZero
      else Ok (rounded (xorb (negative x) (negative y)) (x / y))
  | Finite x, NegZero =>
      if Qeq_bool x 0 then Raise InvalidOperation else Raise DivisionByZero
  | NegZero, Finite y =>
      if Qeq_bool y 0 then Raise InvalidOperation
      else Ok (zero (negb (negative y)))
  | NegZero, NegZero => Raise InvalidOperation
  end.

(** [a > 0] *)
Definition gt_zero (a : Decimal) : result bool :=
  match a with
  | Finite x => Ok (0 <? Qnum x)
  | NegZero => Ok false
  | Infinity s => Ok (negb s)
  | NaN => Raise InvalidOperation
  end.

(** The multiple of [unit] nearest to [x], ties to the even multiple. *)
Definition nearest_multiple (unit : Q) (x : Q) : Q :=
  Qred (inject_Z (round_half_even (x / unit)) * unit).

(** [a.quantize(Decimal("1"))] and [a.quantize(Decimal("0.01"))]: the
    nearest multiple of [unit], with the sign of [a] when it is zero;
    InvalidOperation when it has more digits than the precision of the
    context. *)
Definition quantize (unit : Q) (a : Decimal) : result Decimal :=
  match a with
  | Finite x =>
      let n := round_half_even (x / unit) in
      if Z.abs n <? 10 ^ context_prec
      then Ok (if (n =? 0) && negative x then NegZero
               else Finite (nearest_multiple unit x))
      else Raise InvalidOperation
  | NegZero => Ok NegZero
  | Infinity _ => Raise InvalidOperation
  | NaN => Ok NaN
  end.

(** [int(a)]: truncation toward zero. *)
Definition to_int (a : Decimal) : result Z :=
  match a with
  | Finite x => Ok (Qnum x ÷ Zpos (Qden x))
  | NegZero => Ok 0
  | Infinity _ => Raise OverflowError
  | NaN => Raise ValueError
  end.

(** [float(a)] *)
Definition to_float (a : Decimal) : float :=
  match a with
  | Finite x => binary64.of_Q x
  | NegZero => S754_zero true
  | Infinity s => S754_infinity s
  | NaN => S754_nan
  end.

(** The number that a finite Decimal denotes. *)
Definition value (a : Decimal) : option Q :=
  match a with
  | Finite x => Some x
  | NegZero => Some 0%Q
  | Infinity _ | NaN => None
  end.

End decimal.

Abbreviation Decimal := decimal.Decimal.

(** ** [app/services/eco_scoring.py] *)

Module eco_scoring.

Definition score_from_co2e_per_dollar (co2e_per_usd : option float) : Z :=
  match co2e_per_usd with
  | None => 5
  | Some x =>
      if binary64.leb x (lit 0.05) then 10
      else if binary64.leb x (lit 0.10) then 9
      else if binary64.leb x (lit 0.20) then
        (if binary64.leb x (lit 0.15) then 8 else 7)
      else if binary64.leb x (lit 0.40) then
        (if binary64.leb x (lit 0.30) then 6 else 5)
      else if binary64.leb x (lit 0.80) then
        (if binary64.leb x (lit 0.60) then 4 else 3)
      else
        if binary64.leb x (lit 1.2) then 2
        else if binary64.leb x (lit 2.0) then 1 else 0
  end.

(** [score / 10.0] divides by a non-zero literal, so the IEEE division
    is taken directly. *)
Definition map_score_to_multiplier (score : Z) : float :=
  let score := Z.max 0 (Z.min 10 score) in
  if score =? 0 then lit 0.15
  else
    binary64.add (lit 0.15)
      (binary64.mul
         (SFdiv prec emax (binary64.of_Z score) (lit 10.0))
         (binary64.sub (lit 5.0) (lit 0.15))).

(** [amount] is the number that [Decimal(str(amount))] denotes, a finite
    one; a zero amount is the positive zero. *)
Definition compute_cashback (amount : Q) (score : option Z) : result Decimal :=
  let amt := decimal.Finite amount in
  base ← decimal.mul amt (decimal.dec 0.01);
  match score with
  | None => decimal.quantize 0.01 base
  | Some score =>
      let m := map_score_to_multiplier score in
      cent ← decimal.mul amt (decimal.dec 0.01);
      bonus ← decimal.mul cent (decimal.of_float m);
      total ← decimal.add base bonus;
      decimal.quantize 0.01 total
  end.

End eco_scoring.

(** ** Python strings *)

Module pystr.

Definition str : Type := list ascii.

(** A string literal of the source. *)
Definition txt (x : string) : str := list_ascii_of_string x.

Definition code (c : ascii) : N := N_of_ascii c.

Definition in_range (lo hi : N) (c : ascii) : bool :=
  ((lo <=? code c) && (code c <=? hi))%N.

(** [str.isspace] and the regex class [\s] on code points below 256:
    tab to carriage return, the four separators, space, NEL and
    the no-break space. *)
Definition isspace (c : ascii) : bool :=
  in_range 9 13 c || in_range 28 32 c
  || (code c =? 133)%N || (code c =? 160)%N.

(** The regex class [\d] on code points below 256. *)
Definition isdigit (c : ascii) : bool := in_range 48 57 c.

(** The line boundaries of [str.splitlines] below 256. *)
Definition is_linebreak (c : ascii) : bool :=
  in_range 10 13 c || in_range 28 30 c || (code c =? 133)%N.

(** [str.lower] on one code point: A-Z, and the Latin-1 capitals
    (all of 192..222 but the multiplication sign 215). *)
Definition lower_char (c : ascii) : ascii :=
  if in_range 65 90 c
     || (in_range 192 222 c && negb (code c =? 215)%N)
  then ascii_of_N (code c + 32)
  else c.

Definition lower (x : str) : str := map lower_char x.

Fixpoint startswith (p x : str) : bool :=
  match p, x with
  | [], _ => true
  | _ :: _, [] => false
  | a :: p', b :: x' => Ascii.eqb a b && startswith p' x'
  end.

(** [sub in x] *)
Fixpoint contains (sub x : str) : bool :=
  startswith sub x
  || match x with
     | [] => false
     | _ :: x' => contains sub x'
     end.

Fixpoint lstrip (drop : ascii -> bool) (x : str) : str :=
  match x with
  | [] => []
  | c :: x' => if drop c then lstrip drop x' else x
  end.

Definition rstrip (drop : ascii -> bool) (x : str) : str :=
  rev (lstrip drop (rev x)).

(** [x.strip()] with [drop := isspace]; [x.strip(chars)] with
    [drop := one_of chars]. *)
Definition strip (drop : ascii -> bool) (x : str) : str :=
  rstrip drop (lstrip drop x).

Definition one_of (chars : str) (c : ascii) : bool :=
  existsb (Ascii.eqb c) chars.

(** [x.splitlines()]: a carriage return followed by a line feed is one
    boundary; there is no empty last line. *)
Fixpoint splitlines_from (cur : str) (x : str) : list str :=
  match x with
  | [] => match cur with [] => [] | _ => [rev cur] end
  | c :: rest =>
      if is_linebreak c then
        rev cur ::
          match rest with
          | d :: rest' =>
              if (code c =? 13)%N && (code d =? 10)%N
              then splitlines_from [] rest'
              else splitlines_from [] rest
          | [] => splitlines_from [] rest
          end
      else splitlines_from (c :: cur) rest
  end.

Definition splitlines (x : str) : list str := splitlines_from [] x.

(** The number written by a string of decimal digits. *)
Definition digit_value (c : ascii) : Z := Z.of_N (code c) - 48.

Definition int_of_digits (ds : str) : Z :=
  fold_left (fun acc c => 10 * acc + digit_value c) ds 0.

End pystr.

Abbreviation str := pystr.str.

(** ** [app/services/integrations/item_category_map.py] *)

Module item_category_map.
Import pystr.

Definition FALLBACK_KG_CO2E_PER_USD : list (str * float) :=
  [ (txt "organic", lit 0.05);
    (txt "kale", lit 0.06);
    (txt "banana", lit 0.08);
    (txt "coffee", lit 0.25);
    (txt "beef", lit 5.0);
    (txt "chicken", lit 1.8);
    (txt "pork", lit 3.0);
    (txt "rice", lit 0.4);
    (txt "bread", lit 0.3);
    (txt "salad", lit 0.2);
    (txt "grocery", lit 0.3);
    (txt "shirt", lit 1.2);
    (txt "electronics", lit 0.6);
    (txt "toy", lit 0.5);
    (txt "book", lit 0.2) ].

Definition DEFAULT_KG_CO2E_PER_USD : float := lit 0.5.

(** The [for key, val in ...] loop, leaving at the first hit. *)
Fixpoint scan (table : list (str * float)) (n : str) : float :=
  match table with
  | [] => DEFAULT_KG_CO2E_PER_USD
  | (key, val) :: table' => if contains key n then val else scan table' n
  end.

Definition lookup_kg_co2e_per_usd (name : str) : float :=
  let n := lower name in
  scan FALLBACK_KG_CO2E_PER_USD n.

End item_category_map.

(** Modelled from the spec: the settings object of [app/core/config.py],
    which is not among the sources; the record has the four fields that
    the sources read (the two flags and the two credentials of the
    configuration surface). *)
Record Settings : Type := {
  use_real_ocr : bool;
  google_vision_api_key : option str;
  use_real_climatiq : bool;
  climatiq_api_key : option str
}.

(** [not key] for an optional string: [None] and [""] are false. *)
Definition key_configured (key : option str) : bool :=
  match key with
  | None | Some [] => false
  | Some (_ :: _) => true
  end.

(** ** [app/services/integrations/climatiq_client.py] *)

Module climatiq_client.
Import item_category_map.

Definition _mock_estimate (name : str) (price : option float) (qty : option Z)
  : result float :=
  let factor := lookup_kg_co2e_per_usd name in
  let price := match price with None => lit 1.0 | Some p => p end in
  d ← decimal.mul (decimal.of_float factor) (decimal.of_float price);
  Ok (decimal.to_float d).

Definition estimate_item_footprint (settings : Settings)
    (name : str) (price : option float) (qty : option Z) : result float :=
  if negb (use_real_climatiq settings)
     || negb (key_configured (climatiq_api_key settings))
  then _mock_estimate name price qty
  else
    match _mock_estimate name price qty with
    | Ok kg => Ok kg
    | Raise _ => _mock_estimate name price qty
    end.

End climatiq_client.

(** ** [app/services/integrations/ocr_google_vision.py] *)

Module ocr_google_vision.
Import pystr.

(** The [ParsedItem] dictionary; [parse_receipt] always sets the three
    keys. *)
Record ParsedItem : Type := {
  name : str;
  price : option float;
  qty : option Z
}.

Definition bytes : Type := list Byte.byte.

(** A decoded JSON document, as [resp.json()] returns it. *)
#[warnings="-register-all"]
Inductive json : Type :=
| JNull
| JBool (b : bool)
| JInt (n : Z)
| JFloat (x : float)
| JStr (x : str)
| JList (xs : list json)
| JDict (items : list (str * json)).

Definition str_eqb (a b : str) : bool :=
  (length a =? length b)%nat && startswith a b.

Fixpoint assoc (key : str) (items : list (str * json)) : option json :=
  match items with
  | [] => None
  | (k, v) :: items' => if str_eqb key k then Some v else assoc key items'
  end.

(** [v.get(key, default)]: only a dict has the method. *)
Definition get (key : str) (default : json) (v : json) : result json :=
  match v with
  | JDict items =>
      Ok (match assoc key items with Some x => x | None => default end)
  | _ => Raise AttributeError
  end.

(** [v[0]] *)
Definition first (v : json) : result json :=
  match v with
  | JList (x :: _) => Ok x
  | JList [] => Raise IndexError
  | JStr (c :: _) => Ok (JStr [c])
  | JStr [] => Raise IndexError
  | JDict _ => Raise KeyError
  | _ => Raise TypeError
  end.

(** [bool(v)] *)
Definition truthy (v : json) : bool :=
  match v with
  | JNull => false
  | JBool b => b
  | JInt n => negb (n =? 0)
  | JFloat x => binary64.truthy x
  | JStr x => negb (length x =? 0)%nat
  | JList xs => negb (length xs =? 0)%nat
  | JDict items => negb (length items =? 0)%nat
  end.

(** [v.splitlines()]: only a string has the method. *)
Definition json_splitlines (v : json) : result (list str) :=
  match v with
  | JStr x => Ok (splitlines x)
  | _ => Raise AttributeError
  end.

(** What the recognition service answers to one request: [requests.post]
    raises, or returns a response with a status code and a body that
    decodes as JSON or does not. *)
Record Response : Type := {
  status_code : Z;
  body : option json
}.

(** The remote service: the request is determined by the credential and
    the image. *)
Definition Vision : Type := str -> bytes -> result Response.

Definition raise_for_status (resp : Response) : result unit :=
  if (400 <=? status_code resp) && (status_code resp <? 600)
  then Raise HTTPError else Ok tt.

Definition resp_json (resp : Response) : result json :=
  match body resp with
  | Some data => Ok data
  | None => Raise JSONDecodeError
  end.

Definition _mock_parse (image_bytes : bytes) : list ParsedItem :=
  [ {| name := txt "Unknown Item"; price := None; qty := None |} ].

(** The tail of the pattern, [[\s\t]+\$?(?P<price>\d+\.\d{1,2})$],
    matched against all of [x]; the answer is the price group.  The
    character classes are disjoint, so the greedy match is the only
    one. *)
Definition match_tail (x : str) : option str :=
  match x with
  | [] => None
  | c :: _ =>
      if isspace c then
        let r1 := lstrip isspace x in
        let r2 := match r1 with
                  | d :: r => if Ascii.eqb d "$" then r else r1
                  | [] => r1
                  end in
        let r3 := lstrip isdigit r2 in
        let ds := firstn (length r2 - length r3) r2 in
        match ds, r3 with
        | _ :: _, p :: fs =>
            if Ascii.eqb p "."
               && forallb isdigit fs
               && ((length fs =? 1) || (length fs =? 2))%nat
            then Some (ds ++ p :: fs)
            else None
        | _, _ => None
        end
      else None
  end.

(** [re.search] of the whole pattern in a line without line feed: the
    lazy name group is the shortest prefix after which the tail
    matches.  The answer is the pair of the groups name and price. *)
Fixpoint search (name_rev : str) (x : str) : option (str * str) :=
  match match_tail x with
  | Some p => Some (rev name_rev, p)
  | None =>
      match x with
      | [] => None
      | c :: x' => search (c :: name_rev) x'
      end
  end.

(** [float(x)] for the strings that the price group captures: digits,
    a point, digits. *)
Definition float_of_str (x : str) : result float :=
  let ip := firstn (length x - length (lstrip isdigit x)) x in
  match lstrip isdigit x with
  | p :: fp =>
      if Ascii.eqb p "." && forallb isdigit fp
         && negb (length ip =? 0)%nat && negb (length fp =? 0)%nat
      then
        Ok (binary64.of_Q
              (int_of_digits (ip ++ fp)
               # Z.to_pos (10 ^ Z.of_nat (length fp))))
      else Raise ValueError
  | [] => Raise ValueError
  end.

Definition HT : ascii := ascii_of_N 9.

(** The body of the [for raw_line in text.splitlines()] loop. *)
Definition parse_line (items : list ParsedItem) (raw_line : str)
  : list ParsedItem :=
  let line := strip isspace raw_line in
  if (length line =? 0)%nat || (length line <? 2)%nat then items
  else
    match search [] line with
    | Some (g_name, g_price) =>
        let name := strip (one_of (txt "-: ." ++ [HT])) g_name in
        let price :=
          match float_of_str g_price with
          | Ok p => Some p
          | Raise _ => None
          end in
        match name with
        | _ :: _ => items ++ [ {| name := name; price := price; qty := None |} ]
        | [] => items
        end
    | None => items
    end.

(** [data.get("responses", [{}])[0].get("fullTextAnnotation", {})
    .get("text", "")] *)
Definition full_text (data : json) : result json :=
  rs ← get (txt "responses") (JList [JDict []]) data;
  r ← first rs;
  fta ← get (txt "fullTextAnnotation") (JDict []) r;
  get (txt "text") (JStr []) fta.

(** The body of the [try] block. *)
Definition recognize (key : str) (post : Vision) (image_bytes : bytes)
  : result (list ParsedItem) :=
  resp ← post key image_bytes;
  _ ← raise_for_status resp;
  data ← resp_json resp;
  text ← full_text data;
  if negb (truthy text) then Ok (_mock_parse image_bytes)
  else
    lines ← json_splitlines text;
    let items := fold_left parse_line lines [] in
    Ok (match items with
        | [] => _mock_parse image_bytes
        | _ :: _ => items
        end).

Definition parse_receipt (settings : Settings) (post : Vision)
    (image_bytes : bytes) : list ParsedItem :=
  if negb (use_real_ocr settings)
     || negb (key_configured (google_vision_api_key settings))
  then _mock_parse image_bytes
  else
    let key := default [] (google_vision_api_key settings) in
    try_except (recognize key post image_bytes) (_mock_parse image_bytes).

End ocr_google_vision.

(** ** [app/api/routes/receipts.py] *)

Module receipts.
Import pystr ocr_google_vision climatiq_client eco_scoring.

(** Modelled from the spec: the [Transaction] row of [app/models/plaid.py],
    which is not among the sources; the record has the columns that
    [upload_receipt] reads and writes.  The primary key [id] is the key of
    the table.  [amount] is the number that [str(tx.amount)] denotes. *)
Record Transaction : Type := {
  user_id : Z;
  amount : Q;
  eco_score : option Z;
  needs_receipt : bool;
  cashback_usd : option Decimal
}.

(** Modelled from the spec: the [ReceiptItem] row of
    [app/models/receipt.py], which is not among the sources; the record
    has the columns that [upload_receipt] sets. *)
Record ReceiptItem : Type := {
  transaction_id : Z;
  item_name : str;
  item_price : option Decimal;
  item_qty : option Z;
  kg_co2e : Decimal;
  item_score : option Z
}.

(** The persisted state: the two tables. *)
Record Db : Type := {
  transactions : gmap Z Transaction;
  receipt_items : list ReceiptItem
}.

(** The dictionary that the route returns. *)
Record UploadResult : Type := {
  r_transaction_id : Z;
  r_eco_score : Z;
  r_cashback_usd : Decimal;
  r_items : nat
}.

Inductive outcome : Type :=
| Returned (r : UploadResult)
| HTTPException (status : Z) (detail : string)
| Unhandled (e : exn).

(** [db.query(Transaction).filter(Transaction.id == transaction_id,
    Transaction.user_id == user_id).first()] *)
Definition query_transaction (db : Db) (uid tid : Z) : option Transaction :=
  match transactions db !! tid with
  | Some tx => if user_id tx =? uid then Some tx else None
  | None => None
  end.

(** [db.query(ReceiptItem).filter(ReceiptItem.transaction_id == tid)] *)
Definition of_transaction (tid : Z) (it : ReceiptItem) : bool :=
  transaction_id it =? tid.

(** [... .delete(synchronize_session=False)] *)
Definition delete_items (tid : Z) (rows : list ReceiptItem) : list ReceiptItem :=
  List.filter (fun it => negb (of_transaction tid it)) rows.

(** [price and price > 0]: the price, when the test passes. *)
Definition positive_price (price : option float) : option float :=
  match price with
  | Some p =>
      if binary64.truthy p && binary64.ltb binary64.zero p then Some p
      else None
  | None => None
  end.

(** The two running sums of the loop. *)
Record sums : Type := {
  total_price : Decimal;
  weighted_score_sum : Decimal
}.

(** The second [if price and price > 0:] block of the loop. *)
Definition accumulate (acc : sums) (price : option float) (item_score : Z)
  : result sums :=
  match positive_price price with
  | Some price =>
      let p := decimal.of_float price in
      total ← decimal.add (total_price acc) p;
      w ← decimal.mul p (decimal.of_int item_score);
      weighted ← decimal.add (weighted_score_sum acc) w;
      Ok {| total_price := total; weighted_score_sum := weighted |}
  | None => Ok acc
  end.

(** The variables that the [for it in items] loop updates: the rows handed
    to [db.add], in order, and the running sums. *)
Record loop_state : Type := {
  added : list ReceiptItem;
  acc : sums
}.

(** The item score of the loop: the band of the footprint per dollar when
    there is a positive price, 5 otherwise. *)
Definition score_item (kg : float) (price : option float) : result Z :=
  match positive_price price with
  | Some price =>
      co2_per_usd ← binary64.div kg price;
      Ok (score_from_co2e_per_dollar (Some co2_per_usd))
  | None => Ok 5
  end.

(** One turn of the [for it in items] loop. *)
Definition loop_body (settings : Settings) (tid : Z)
    (st : loop_state) (it : ParsedItem) : result loop_state :=
  let name := match name it with [] => txt "Unknown" | n => n end in
  let price := price it in
  let qty := qty it in
  kg ← estimate_item_footprint settings name price qty;
  item_score ← score_item kg price;
  let row := {| transaction_id := tid;
                item_name := name;
                item_price := decimal.of_float <$> price;
                item_qty := qty;
                kg_co2e := decimal.of_float kg;
                item_score := Some item_score |} in
  acc' ← accumulate (acc st) price item_score;
  Ok {| added := added st ++ [row]; acc := acc' |}.

Fixpoint for_each {A S} (body : S -> A -> result S) (xs : list A) (st : S)
  : result S :=
  match xs with
  | [] => Ok st
  | x :: xs' => st' ← body st x; for_each body xs' st'
  end.

(** Modelled from the spec: the [get] of a [ReceiptItem] row, which is
    not among the sources: [it.get("item_score")] reads the score of the
    row. *)
Definition queried_scores (tid : Z) (visible : list ReceiptItem) : list Z :=
  omap item_score (List.filter (of_transaction tid) visible).

(** Modelled from the spec: the session of [app/db/session.py], which is
    not among the sources.  The bulk delete reaches the table at once; a
    query sees the rows handed to [db.add] before it when the session
    flushes before queries ([autoflush], the default of the library), and
    only the rows of the table when it does not. *)
Definition visible_rows (autoflush : bool) (kept added : list ReceiptItem)
  : list ReceiptItem :=
  if autoflush then kept ++ added else kept.

(** The [if total_price > 0: ... else: ...] after the loop. *)
Definition aggregate (tid : Z) (visible : list ReceiptItem) (acc : sums)
  : result Z :=
  has_prices ← decimal.gt_zero (total_price acc);
  if (has_prices : bool) then
    mean ← decimal.div (weighted_score_sum acc) (total_price acc);
    rounded ← decimal.quantize 1 mean;
    decimal.to_int rounded
  else
    let scores := queried_scores tid visible in
    match scores with
    | [] => Ok 5
    | _ :: _ =>
        binary64.to_int
          (binary64.of_Q
             (inject_Z (fold_right Z.add 0 scores)
              / inject_Z (Z.of_nat (length scores))))
    end.

Definition no_sums : sums :=
  {| total_price := decimal.Finite 0; weighted_score_sum := decimal.Finite 0 |}.

(** The route from [items] on, for the transaction [tx] found under [tid]:
    the new persisted state and the returned dictionary. *)
Definition process_items (settings : Settings) (autoflush : bool) (db : Db)
    (tid : Z) (tx : Transaction) (items : list ParsedItem)
  : result (Db * UploadResult) :=
  let kept := delete_items tid (receipt_items db) in
  st ← for_each (loop_body settings tid) items {| added := []; acc := no_sums |};
  tx_score ← aggregate tid (visible_rows autoflush kept (added st)) (acc st);
  let score := Z.max 0 (Z.min 10 tx_score) in
  cashback ← compute_cashback (amount tx) (Some score);
  let tx' := {| user_id := user_id tx;
                amount := amount tx;
                eco_score := Some score;
                needs_receipt := false;
                cashback_usd := Some cashback |} in
  Ok ({| transactions := <[tid := tx']> (transactions db);
         receipt_items := kept ++ added st |},
      {| r_transaction_id := tid;
         r_eco_score := score;
         r_cashback_usd := cashback;
         r_items := length items |}).

(** The route after the transaction was found: nothing is committed
    unless the whole body runs. *)
Definition upload_items (settings : Settings) (autoflush : bool) (db : Db)
    (tid : Z) (tx : Transaction) (items : list ParsedItem) : Db * outcome :=
  match items with
  | [] => (db, HTTPException 400 "Could not parse receipt")
  | _ :: _ =>
      match process_items settings autoflush db tid tx items with
      | Ok (db', r) => (db', Returned r)
      | Raise e => (db, Unhandled e)
      end
  end.

(** The body of the route.  The framework checks that both identifiers
    are positive before the body runs. *)
Definition upload_receipt (settings : Settings) (post : Vision)
    (autoflush : bool) (db : Db) (user_id transaction_id : Z)
    (content : bytes) : Db * outcome :=
  match query_transaction db user_id transaction_id with
  | None => (db, HTTPException 404 "Transaction not found for user")
  | Some tx =>
      let items := parse_receipt settings post content in
      upload_items settings autoflush db transaction_id tx items
  end.

End receipts.

(** ** [app/services/eco_scoring.py]: the scores from merchant and category *)

Module merchant_scoring.
Import pystr.

Definition MIXED_MERCHANTS : gset str :=
  {[ txt "walmart"; txt "target"; txt "amazon"; txt "costco" ]}.

(** [any(x in m for x in MIXED_MERCHANTS)]: some element of the set occurs
    in [m]. *)
Definition is_mixed_merchant (merchant_name : option str) : bool :=
  match merchant_name with
  | None | Some [] => false
  | Some merchant_name =>
      let m := lower merchant_name in
      bool_decide (set_Exists (fun x => contains x m = true) MIXED_MERCHANTS)
  end.

Definition GREEN : list str :=
  [ txt "public transit"; txt "rail"; txt "bicycle"; txt "electric charging";
    txt "organic"; txt "local" ].

Definition IMPACT : list str :=
  [ txt "gas"; txt "air"; txt "fast food"; txt "ride share" ].

Definition MODERATE : list str :=
  [ txt "groceries"; txt "coffee shop"; txt "restaurant" ].

(** [any(k in cats for k in keys)] *)
Definition any_in (cats : gset str) (keys : list str) : bool :=
  existsb (fun k => bool_decide (k ∈ cats)) keys.

Definition quick_merchant_score (merchant_name : option str)
    (category : option (list str)) : Z :=
  let cats : gset str :=
    list_to_set (map lower (match category with Some c => c | None => [] end)) in
  if any_in cats GREEN then 9
  else if any_in cats IMPACT then 3
  else if any_in cats MODERATE then 6
  else 5.

End merchant_scoring.

(** ** [app/api/routes/transactions.py]: the category column of a CSV row *)

Module transactions.
Import pystr.

(** [x.split(sep)] for a separator of one character: the stretches
    between the separators, empty ones included. *)
Fixpoint split_from (sep : ascii) (cur : str) (x : str) : list str :=
  match x with
  | [] => [rev cur]
  | c :: rest =>
      if Ascii.eqb c sep then rev cur :: split_from sep [] rest
      else split_from sep (c :: cur) rest
  end.

Definition split (sep : ascii) (x : str) : list str := split_from sep [] x.

(** [[c.strip() for c in parts if c.strip()]] *)
Definition stripped (parts : list str) : list str :=
  map (strip isspace)
    (List.filter (fun c => negb (length (strip isspace c) =? 0)%nat) parts).

(** The category of a row in [upload_csv], from [row.get("category")]:
    the parts between bars when there is a bar, between commas
    otherwise; [None] when no part is left. *)
Definition csv_categories (field : option str) : option (list str) :=
  let cat_raw := match field with Some x => x | None => [] end in
  let cats :=
    if contains (txt "|") cat_raw then stripped (split "|" cat_raw)
    else stripped (split "," cat_raw) in
  match cats with
  | [] => None
  | _ :: _ => Some cats
  end.

End transactions.

(** ** The statements of the specification, to compare the code with *)

Module spec.

(** The banding table: inclusive upper bounds, the first band that holds
    the ratio gives the score, 0 above the last bound. *)
Definition bands : list (Q * Z) :=
  [ (0.05%Q, 10); (0.10%Q, 9); (0.15%Q, 8); (0.20%Q, 7); (0.30%Q, 6);
    (0.40%Q, 5); (0.60%Q, 4); (0.80%Q, 3); (1.20%Q, 2); (2.00%Q, 1) ].

Fixpoint banding (table : list (Q * Z)) (r : float) : Z :=
  match table with
  | [] => 0
  | (bound, score) :: table' =>
      if binary64.leb r (lit bound) then score else banding table' r
  end.

(** The scores of a table go down, from at most [top], and stay at or
    above 0. *)
Fixpoint descending (top : Z) (table : list (Q * Z)) : Prop :=
  match table with
  | [] => True
  | (_, score) :: table' => 0 <= score <= top /\ descending score table'
  end.

(** The bonus multiplier, in exact arithmetic. *)
Definition multiplier (score : Z) : Q :=
  let score := Z.max 0 (Z.min 10 score) in
  if score =? 0 then 0.15
  else (0.15 + (inject_Z score / 10) * (5.0 - 0.15))%Q.

(** Rounding to the nearest integer, ties away from zero
    (ROUND_HALF_UP). *)
Definition round_half_up (x : Q) : Z :=
  if Qle_bool 0 x then Qfloor (x + (1 # 2)) else - Qfloor (- x + (1 # 2)).

(** The cashback as the specification words it: decimal arithmetic
    throughout, two decimals, ties rounded up. *)
Definition cashback (amount : Q) (score : option Z) : Q :=
  (let base := amount * 0.01 in
   let total := match score with
                | None => base
                | Some score => base + amount * 0.01 * multiplier score
                end in
   inject_Z (round_half_up (total * 100)) / 100)%Q.

(** [n] is an integer nearest to [x], the even one at a tie. *)
Definition nearest_even (x : Q) (n : Z) : Prop :=
  (Qabs (x - inject_Z n) <= 1 # 2)%Q
  /\ ((Qabs (x - inject_Z n) == 1 # 2)%Q -> Z.even n = true).

(** The multipliers of the code: the binary64 value of
    [0.15 + (score / 10.0) * (5.0 - 0.15)] as [str] prints it. *)
Definition printed_multiplier (score : Z) : Q :=
  match Z.max 0 (Z.min 10 score) with
  | 0 => 0.15%Q
  | 1 => 0.635%Q
  | 2 => 1.1199999999999999%Q
  | 3 => 1.6049999999999998%Q
  | 4 => 2.09%Q
  | 5 => 2.5749999999999997%Q
  | 6 => 3.0599999999999996%Q
  | 7 => 3.5449999999999995%Q
  | 8 => 4.03%Q
  | 9 => 4.515000000000001%Q
  | _ => 5.0%Q
  end.

(** The amount the code rounds: the base, plus the bonus at the printed
    multiplier when there is a score. *)
Definition unrounded (amount : Q) (score : option Z) : Q :=
  (amount * 0.01
   + match score with
     | None => 0
     | Some score => amount * 0.01 * printed_multiplier score
     end)%Q.

(** An amount in whole cents, of at most a billion in size. *)
Definition in_cents (amount : Q) : bool :=
  Qeq_bool (inject_Z (Qfloor (amount * 100))) (amount * 100)
  && Qle_bool (Qabs amount) 1000000000.

(** The call returns a Decimal of value [c]; a zero of either sign has
    the value 0. *)
Definition pays (r : result Decimal) (c : Q) : Prop :=
  exists d q, r = Ok d /\ decimal.value d = Some q /\ (q == c)%Q.

End spec.

Module spec_estimator.
Import pystr.

(** [key] occurs in [name], case-insensitively: some stretch of [name]
    lower-cases to [key]. *)
Definition occurs (key name : str) : Prop :=
  exists before mid after,
    name = before ++ mid ++ after /\ lower mid = key.

(** [factor] is the factor of the first keyword of the table that occurs
    in [name], the default factor if none occurs. *)
Definition first_match (table : list (str * float)) (fallback : float)
    (name : str) (factor : float) : Prop :=
  (exists before key after,
      table = before ++ (key, factor) :: after
      /\ occurs key name
      /\ Forall (fun kv => ~ occurs (fst kv) name) before)
  \/ (Forall (fun kv => ~ occurs (fst kv) name) table /\ factor = fallback).

End spec_estimator.

Module spec_extractor.

(** The single item of the fallback: the name "Unknown Item", no price, no
    quantity. *)
Definition sentinel : list ocr_google_vision.ParsedItem :=
  [ {| ocr_google_vision.name := pystr.txt "Unknown Item";
       ocr_google_vision.price := None;
       ocr_google_vision.qty := None |} ].

End spec_extractor.

Module spec_numbers.

(** The float is a zero, a finite number or an infinity of sign [s]
    ([true] for minus); not a NaN. *)
Definition signed (s : bool) (x : float) : Prop :=
  match x with
  | S754_zero t | S754_infinity t | S754_finite t _ _ => t = s
  | S754_nan => False
  end.

(** A Decimal without the minus sign and not a NaN. *)
Definition nonneg (d : Decimal) : Prop :=
  match d with
  | decimal.Finite q => (0 <= q)%Q
  | decimal.NegZero => False
  | decimal.Infinity negative => negative = false
  | decimal.NaN => False
  end.

End spec_numbers.

Module spec_upload.
Import ocr_google_vision receipts.

(** What the extractor guarantees of an item: a name, and a price that is
    absent or not negative. *)
Definition item_ok (it : ParsedItem) : Prop :=
  name it <> []
  /\ match price it with
     | None => True
     | Some x => spec_numbers.signed false x
     end.

(** The row that one turn of the loop stores for the item [it]. *)
Definition stored_from (settings : Settings) (tid : Z)
    (row : ReceiptItem) (it : ParsedItem) : Prop :=
  exists kg score,
    climatiq_client.estimate_item_footprint settings (name it) (price it) (qty it)
    = Ok kg
    /\ score_item kg (price it) = Ok score
    /\ row = {| transaction_id := tid;
                item_name := name it;
                item_price := decimal.of_float <$> price it;
                item_qty := qty it;
                kg_co2e := decimal.of_float kg;
                item_score := Some score |}.

(** A stored row with a positive price: the price and the score. *)
Definition priced (row : ReceiptItem) : option (Q * Z) :=
  match item_price row, item_score row with
  | Some (decimal.Finite p), Some score =>
      if 0 <? Qnum p then Some (p, score) else None
  | _, _ => None
  end.

Definition Qsum (xs : list Q) : Q := fold_right Qplus 0%Q xs.

(** The sum of the positive prices, and of price times score. *)
Definition price_sum (rows : list ReceiptItem) : Q :=
  Qsum (map fst (omap priced rows)).

Definition weighted_sum (rows : list ReceiptItem) : Q :=
  Qsum (map (fun ps => (fst ps * inject_Z (snd ps))%Q) (omap priced rows)).

Definition scores (rows : list ReceiptItem) : list Z := omap item_score rows.

Definition clamp (score : Z) : Z := Z.max 0 (Z.min 10 score).

(** The transaction score of the specification over the stored rows,
    before the clamp: the price-weighted mean rounded to a nearest integer
    when a row has a positive price; else the floor of the plain mean of
    the scores; 5 when there is no row. *)
Definition aggregated (rows : list ReceiptItem) (score : Z) : Prop :=
  match omap priced rows with
  | _ :: _ => spec.nearest_even (weighted_sum rows / price_sum rows) score
  | [] =>
      match rows with
      | _ :: _ =>
          score = fold_right Z.add 0 (scores rows) / Z.of_nat (length (scores rows))
      | [] => score = 5
      end
  end.

(** [p] is a whole multiple of [10^e]. *)
Definition multiple_of (e : Z) (p : Q) : bool :=
  let x := (p / 10 ^ e)%Q in Qeq_bool (inject_Z (Qfloor x)) x.

(** The sums of the rows fit the precision of the context: the positive
    prices are whole multiples of [10^e] and sum to less than
    [10^(27+e)]; with [e = -2], whole cents that sum to less than
    [10^25]. *)
Definition within_precision (e : Z) (rows : list ReceiptItem) : bool :=
  forallb (fun ps => multiple_of e (fst ps)) (omap priced rows)
  && negb (Qle_bool (10 ^ (27 + e)) (price_sum rows)).

(** A stored row is well scored: a score from 0 to 10, a footprint that
    is present and not negative. *)
Definition well_scored (row : ReceiptItem) : Prop :=
  (exists score, item_score row = Some score /\ 0 <= score <= 10)
  /\ spec_numbers.nonneg (kg_co2e row).

End spec_upload.

Module loop_invariant.
Import ocr_google_vision receipts spec_upload.

(** The name under which the loop stores an item. *)
Definition stored_name (it : ParsedItem) : str :=
  match name it with
  | [] => pystr.txt "Unknown"
  | n => n
  end.

(** [stored_from] for any item, extracted or not. *)
Definition stores (settings : Settings) (tid : Z)
    (row : ReceiptItem) (it : ParsedItem) : Prop :=
  exists kg score,
    climatiq_client.estimate_item_footprint settings (stored_name it)
      (price it) (qty it) = Ok kg
    /\ score_item kg (price it) = Ok score
    /\ row = {| transaction_id := tid;
                item_name := stored_name it;
                item_price := decimal.of_float <$> price it;
                item_qty := qty it;
                kg_co2e := decimal.of_float kg;
                item_score := Some score |}.

Definition finite_price (row : ReceiptItem) : Prop :=
  item_price row <> Some (decimal.Infinity false).

(** What holds of every row the loop has added. *)
Definition row_inv (tid : Z) (row : ReceiptItem) : Prop :=
  transaction_id row = tid
  /\ exists score,
       item_score row = Some score
       /\ 0 <= score <= 10
       /\ (priced row = None -> finite_price row -> score = 5).

(** The running sums as the loop computes them over the rows with a
    positive price: every sum and every product is rounded by the
    context. *)
Definition add_priced (tw : Q * Q) (ps : Q * Z) : Q * Q :=
  (decimal.context (fst tw + fst ps),
   decimal.context (snd tw + decimal.context (fst ps * inject_Z (snd ps))))%Q.

Definition context_sums (rows : list ReceiptItem) : Q * Q :=
  fold_left add_priced (omap priced rows) (0%Q, 0%Q).

(** What holds of the running sums: they are the sums of the context over
    the rows added so far, or a price was infinite and both are plus
    infinity. *)
Definition sums_inv (rows : list ReceiptItem) (acc : sums) : Prop :=
  (acc = {| total_price := decimal.Finite (fst (context_sums rows));
            weighted_score_sum := decimal.Finite (snd (context_sums rows)) |}
   /\ Forall finite_price rows)
  \/ acc = {| total_price := decimal.Infinity false;
              weighted_score_sum := decimal.Infinity false |}.

(** The first branch of the aggregation: the weighted mean of the sums,
    rounded to an integer. *)
Definition weighted_mean (acc : sums) : result Z :=
  mean ← decimal.div (weighted_score_sum acc) (total_price acc);
  rounded ← decimal.quantize 1 mean;
  decimal.to_int rounded.

(** The score that the aggregation gives on the sums of the rows. *)
Definition score_of_rows (rows : list ReceiptItem) : result Z :=
  if 0 <? Qnum (fst (context_sums rows))
  then weighted_mean
         {| total_price := decimal.Finite (fst (context_sums rows));
            weighted_score_sum := decimal.Finite (snd (context_sums rows)) |}
  else Ok 5.

(** The transaction row that the route writes back. *)
Definition scored_transaction (tx : Transaction) (score : Z)
    (cashback : Decimal) : Transaction :=
  {| user_id := user_id tx;
     amount := amount tx;
     eco_score := Some score;
     needs_receipt := false;
     cashback_usd := Some cashback |}.

(** The state and the answer of a run that stores [rows] with the score
    [score] and the cashback [cashback]. *)
Definition committed (db : Db) (tid : Z) (tx : Transaction)
    (rows : list ReceiptItem) (score : Z) (cashback : Decimal) (items : nat)
  : Db * UploadResult :=
  ({| transactions := <[tid := scored_transaction tx score cashback]>
                        (transactions db);
      receipt_items := delete_items tid (receipt_items db) ++ rows |},
   {| r_transaction_id := tid;
      r_eco_score := score;
      r_cashback_usd := cashback;
      r_items := items |}).

End loop_invariant.

(** ** Concrete inputs *)

Module example.
Import pystr ocr_google_vision receipts.

(** Recognition and the footprint service switched off: the defaults. *)
Definition offline : Settings :=
  {| use_real_ocr := false; google_vision_api_key := None;
     use_real_climatiq := false; climatiq_api_key := None |}.

(** Recognition switched on, with a credential. *)
Definition online : Settings :=
  {| use_real_ocr := true; google_vision_api_key := Some (txt "key");
     use_real_climatiq := false; climatiq_api_key := None |}.

(** A recognition service that answers 200 with the given text. *)
Definition recognizes (text : str) : Vision :=
  fun _ _ =>
    Ok {| status_code := 200;
          body := Some (JDict [ (txt "responses",
                   JList [ JDict [ (txt "fullTextAnnotation",
                     JDict [ (txt "text", JStr text) ]) ] ]) ]) |}.

(** A recognition service that cannot be reached. *)
Definition unreachable : Vision := fun _ _ => Raise RequestException.

Definition LF : ascii := ascii_of_N 10.

Definition receipt_text : str :=
  txt "CORNER STORE" ++ [LF] ++ txt "Coffee: $4.50" ++ [LF]
  ++ txt "Organic Kale - 0.35" ++ [LF] ++ txt "beef 10.00".

(** A line whose price has 309 digits before the point: more than a
    binary64 float can hold. *)
Definition overflowing_text : str :=
  txt "gold " ++ repeat "9"%char 309 ++ txt ".00".

Definition tx0 : Transaction :=
  {| user_id := 7; amount := 300; eco_score := None;
     needs_receipt := true; cashback_usd := None |}.

Definition old_row : ReceiptItem :=
  {| transaction_id := 1; item_name := txt "Old"; item_price := None;
     item_qty := None; kg_co2e := decimal.Finite 1; item_score := Some 5 |}.

Definition db0 : Db :=
  {| transactions := {[ 1 := tx0 ]}; receipt_items := [old_row] |}.

(** The state and the answer of an upload of [receipt_text] for the
    transaction 1 of the user 7 in [db0]. *)
Definition uploaded : Db * outcome :=
  upload_receipt online (recognizes receipt_text) true db0 7 1 [].

Definition no_result : UploadResult :=
  {| r_transaction_id := 0; r_eco_score := 0; r_cashback_usd := decimal.Finite 0;
     r_items := 0 |}.

Definition processed : Db * UploadResult :=
  match process_items online true db0 1 tx0
          (parse_receipt online (recognizes receipt_text) []) with
  | Ok x => x
  | Raise _ => (db0, no_result)
  end.

(** Three items whose prices sum to more than the 28 digits of the
    context hold. *)
Definition large_items : list ParsedItem :=
  [ {| name := txt "organic"; price := Some (lit 3.5e29); qty := None |};
    {| name := txt "beef"; price := Some (lit 6.5e29); qty := None |};
    {| name := txt "beef"; price := Some (lit 1.0); qty := None |} ].

(** Two items with large prices, and two with small ones. *)
Definition large_pair : list ParsedItem :=
  [ {| name := txt "organic"; price := Some (lit 3.5e29); qty := None |};
    {| name := txt "beef"; price := Some (lit 6.5e29); qty := None |} ].

Definition small_pair : list ParsedItem :=
  [ {| name := txt "beef"; price := Some (lit 400); qty := None |};
    {| name := txt "beef"; price := Some (lit 400); qty := None |} ].

End example.

Module spec_merchant.
Import pystr.

(** Some entry of [category] is one of [keys], letter case apart. *)
Definition tagged (keys : list str) (category : list str) : Prop :=
  exists c, c ∈ category /\ lower c ∈ keys.

End spec_merchant.

Module spec_text.
Import pystr.

(** [sep.join(parts)] for a separator of one character. *)
Fixpoint join (sep : ascii) (parts : list str) : str :=
  match parts with
  | [] => []
  | [p] => p
  | p :: rest => p ++ sep :: join sep rest
  end.

End spec_text.

Module spec_lines.
Import pystr ocr_google_vision.

(** The characters that [parse_receipt] strips from a name. *)
Definition separators : str := txt "-: ." ++ [HT].

(** Neither the first nor the last character of [x] is dropped by
    [drop]. *)
Definition trimmed (drop : ascii -> bool) (x : str) : Prop :=
  (forall c rest, x = c :: rest -> drop c = false)
  /\ (forall rest c, x = rest ++ [c] -> drop c = false).

(** A line as [splitlines] yields it holds no line boundary. *)
Definition one_line (x : str) : Prop :=
  forallb (fun c => negb (is_linebreak c)) x = true.

(** The number that the digits [ip], a point and the digits [fp] write. *)
Definition decimal_value (ip fp : str) : Q :=
  int_of_digits (ip ++ fp) # Z.to_pos (10 ^ Z.of_nat (length fp)).

(** An amount as the pattern reads it: digits, a point, one or two
    digits. *)
Definition amount (ip fp : str) : Prop :=
  ip <> [] /\ forallb isdigit ip = true /\ forallb isdigit fp = true
  /\ (length fp = 1 \/ length fp = 2)%nat.

(** An item as the extractor builds it from a line: a name with no
    separator at either end, a price that is the float nearest to an
    amount, no quantity. *)
Definition extracted (it : ParsedItem) : Prop :=
  name it <> [] /\ trimmed (one_of separators) (name it)
  /\ qty it = None
  /\ exists ip fp,
       amount ip fp /\ price it = Some (binary64.of_Q (decimal_value ip fp)).

(** A printed line of a receipt: a name, white space, an optional dollar
    sign, and an amount written as digits, a point and digits. *)
Record entry : Type := {
  e_name : str;
  e_space : str;
  e_currency : str;
  e_int : str;
  e_frac : str
}.

Definition line_of (e : entry) : str :=
  e_name e ++ e_space e ++ e_currency e ++ e_int e ++ "."%char :: e_frac e.

Definition item_of (e : entry) : ParsedItem :=
  {| name := e_name e;
     price := Some (binary64.of_Q (decimal_value (e_int e) (e_frac e)));
     qty := None |}.

(** The entry prints as one line; its name is not empty and neither
    starts nor ends with white space or with a separator; the space is
    white; the currency is absent or the dollar sign; the amount has one
    or two digits after the point. *)
Definition printable (e : entry) : Prop :=
  one_line (e_name e ++ e_space e)
  /\ e_name e <> []
  /\ trimmed isspace (e_name e)
  /\ trimmed (one_of separators) (e_name e)
  /\ e_space e <> [] /\ forallb isspace (e_space e) = true
  /\ (e_currency e = [] \/ e_currency e = ["$"%char])
  /\ amount (e_int e) (e_frac e).

End spec_lines.

Module spec_route.
Import ocr_google_vision receipts.

(** The plus infinity of binary64: what [float] returns for an amount
    too large for a finite float. *)
Definition overflow : float := S754_infinity false.

(** No price of the items is the plus infinity. *)
Definition no_overflow (items : list ParsedItem) : Prop :=
  Forall (fun it => price it <> Some overflow) items.

(** The running sums are finite. *)
Definition finite_sums (acc : sums) : Prop :=
  exists T W, acc = {| total_price := decimal.Finite T;
                       weighted_score_sum := decimal.Finite W |}.

(** The positive prices of the items, as the decimals that the loop
    adds up. *)
Definition positive_prices (items : list ParsedItem) : list Q :=
  omap (fun it =>
          match decimal.of_float <$> price it with
          | Some (decimal.Finite p) => if 0 <? Qnum p then Some p else None
          | _ => None
          end) items.

(** The prices fit the precision of the context: the positive ones are
    whole multiples of [10^e] and sum to less than [10^(27+e)]. *)
Definition prices_within (e : Z) (items : list ParsedItem) : bool :=
  forallb (spec_upload.multiple_of e) (positive_prices items)
  && negb (Qle_bool (10 ^ (27 + e)) (spec_upload.Qsum (positive_prices items))).

(** The row that the route stores for the single unknown item. *)
Definition unknown_row (tid : Z) : ReceiptItem :=
  {| transaction_id := tid;
     item_name := pystr.txt "Unknown Item";
     item_price := None;
     item_qty := None;
     kg_co2e := decimal.Finite (1 # 2);
     item_score := Some 5 |}.

End spec_route.

Module spec_csv.
Import pystr.

(** A category as [upload_csv] keeps it: not empty, no white space at
    either end. *)
Definition kept (c : str) : Prop :=
  c <> [] /\ spec_lines.trimmed isspace c.

(** The separator that [upload_csv] splits the column at. *)
Definition separator (cat_raw : str) : ascii :=
  if contains (txt "|") cat_raw then "|"%char else ","%char.

End spec_csv.

Module example_uploads.
Import pystr ocr_google_vision receipts.

(** Two items without a positive price: a free bag and the unknown
    item. *)
Definition unpriced_items : list ParsedItem :=
  [ {| name := txt "bag"; price := Some binary64.zero; qty := None |};
    {| name := txt "Unknown Item"; price := None; qty := None |} ].

Definition unpriced_run : Db * UploadResult :=
  match process_items example.offline true example.db0 1 example.tx0
          unpriced_items with
  | Ok x => x
  | Raise _ => (example.db0, example.no_result)
  end.

(** A second transaction of the user 7. *)
Definition tx1 : Transaction :=
  {| user_id := 7; amount := 42; eco_score := None;
     needs_receipt := true; cashback_usd := None |}.

Definition two_db : Db :=
  {| transactions := {[ 1 := example.tx0; 2 := tx1 ]};
     receipt_items := [example.old_row] |}.

(** A transaction of the user 7 whose amount has 29 digits. *)
Definition large_tx : Transaction :=
  {| user_id := 7; amount := 1e28; eco_score := None;
     needs_receipt := true; cashback_usd := None |}.

Definition large_db : Db :=
  {| transactions := {[ 1 := large_tx ]}; receipt_items := [] |}.

(** The answer of an upload that returned. *)
Definition answer (o : outcome) : UploadResult :=
  match o with
  | Returned r => r
  | _ => example.no_result
  end.

(** An upload for the transaction 1, then one for the transaction 2. *)
Definition first : Db * outcome :=
  upload_receipt example.online (example.recognizes example.receipt_text)
    true two_db 7 1 [].

Definition second : Db * outcome :=
  upload_receipt example.offline example.unreachable false (fst first) 7 2 [].

(** The receipt of [example.uploaded], uploaded for the transaction 2 of
    another state, by a session that does not flush. *)
Definition again : Db * outcome :=
  upload_receipt example.online (example.recognizes example.receipt_text)
    false two_db 7 2 [].

(** Two printed lines, and the text that a receipt with them shows. *)
Definition entries : list spec_lines.entry :=
  [ {| spec_lines.e_name := txt "Organic Kale";
       spec_lines.e_space := txt "  ";
       spec_lines.e_currency := txt "$";
       spec_lines.e_int := txt "12";
       spec_lines.e_frac := txt "5" |};
    {| spec_lines.e_name := txt "beef, 2 lb";
       spec_lines.e_space := txt " ";
       spec_lines.e_currency := txt "";
       spec_lines.e_int := txt "10";
       spec_lines.e_frac := txt "00" |} ].

Definition printed : str :=
  spec_text.join example.LF (map spec_lines.line_of entries).

End example_uploads.

(** * Properties *)

(** ** The order of binary64 *)

Lemma SFcompare_finite_pos m1 e1 m2 e2 :
  SFcompare (S754_finite false m1 e1) (S754_finite false m2 e2)
  = Some (match e1 ?= e2 with Lt => Lt | Gt => Gt | Eq => (m1 ?= m2)%positive end).
Proof. reflexivity. Qed.

Lemma SFcompare_finite_neg m1 e1 m2 e2 :
  SFcompare (S754_finite true m1 e1) (S754_finite true m2 e2)
  = Some (match e1 ?= e2 with Lt => Gt | Gt => Lt | Eq => CompOpp (m1 ?= m2)%positive end).
Proof. reflexivity. Qed.

Lemma leb_trans (x y z : float) :
  binary64.leb x y = true -> binary64.leb y z = true -> binary64.leb x z = true.
Proof.
  unfold binary64.leb, SFleb.
  destruct x as [[]|[]| |[] m1 e1], y as [[]|[]| |[] m2 e2], z as [[]|[]| |[] m3 e3];
    try reflexivity; try discriminate;
    rewrite ?SFcompare_finite_pos, ?SFcompare_finite_neg;
    destruct (Z.compare_spec e1 e2), (Z.compare_spec e2 e3), (Z.compare_spec e1 e3);
    try lia; try reflexivity; try discriminate;
    destruct (Pos.compare_spec m1 m2), (Pos.compare_spec m2 m3), (Pos.compare_spec m1 m3);
    simpl; try lia; try reflexivity; try discriminate.
Qed.

Lemma ltb_not_leb (x y : float) :
  binary64.ltb y x = true -> binary64.leb x y = false.
Proof.
  unfold binary64.ltb, binary64.leb, SFltb, SFleb.
  destruct x as [[]|[]| |[] m1 e1], y as [[]|[]| |[] m2 e2];
    try reflexivity; try discriminate;
    rewrite ?SFcompare_finite_pos, ?SFcompare_finite_neg;
    destruct (Z.compare_spec e1 e2), (Z.compare_spec e2 e1);
    try lia; try reflexivity; try discriminate;
    destruct (Pos.compare_spec m1 m2), (Pos.compare_spec m2 m1);
    simpl; try lia; try reflexivity; try discriminate.
Qed.

(** ** Banding *)

Lemma banding_range (table : list (Q * Z)) (r : float) (top : Z) :
  0 <= top -> Forall (fun b => 0 <= snd b <= top) table ->
  0 <= spec.banding table r <= top.
Proof.
  intros Htop Hall. induction Hall as [|[bound score] table Hb _ IH]; simpl.
  - lia.
  - destruct (binary64.leb r (lit bound)); simpl in Hb; lia.
Qed.

Lemma descending_bound (table : list (Q * Z)) :
  forall top, spec.descending top table -> Forall (fun b => 0 <= snd b <= top) table.
Proof.
  induction table as [|[bound score] table IH]; intros top H; simpl in *.
  - constructor.
  - destruct H as [Hs Hd]. constructor; [exact Hs|].
    eapply List.Forall_impl; [|apply (IH _ Hd)]. simpl. intros; lia.
Qed.

Lemma banding_antitone (table : list (Q * Z)) :
  forall top r1 r2, spec.descending top table ->
  binary64.leb r1 r2 = true -> spec.banding table r2 <= spec.banding table r1.
Proof.
  induction table as [|[bound score] table IH]; intros top r1 r2 Hd Hle; simpl.
  - lia.
  - destruct Hd as [Hs Hd].
    destruct (binary64.leb r2 (lit bound)) eqn:E2.
    + rewrite (leb_trans _ _ _ Hle E2). lia.
    + destruct (binary64.leb r1 (lit bound)).
      * pose proof (banding_range table r2 score (proj1 Hs) (descending_bound _ _ Hd)). lia.
      * eapply IH; eauto.
Qed.

Lemma bands_descending : spec.descending 10 spec.bands.
Proof. simpl. lia. Qed.

(** The nested conditionals of the code are the flat table. *)
Lemma score_is_table (r : float) :
  eco_scoring.score_from_co2e_per_dollar (Some r) = spec.banding spec.bands r.
Proof.
  assert (T : forall a b, binary64.leb (lit a) (lit b) = true ->
              binary64.leb r (lit a) = true -> binary64.leb r (lit b) = true).
  { intros a b Hab Hr. exact (leb_trans _ _ _ Hr Hab). }
  pose proof (T 0.15 0.20 eq_refl)%Q as H1.
  pose proof (T 0.30 0.40 eq_refl)%Q as H2.
  pose proof (T 0.60 0.80 eq_refl)%Q as H3.
  unfold eco_scoring.score_from_co2e_per_dollar, spec.bands, spec.banding.
  destruct (binary64.leb r (lit 0.05)); [reflexivity|].
  destruct (binary64.leb r (lit 0.10)); [reflexivity|].
  destruct (binary64.leb r (lit 0.15)) eqn:E15.
  { rewrite H1 by (reflexivity || assumption). reflexivity. }
  destruct (binary64.leb r (lit 0.20)); [reflexivity|].
  destruct (binary64.leb r (lit 0.30)) eqn:E30.
  { rewrite H2 by (reflexivity || assumption). reflexivity. }
  destruct (binary64.leb r (lit 0.40)); [reflexivity|].
  destruct (binary64.leb r (lit 0.60)) eqn:E60.
  { rewrite H3 by (reflexivity || assumption). reflexivity. }
  destruct (binary64.leb r (lit 0.80)); [reflexivity|].
  reflexivity.
Qed.

Lemma banding_above (table : list (Q * Z)) (top : Q) (r : float) :
  Forall (fun b => binary64.leb (lit (fst b)) (lit top) = true) table ->
  binary64.ltb (lit top) r = true -> spec.banding table r = 0.
Proof.
  intros Hall Hgt. induction Hall as [|[bound score] table Hb _ IH]; simpl.
  - reflexivity.
  - destruct (binary64.leb r (lit bound)) eqn:E; [|exact IH].
    simpl in Hb. pose proof (leb_trans _ _ _ E Hb) as C.
    rewrite (ltb_not_leb _ _ Hgt) in C. discriminate.
Qed.

(** C1: the banding function follows the inclusive upper-bound table
    (at most 0.05 gives 10, ..., at most 2.00 gives 1, above 2.00 gives 0),
    gives 5 for an unknown ratio, and is non-increasing in the ratio. *)
Theorem C1_banding_table :
  eco_scoring.score_from_co2e_per_dollar None = 5
  /\ (forall r, eco_scoring.score_from_co2e_per_dollar (Some r)
                = spec.banding spec.bands r)
  /\ (forall r, binary64.leb r (lit 0.05) = true ->
                eco_scoring.score_from_co2e_per_dollar (Some r) = 10)
  /\ (forall r, binary64.ltb (lit 2.00) r = true ->
                eco_scoring.score_from_co2e_per_dollar (Some r) = 0)
  /\ (forall r1 r2, binary64.leb r1 r2 = true ->
                eco_scoring.score_from_co2e_per_dollar (Some r2)
                <= eco_scoring.score_from_co2e_per_dollar (Some r1)).
Proof.
  split; [reflexivity|]. split; [exact score_is_table|].
  split; [|split].
  - intros r H. rewrite score_is_table. simpl. rewrite H. reflexivity.
  - intros r H. rewrite score_is_table. apply (banding_above _ 2.00 r); [|exact H].
    repeat constructor.
  - intros r1 r2 H. rewrite !score_is_table.
    exact (banding_antitone _ 10 r1 r2 bands_descending H).
Qed.

Lemma C1_banding_table_witness :
  eco_scoring.score_from_co2e_per_dollar (Some (lit 0.04)) = 10
  /\ eco_scoring.score_from_co2e_per_dollar (Some (lit 2.5)) = 0
  /\ eco_scoring.score_from_co2e_per_dollar (Some (lit 0.7))
     <= eco_scoring.score_from_co2e_per_dollar (Some (lit 0.12)).
Proof.
  destruct C1_banding_table as (_ & _ & Hlow & Hhigh & Hmono).
  split; [apply Hlow; reflexivity|].
  split; [apply Hhigh; reflexivity|].
  apply Hmono. reflexivity.
Defined.

(** ** Rounding *)

Ltac push_inject :=
  rewrite ?inject_Z_plus in *; change (inject_Z 1) with 1%Q in *.

Lemma Qfloor_bounds (x : Q) :
  (inject_Z (Qfloor x) <= x /\ x < inject_Z (Qfloor x) + 1)%Q.
Proof.
  split; [apply Qfloor_le|].
  pose proof (Qlt_floor x) as H. rewrite inject_Z_plus in H. exact H.
Qed.

Lemma Qfloor_unique (x : Q) (n : Z) :
  (inject_Z n <= x)%Q -> (x < inject_Z n + 1)%Q -> Qfloor x = n.
Proof.
  intros Hl Hu. destruct (Qfloor_bounds x) as [Fl Fu].
  assert (A : (inject_Z n < inject_Z (Qfloor x + 1))%Q).
  { push_inject. lra. }
  assert (B : (inject_Z (Qfloor x) < inject_Z (n + 1))%Q).
  { push_inject. lra. }
  rewrite <- Zlt_Qlt in A, B. lia.
Qed.

Lemma round_half_even_cases (x : Q) :
  let f := Qfloor x in
  let r := (x - inject_Z f)%Q in
  (r < 1 # 2 /\ decimal.round_half_even x = f)%Q
  \/ ((r == 1 # 2)%Q /\ decimal.round_half_even x = (if Z.even f then f else f + 1))
  \/ ((1 # 2 < r)%Q /\ decimal.round_half_even x = f + 1).
Proof.
  intros f r. unfold decimal.round_half_even. fold f. fold r.
  destruct (Qcompare_spec r (1 # 2)); auto.
Qed.

Lemma round_half_even_nearest (x : Q) :
  spec.nearest_even x (decimal.round_half_even x).
Proof.
  destruct (Qfloor_bounds x) as [Fl Fu].
  unfold spec.nearest_even.
  destruct (round_half_even_cases x) as [[Hr ->]|[[Hr ->]|[Hr ->]]]; simpl in Hr.
  - split.
    + apply Qabs_case; intros; lra.
    + intros E. revert E. apply Qabs_case; intros; lra.
  - destruct (Z.even (Qfloor x)) eqn:Ev.
    + split; [apply Qabs_case; intros; lra | intros _; exact Ev].
    + split.
      * push_inject. apply Qabs_case; intros; lra.
      * intros _. rewrite Z.even_add, Ev. reflexivity.
  - push_inject. split.
    + apply Qabs_case; intros; lra.
    + intros E. revert E. apply Qabs_case; intros; lra.
Qed.

Lemma round_half_even_mono (x y : Q) :
  (x <= y)%Q -> decimal.round_half_even x <= decimal.round_half_even y.
Proof.
  intros Hxy.
  destruct (Qfloor_bounds x) as [Xl Xu], (Qfloor_bounds y) as [Yl Yu].
  pose proof (Qfloor_resp_le _ _ Hxy) as Hf.
  destruct (Z.eq_dec (Qfloor x) (Qfloor y)) as [E|N].
  - destruct (round_half_even_cases x) as [[Hx ->]|[[Hx ->]|[Hx ->]]];
    destruct (round_half_even_cases y) as [[Hy ->]|[[Hy ->]|[Hy ->]]];
    simpl in Hx, Hy; rewrite <- ?E in *;
    try (destruct (Z.even (Qfloor x))); try lia; exfalso; lra.
  - assert (decimal.round_half_even x <= Qfloor x + 1).
    { destruct (round_half_even_cases x) as [[_ ->]|[[_ ->]|[_ ->]]];
      try destruct (Z.even (Qfloor x)); lia. }
    assert (Qfloor y <= decimal.round_half_even y).
    { destruct (round_half_even_cases y) as [[_ ->]|[[_ ->]|[_ ->]]];
      try destruct (Z.even (Qfloor y)); lia. }
    lia.
Qed.

Lemma round_half_even_comp (x y : Q) :
  (x == y)%Q -> decimal.round_half_even x = decimal.round_half_even y.
Proof.
  intros E. apply Z.le_antisymm; apply round_half_even_mono; rewrite E; apply Qle_refl.
Qed.

(** ** The rounding of the context *)

Lemma ten_not_0 : ~ (10 == 0)%Q.
Proof. intros H. discriminate H. Qed.

Lemma pow10_pos (k : Z) : (0 < 10 ^ k)%Q.
Proof. apply Qpower_0_lt. reflexivity. Qed.

Lemma pow10_succ (k : Z) : (10 ^ (k + 1) == 10 ^ k * 10)%Q.
Proof. rewrite (Qpower_plus 10 k 1 ten_not_0). reflexivity. Qed.

Lemma pow10_plus (a b : Z) : (10 ^ (a + b) == 10 ^ a * 10 ^ b)%Q.
Proof. apply Qpower_plus, ten_not_0. Qed.

Lemma pow10_le (a b : Z) : a <= b -> (10 ^ a <= 10 ^ b)%Q.
Proof. intros H. apply Qpower_le_compat_l; [exact H | discriminate]. Qed.

Lemma pow10_lt_inv (a b : Z) : (10 ^ a < 10 ^ b)%Q -> a < b.
Proof. intros H. apply (Qpower_lt_compat_l_inv 10); [exact H | reflexivity]. Qed.

Lemma pow10_Z (n : Z) : 0 <= n -> (inject_Z (10 ^ n) == 10 ^ n)%Q.
Proof. intros H. apply (Zpower_Qpower 10 n H). Qed.

Lemma Qle_bool_false (a b : Q) : Qle_bool a b = false -> (b < a)%Q.
Proof.
  intros E. destruct (Qlt_le_dec b a) as [H|H]; [exact H|].
  apply Qle_bool_iff in H. congruence.
Qed.

Lemma exp10_up_spec (fuel : nat) :
  forall (v : Q) (k : Z),
    (1 <= v)%Q -> (v < 10 ^ Z.of_nat fuel)%Q ->
    (10 ^ (binary64.exp10_up fuel v k - k) <= v
     /\ v < 10 ^ (binary64.exp10_up fuel v k - k + 1))%Q.
Proof.
  induction fuel as [|fuel IH]; intros v k H1 Hf.
  - exfalso. change (10 ^ Z.of_nat 0)%Q with 1%Q in Hf. lra.
  - cbn [binary64.exp10_up]. destruct (Qle_bool 10 v) eqn:E.
    + apply Qle_bool_iff in E.
      rewrite Nat2Z.inj_succ, <- Z.add_1_r, pow10_succ in Hf.
      assert (Ev : (Qred (v / 10) == v * (1 # 10))%Q)
        by (rewrite Qred_correct; reflexivity).
      destruct (IH (Qred (v / 10)) (k + 1)) as [A B].
      * rewrite Ev. lra.
      * rewrite Ev. lra.
      * set (r := binary64.exp10_up fuel (Qred (v / 10)) (k + 1)) in *.
        rewrite Ev in A, B.
        replace (r - k) with (r - (k + 1) + 1) by lia.
        rewrite !pow10_succ. rewrite pow10_succ in B. split; lra.
    + apply Qle_bool_false in E. rewrite Z.sub_diag.
      change (10 ^ 0)%Q with 1%Q. change (10 ^ (0 + 1))%Q with 10%Q.
      split; assumption.
Qed.

Lemma exp10_down_spec (fuel : nat) :
  forall (v : Q) (k : Z),
    (0 < v)%Q -> (v < 10)%Q -> (1 <= v * 10 ^ Z.of_nat fuel)%Q ->
    (10 ^ (binary64.exp10_down fuel v k - k) <= v
     /\ v < 10 ^ (binary64.exp10_down fuel v k - k + 1))%Q.
Proof.
  induction fuel as [|fuel IH]; intros v k H0 H10 Hf.
  - cbn [binary64.exp10_down]. rewrite Z.sub_diag.
    change (10 ^ Z.of_nat 0)%Q with 1%Q in Hf.
    change (10 ^ 0)%Q with 1%Q. change (10 ^ (0 + 1))%Q with 10%Q.
    split; lra.
  - cbn [binary64.exp10_down]. destruct (Qle_bool 1 v) eqn:E.
    + apply Qle_bool_iff in E. rewrite Z.sub_diag.
      change (10 ^ 0)%Q with 1%Q. change (10 ^ (0 + 1))%Q with 10%Q.
      split; assumption.
    + apply Qle_bool_false in E.
      rewrite Nat2Z.inj_succ, <- Z.add_1_r, pow10_succ in Hf.
      assert (Ev : (Qred (v * 10) == v * 10)%Q) by apply Qred_correct.
      destruct (IH (Qred (v * 10)) (k - 1)) as [A B].
      * rewrite Ev. lra.
      * rewrite Ev. lra.
      * rewrite Ev. lra.
      * set (r := binary64.exp10_down fuel (Qred (v * 10)) (k - 1)) in *.
        rewrite Ev in A, B.
        replace (r - (k - 1)) with (r - k + 1) in A, B by lia.
        rewrite pow10_succ in A, B. rewrite pow10_succ in B.
        rewrite pow10_succ. split; lra.
Qed.

Lemma pos_lt_pow10 (p : positive) :
  (inject_Z (Zpos p) < 10 ^ Z.of_nat (Pos.to_nat (Pos.size p)))%Q.
Proof.
  rewrite positive_nat_Z, <- pow10_Z by lia. rewrite <- Zlt_Qlt.
  apply Z.lt_le_trans with (2 ^ Zpos (Pos.size p)).
  - pose proof (Pos.size_gt p) as H. rewrite <- Pos2Z.inj_pow. exact H.
  - apply Z.pow_le_mono_l. lia.
Qed.

(** The adjusted exponent is the one of the leading digit. *)
Lemma adjusted_spec (q : Q) :
  ~ (q == 0)%Q ->
  (10 ^ decimal.adjusted q <= Qabs q
   /\ Qabs q < 10 ^ (decimal.adjusted q + 1))%Q.
Proof.
  intros Hq. unfold decimal.adjusted.
  assert (Hv : (0 < Qabs q)%Q).
  { destruct (Qlt_le_dec 0 (Qabs q)) as [H|H]; [exact H|]. exfalso.
    apply Hq. apply Qabs_Qle_condition in H. lra. }
  set (v := Qabs q) in *. clearbody v. clear q Hq.
  destruct v as [n d]. unfold Qlt in Hv. simpl in Hv. rewrite Z.mul_1_r in Hv.
  destruct n as [|n|n]; try lia. cbn [Qnum Qden Z.to_pos].
  destruct (Qle_bool 1 (Zpos n # d)) eqn:E.
  - apply Qle_bool_iff in E.
    pose proof (exp10_up_spec (Pos.to_nat (Pos.size n)) (Zpos n # d) 0 E) as H.
    rewrite Z.sub_0_r in H. apply H.
    apply Qle_lt_trans with (inject_Z (Zpos n)); [|apply pos_lt_pow10].
    unfold Qle, inject_Z. simpl. nia.
  - apply Qle_bool_false in E.
    assert (H0 : (0 < Zpos n # d)%Q) by reflexivity.
    assert (H10 : (Zpos n # d < 10)%Q) by lra.
    pose proof (exp10_down_spec (Pos.to_nat (Pos.size d)) (Zpos n # d) 0 H0 H10) as H.
    rewrite Z.sub_0_r in H. apply H.
    pose proof (pos_lt_pow10 d) as Hd.
    apply Qle_trans with ((Zpos n # d) * inject_Z (Zpos d))%Q.
    + unfold Qle, Qmult, inject_Z. simpl. nia.
    + apply Qmult_le_l; [exact H0 | apply Qlt_le_weak, Hd].
Qed.

Lemma Qabs_comp (x y : Q) : (x == y)%Q -> (Qabs x == Qabs y)%Q.
Proof. intros E. rewrite E. reflexivity. Qed.

Lemma round_half_even_near (x : Q) (n : Z) :
  (Qabs (x - inject_Z n) < 1 # 2)%Q -> decimal.round_half_even x = n.
Proof.
  intros H. destruct (round_half_even_nearest x) as [N _].
  apply Qabs_Qle_condition in N. apply Qabs_Qlt_condition in H.
  assert (A : (inject_Z (decimal.round_half_even x) < inject_Z (n + 1))%Q)
    by (push_inject; lra).
  assert (B : (inject_Z n < inject_Z (decimal.round_half_even x + 1))%Q)
    by (push_inject; lra).
  rewrite <- Zlt_Qlt in A, B. lia.
Qed.

Lemma round_half_even_Z (n : Z) : decimal.round_half_even (inject_Z n) = n.
Proof.
  apply round_half_even_near.
  rewrite (Qabs_comp (inject_Z n - inject_Z n) 0) by ring. reflexivity.
Qed.

Lemma round_digits_comp (n : Z) (x y : Q) :
  (x == y)%Q -> decimal.round_digits n x = decimal.round_digits n y.
Proof.
  intros E. unfold decimal.round_digits. rewrite (Qred_complete x y E). reflexivity.
Qed.

Lemma round_digits_0 (n : Z) (q : Q) :
  (q == 0)%Q -> decimal.round_digits n q = 0%Q.
Proof. intros E. rewrite (round_digits_comp n q 0 E). reflexivity. Qed.

(** The rounding in terms of the exponent of the leading digit. *)
Lemma round_digits_spec (n : Z) (q : Q) :
  ~ (q == 0)%Q ->
  exists k : Z,
    (10 ^ k <= Qabs q)%Q /\ (Qabs q < 10 ^ (k + 1))%Q
    /\ (decimal.round_digits n q
        == inject_Z (decimal.round_half_even (q / 10 ^ (k + 1 - n)))
           * 10 ^ (k + 1 - n))%Q.
Proof.
  intros Hq. exists (decimal.adjusted (Qred q)).
  assert (Hr : ~ (Qred q == 0)%Q) by (rewrite Qred_correct; exact Hq).
  destruct (adjusted_spec _ Hr) as [A B].
  rewrite (Qabs_comp _ _ (Qred_correct q)) in A, B.
  split; [exact A|]. split; [exact B|].
  unfold decimal.round_digits. cbv zeta.
  destruct (Qeq_bool (Qred q) 0) eqn:E; [apply Qeq_bool_eq in E; contradiction|].
  set (u := (10 ^ (decimal.adjusted (Qred q) + 1 - n))%Q). clearbody u.
  rewrite Qred_correct.
  rewrite (round_half_even_comp (Qred q / u) (q / u)); [reflexivity|].
  rewrite Qred_correct. reflexivity.
Qed.

(** A number of at most [n] significant digits, [c * 10^e] with
    [|c| < 10^n], is not changed. *)
Lemma round_digits_exact (n : Z) (q : Q) (c e : Z) :
  Z.abs c < 10 ^ n -> (q == inject_Z c * 10 ^ e)%Q ->
  (decimal.round_digits n q == q)%Q.
Proof.
  intros Hc Eq.
  assert (Hn : 0 <= n).
  { destruct (Z.le_gt_cases 0 n) as [H|H]; [exact H|].
    rewrite Z.pow_neg_r in Hc by lia. lia. }
  destruct (Qeq_dec q 0) as [Z0|NZ].
  - rewrite (round_digits_0 n q Z0), Z0. reflexivity.
  - destruct (round_digits_spec n q NZ) as (k & A & _ & ->).
    assert (Habs : (Qabs q == inject_Z (Z.abs c) * 10 ^ e)%Q).
    { rewrite (Qabs_comp _ _ Eq), Qabs_Qmult.
      rewrite (Qabs_pos (10 ^ e)) by apply Qlt_le_weak, pow10_pos.
      apply Qmult_comp; [|reflexivity].
      unfold Qabs, inject_Z. reflexivity. }
    assert (Hk : k + 1 - n <= e).
    { assert (L : (10 ^ k < 10 ^ (n + e))%Q).
      { apply Qle_lt_trans with (Qabs q); [exact A|].
        rewrite Habs, pow10_plus, <- (pow10_Z n Hn).
        apply Qmult_lt_compat_r; [apply pow10_pos|].
        rewrite <- Zlt_Qlt. exact Hc. }
      apply pow10_lt_inv in L. lia. }
    set (u := k + 1 - n) in *.
    assert (Ex : (q / 10 ^ u == inject_Z (c * 10 ^ (e - u)))%Q).
    { rewrite inject_Z_mult, pow10_Z by lia.
      rewrite Eq. replace e with ((e - u) + u) at 1 by lia.
      rewrite pow10_plus. field. apply Qpower_not_0, ten_not_0. }
    rewrite (round_half_even_comp _ _ Ex), round_half_even_Z.
    rewrite inject_Z_mult, pow10_Z by lia.
    rewrite Eq. replace e with ((e - u) + u) at 2 by lia.
    rewrite pow10_plus. ring.
Qed.

(** The result has at most [n] significant digits. *)
Lemma round_digits_significant (n : Z) (q : Q) :
  0 <= n ->
  exists c e : Z,
    Z.abs c <= 10 ^ n /\ (decimal.round_digits n q == inject_Z c * 10 ^ e)%Q.
Proof.
  intros Hn. destruct (Qeq_dec q 0) as [Z0|NZ].
  - exists 0, 0. rewrite (round_digits_0 n q Z0). split; [|reflexivity].
    pose proof (Z.pow_nonneg 10 n). simpl. lia.
  - destruct (round_digits_spec n q NZ) as (k & _ & B & E).
    set (u := k + 1 - n) in *.
    exists (decimal.round_half_even (q / 10 ^ u)), u. split; [|exact E].
    assert (L : (Qabs (q / 10 ^ u) <= inject_Z (10 ^ n))%Q).
    { unfold Qdiv. rewrite Qabs_Qmult, Qabs_Qinv.
      rewrite (Qabs_pos (10 ^ u)) by apply Qlt_le_weak, pow10_pos.
      rewrite pow10_Z by exact Hn.
      apply Qle_shift_div_r; [apply pow10_pos|].
      rewrite <- pow10_plus. replace (n + u) with (k + 1) by (unfold u; lia).
      apply Qlt_le_weak, B. }
    apply Qabs_Qle_condition in L as [L1 L2].
    rewrite <- inject_Z_opp in L1.
    apply round_half_even_mono in L1, L2.
    rewrite round_half_even_Z in L1, L2. lia.
Qed.

(** The rounding error is at most half a unit of the last digit kept. *)
Lemma round_digits_error (n : Z) (q : Q) (m : Z) :
  (Qabs q < 10 ^ m)%Q ->
  (Qabs (decimal.round_digits n q - q) <= (1 # 2) * 10 ^ (m - n))%Q.
Proof.
  intros Hm. destruct (Qeq_dec q 0) as [Z0|NZ].
  - rewrite (round_digits_0 n q Z0).
    rewrite (Qabs_comp (0 - q) 0) by (rewrite Z0; reflexivity).
    pose proof (pow10_pos (m - n)). change (Qabs 0) with 0%Q. lra.
  - destruct (round_digits_spec n q NZ) as (k & A & _ & ->).
    set (u := k + 1 - n).
    assert (Hu : u <= m - n).
    { assert (L : (10 ^ k < 10 ^ m)%Q) by (apply Qle_lt_trans with (Qabs q); assumption).
      apply pow10_lt_inv in L. unfold u. lia. }
    apply Qle_trans with ((1 # 2) * 10 ^ u)%Q.
    + destruct (round_half_even_nearest (q / 10 ^ u)) as [N _].
      pose proof (pow10_pos u) as Pu.
      rewrite (Qabs_comp _ ((inject_Z (decimal.round_half_even (q / 10 ^ u)) - q / 10 ^ u) * 10 ^ u)).
      * rewrite Qabs_Qmult, (Qabs_pos (10 ^ u)) by lra.
        apply Qmult_le_compat_r; [|lra]. rewrite Qabs_Qminus. exact N.
      * field. lra.
    + apply Qmult_le_l; [reflexivity | apply pow10_le, Hu].
Qed.

(** The rounding keeps the sign. *)
Lemma round_digits_pos (n : Z) (q : Q) :
  1 <= n -> (0 < q)%Q -> (0 < decimal.round_digits n q)%Q.
Proof.
  intros Hn Hq.
  assert (NZ : ~ (q == 0)%Q) by lra.
  destruct (round_digits_spec n q NZ) as (k & A & _ & ->).
  set (u := k + 1 - n). pose proof (pow10_pos u) as Pu.
  rewrite (Qabs_pos q) in A by lra.
  assert (L : (inject_Z 1 <= q / 10 ^ u)%Q).
  { apply Qle_shift_div_l; [exact Pu|]. change (inject_Z 1) with 1%Q.
    rewrite Qmult_1_l. apply Qle_trans with (10 ^ k)%Q; [|exact A].
    apply pow10_le. unfold u. lia. }
  apply round_half_even_mono in L. rewrite round_half_even_Z in L.
  apply Qmult_lt_0_compat; [|exact Pu].
  change 0%Q with (inject_Z 0). rewrite <- Zlt_Qlt. lia.
Qed.

Lemma round_digits_nonneg (n : Z) (q : Q) :
  1 <= n -> (0 <= q)%Q -> (0 <= decimal.round_digits n q)%Q.
Proof.
  intros Hn Hq. destruct (Qeq_dec q 0) as [Z0|NZ].
  - rewrite (round_digits_0 n q Z0). apply Qle_refl.
  - apply Qlt_le_weak, round_digits_pos; [exact Hn|].
    destruct (Qlt_le_dec 0 q) as [H|H]; [exact H|]. exfalso. apply NZ. lra.
Qed.
(** ** Cashback *)

Ltac cases_0_10 c :=
  let C := fresh "C" in
  assert (C : c = 0 \/ c = 1 \/ c = 2 \/ c = 3 \/ c = 4 \/ c = 5 \/ c = 6
              \/ c = 7 \/ c = 8 \/ c = 9 \/ c = 10) by lia;
  destruct C as [->|[->|[->|[->|[->|[->|[->|[->|[->|[->| ->]]]]]]]]]].

Lemma nearest_multiple_comp (u x y : Q) :
  (x == y)%Q -> decimal.nearest_multiple u x = decimal.nearest_multiple u y.
Proof.
  intros E. unfold decimal.nearest_multiple.
  rewrite (round_half_even_comp (x / u) (y / u)); [reflexivity|].
  rewrite E. reflexivity.
Qed.

Lemma nearest_cent (x : Q) :
  (decimal.nearest_multiple 0.01 x
   == inject_Z (decimal.round_half_even (x * 100)) / 100)%Q.
Proof.
  unfold decimal.nearest_multiple. rewrite Qred_correct.
  rewrite (round_half_even_comp (x / 0.01) (x * 100)) by (field).
  field.
Qed.

Lemma multiplier_printed (score : Z) :
  exists dm, decimal.of_float (eco_scoring.map_score_to_multiplier score)
             = decimal.Finite dm
             /\ (dm == spec.printed_multiplier score)%Q.
Proof.
  unfold eco_scoring.map_score_to_multiplier, spec.printed_multiplier.
  assert (B : 0 <= Z.max 0 (Z.min 10 score) <= 10) by lia.
  set (c := Z.max 0 (Z.min 10 score)) in *. clearbody c.
  cases_0_10 c; vm_compute; eexists; (split; [reflexivity|]); reflexivity.
Qed.

(** The printed multipliers have 16 decimals and are at most 5. *)
Lemma printed_multiplier_digits (score : Z) :
  exists c : Z,
    0 < c <= 5 * 10 ^ 16
    /\ (spec.printed_multiplier score == inject_Z c * 10 ^ (-16))%Q.
Proof.
  unfold spec.printed_multiplier.
  assert (B : 0 <= Z.max 0 (Z.min 10 score) <= 10) by lia.
  set (s := Z.max 0 (Z.min 10 score)) in *. clearbody s.
  cases_0_10 s;
    [ exists 1500000000000000 | exists 6350000000000000
    | exists 11199999999999999 | exists 16049999999999998
    | exists 20900000000000000 | exists 25749999999999997
    | exists 30599999999999996 | exists 35449999999999995
    | exists 40300000000000000 | exists 45150000000000010
    | exists 50000000000000000 ];
    (split; [lia | reflexivity]).
Qed.

Lemma context_exact (q : Q) (c e : Z) :
  Z.abs c < 10 ^ 28 -> (q == inject_Z c * 10 ^ e)%Q ->
  (decimal.context q == q)%Q.
Proof. apply round_digits_exact. Qed.

Lemma context_comp (x y : Q) :
  (x == y)%Q -> decimal.context x = decimal.context y.
Proof. apply round_digits_comp. Qed.

Lemma negative_spec (q : Q) : decimal.negative q = true <-> (q < 0)%Q.
Proof.
  unfold decimal.negative, Qlt. simpl. rewrite Z.ltb_lt. lia.
Qed.

(** A result that is not zero, or whose sign is plus, is the rounded
    number. *)
Lemma rounded_finite (s : bool) (q : Q) :
  (s = true -> ~ (decimal.context q == 0)%Q) ->
  decimal.rounded s q = decimal.Finite (decimal.context q).
Proof.
  intros H. unfold decimal.rounded. cbv zeta.
  destruct (Qeq_bool (decimal.context q) 0) eqn:E; [|reflexivity].
  destruct s; [|reflexivity].
  apply Qeq_bool_eq in E. exfalso. exact (H eq_refl E).
Qed.

Lemma negative_false (q : Q) : (0 <= q)%Q -> decimal.negative q = false.
Proof.
  intros H. destruct (decimal.negative q) eqn:N; [|reflexivity].
  apply negative_spec in N. lra.
Qed.

Lemma rounded_cases (s : bool) (q : Q) :
  (exists r, decimal.rounded s q = decimal.Finite r)
  \/ decimal.rounded s q = decimal.NegZero.
Proof.
  unfold decimal.rounded. cbv zeta.
  destruct (Qeq_bool (decimal.context q) 0 && s); [right|left; eexists]; reflexivity.
Qed.

Lemma rounded_plus (q : Q) :
  decimal.rounded false q = decimal.Finite (decimal.context q).
Proof. unfold decimal.rounded. cbv zeta. rewrite andb_false_r. reflexivity. Qed.

(** An amount in whole cents: the number of cents. *)
Lemma in_cents_spec (amount : Q) :
  spec.in_cents amount = true ->
  exists n : Z, Z.abs n <= 10 ^ 11 /\ (amount == inject_Z n / 100)%Q.
Proof.
  unfold spec.in_cents. intros H. apply andb_true_iff in H as [H1 H2].
  apply Qeq_bool_eq in H1. apply Qle_bool_iff in H2.
  exists (Qfloor (amount * 100)). split.
  - apply Qabs_Qle_condition in H2 as [L U].
    assert (A : (inject_Z (- 10 ^ 11) <= inject_Z (Qfloor (amount * 100)))%Q).
    { rewrite H1. change (inject_Z (- 10 ^ 11)) with (- (100000000000))%Q. lra. }
    assert (B : (inject_Z (Qfloor (amount * 100)) <= inject_Z (10 ^ 11))%Q).
    { rewrite H1. change (inject_Z (10 ^ 11)) with (100000000000)%Q. lra. }
    rewrite <- Zle_Qle in A, B. lia.
  - rewrite H1. field.
Qed.

(** The last step of the cashback, on a total of at most 10^12 cents. *)
Lemma quantize_cents (x y : Q) :
  (x == y)%Q ->
  (inject_Z (- 10 ^ 12) <= y * 100 <= inject_Z (10 ^ 12))%Q ->
  spec.pays (decimal.quantize 0.01 (decimal.Finite x))
    (decimal.nearest_multiple 0.01 y).
Proof.
  intros Ex [B1 B2]. unfold decimal.quantize. cbv zeta.
  rewrite (nearest_multiple_comp _ _ _ Ex).
  rewrite (round_half_even_comp (x / 0.01) (y * 100)) by (rewrite Ex; field).
  apply round_half_even_mono in B1, B2.
  rewrite round_half_even_Z in B1, B2.
  replace (_ <? _) with true
    by (symmetry; apply Z.ltb_lt;
        change (10 ^ decimal.context_prec) with (10 ^ 28); lia).
  destruct (decimal.round_half_even (y * 100) =? 0) eqn:E0;
    [destruct (decimal.negative x)|]; cbn [andb].
  - eexists _, _. split; [reflexivity|]. split; [reflexivity|].
    apply Z.eqb_eq in E0. rewrite nearest_cent, E0. reflexivity.
  - eexists _, _. split; [reflexivity|]. split; reflexivity.
  - eexists _, _. split; [reflexivity|]. split; reflexivity.
Qed.

(** On an amount in whole cents of at most a billion, no operation of
    the context rounds: the code pays the nearest cent of the base, plus
    the bonus at the printed multiplier when there is a score. *)
Lemma pays_exact (amount : Q) (score : option Z) :
  spec.in_cents amount = true ->
  spec.pays (eco_scoring.compute_cashback amount score)
    (decimal.nearest_multiple 0.01 (spec.unrounded amount score)).
Proof.
  intros H. apply in_cents_spec in H as (n & Hn & En).
  assert (Hn' : - 10 ^ 11 <= n <= 10 ^ 11) by lia. clear Hn.
  assert (Neg : decimal.negative amount = true -> n < 0).
  { intros N. apply negative_spec in N. rewrite En in N.
    unfold Qdiv in N. change (/ 100)%Q with (1 # 100)%Q in N.
    assert (A : (inject_Z n < inject_Z 0)%Q) by (change (inject_Z 0) with 0%Q; lra).
    rewrite <- Zlt_Qlt in A. exact A. }
  unfold eco_scoring.compute_cashback, decimal.dec.
  cbn [decimal.mul mbind result_bind].
  change (decimal.negative (Qred 0.01)) with false. rewrite xorb_false_r.
  assert (Eb : (decimal.context (amount * Qred 0.01) == inject_Z n * 10 ^ (-4))%Q).
  { assert (E : (amount * Qred 0.01 == inject_Z n * 10 ^ (-4))%Q).
    { rewrite Qred_correct, En. change (10 ^ (-4))%Q with (/ 10000)%Q. field. }
    rewrite (context_exact _ n (-4)); [exact E | lia | exact E]. }
  rewrite rounded_finite.
  2:{ intros N. apply Neg in N. rewrite Eb.
      change (10 ^ (-4))%Q with (1 # 10000)%Q.
      assert (A : (inject_Z n < inject_Z 0)%Q) by (rewrite <- Zlt_Qlt; exact N).
      change (inject_Z 0) with 0%Q in A. lra. }
  cbn [mbind result_bind].
  assert (Bound : (inject_Z (- 10 ^ 12) <= spec.unrounded amount score * 100
                   <= inject_Z (10 ^ 12))%Q).
  { change (inject_Z (- 10 ^ 12)) with (- (1000000000000))%Q.
    change (inject_Z (10 ^ 12)) with (1000000000000)%Q.
    assert (A : (- (1000000000) <= amount <= 1000000000)%Q).
    { rewrite En. destruct Hn' as [L U]. rewrite Zle_Qle in L, U.
      change (inject_Z (- 10 ^ 11)) with (- (100000000000))%Q in L.
      change (inject_Z (10 ^ 11)) with (100000000000)%Q in U.
      unfold Qdiv. change (/ 100)%Q with (1 # 100)%Q. lra. }
    unfold spec.unrounded. destruct score as [s|].
    - destruct (printed_multiplier_digits s) as (c & Hc & Ec).
      assert (P : (0 <= spec.printed_multiplier s <= 5)%Q).
      { rewrite Ec. destruct Hc as [L U]. apply Z.lt_le_incl in L.
        rewrite Zle_Qle in L, U.
        change (10 ^ (-16))%Q with (1 # 10000000000000000)%Q.
        change (inject_Z (5 * 10 ^ 16)) with (50000000000000000)%Q in U.
        change (inject_Z 0) with 0%Q in L. lra. }
      nra.
    - split; lra. }
  destruct score as [s|].
  2:{ apply quantize_cents; [|exact Bound]. rewrite Eb. unfold spec.unrounded.
      rewrite En. change (10 ^ (-4))%Q with (/ 10000)%Q. field. }
  destruct (multiplier_printed s) as (dm & -> & Edm).
  destruct (printed_multiplier_digits s) as (c & Hc & Ec).
  cbn [decimal.mul decimal.add mbind result_bind].
  set (base := decimal.context (amount * Qred 0.01)) in *.
  assert (Ndm : decimal.negative dm = false).
  { destruct (decimal.negative dm) eqn:N; [|reflexivity].
    apply negative_spec in N. rewrite Edm, Ec in N.
    change (10 ^ (-16))%Q with (1 # 10000000000000000)%Q in N.
    assert (A : (inject_Z 0 < inject_Z c)%Q) by (rewrite <- Zlt_Qlt; lia).
    change (inject_Z 0) with 0%Q in A. lra. }
  rewrite Ndm, xorb_false_r.
  assert (Ebo : (decimal.context (base * dm)
                 == inject_Z (n * c) * 10 ^ (-20))%Q).
  { assert (E : (base * dm == inject_Z (n * c) * 10 ^ (-20))%Q).
    { rewrite Eb, Edm, Ec, inject_Z_mult.
      change (10 ^ (-4))%Q with (/ 10000)%Q.
      change (10 ^ (-16))%Q with (/ 10000000000000000)%Q.
      change (10 ^ (-20))%Q with (/ 100000000000000000000)%Q. field. }
    rewrite (context_exact _ (n * c) (-20)); [exact E | nia | exact E]. }
  rewrite rounded_finite.
  2:{ intros N. apply negative_spec in N. rewrite Eb in N. rewrite Ebo.
      change (10 ^ (-4))%Q with (1 # 10000)%Q in N.
      change (10 ^ (-20))%Q with (1 # 100000000000000000000)%Q.
      assert (A : (inject_Z n < inject_Z 0)%Q) by (change (inject_Z 0) with 0%Q; lra).
      rewrite <- Zlt_Qlt in A.
      assert (B : (inject_Z (n * c) < inject_Z 0)%Q) by (rewrite <- Zlt_Qlt; nia).
      change (inject_Z 0) with 0%Q in B. lra. }
  cbn [mbind result_bind].
  set (bonus := decimal.context (base * dm)) in *.
  assert (Et : (base + bonus == inject_Z (n * (10 ^ 16 + c)) * 10 ^ (-20))%Q).
  { rewrite Eb, Ebo, !inject_Z_mult, inject_Z_plus.
    change (inject_Z (10 ^ 16)) with (10000000000000000)%Q.
    change (10 ^ (-4))%Q with (/ 10000)%Q.
    change (10 ^ (-20))%Q with (/ 100000000000000000000)%Q. field. }
  apply quantize_cents; [|exact Bound].
  rewrite (context_exact _ (n * (10 ^ 16 + c)) (-20)); [| nia | exact Et].
  rewrite Et. unfold spec.unrounded. rewrite En, Ec, !inject_Z_mult, inject_Z_plus.
  change (inject_Z (10 ^ 16)) with (10000000000000000)%Q.
  change (10 ^ (-16))%Q with (/ 10000000000000000)%Q.
  change (10 ^ (-20))%Q with (/ 100000000000000000000)%Q. field.
Qed.

(** On such an amount the cashback is defined. *)
Lemma compute_cashback_returns (amount : Q) (score : option Z) :
  spec.in_cents amount = true ->
  exists cashback, eco_scoring.compute_cashback amount score = Ok cashback.
Proof.
  intros H. destruct (pays_exact amount score H) as (d & _ & E & _). eauto.
Qed.

Lemma pays_comp (r : result Decimal) (c c' : Q) :
  spec.pays r c -> (c == c')%Q -> spec.pays r c'.
Proof.
  intros (d & q & E & V & H) Ec. exists d, q.
  split; [exact E|]. split; [exact V|]. rewrite H. exact Ec.
Qed.

Ltac pays_by_computation d :=
  exists d; eexists;
  split; [vm_compute; reflexivity | split; reflexivity].

Lemma nearest_cent_mono (x y : Q) :
  (x <= y)%Q ->
  (decimal.nearest_multiple 0.01 x <= decimal.nearest_multiple 0.01 y)%Q.
Proof.
  intros H. rewrite !nearest_cent.
  assert (R : decimal.round_half_even (x * 100) <= decimal.round_half_even (y * 100)).
  { apply round_half_even_mono. lra. }
  rewrite Zle_Qle in R. unfold Qdiv.
  apply Qmult_le_compat_r; [exact R | discriminate].
Qed.


Lemma printed_multiplier_mono (s1 s2 : Z) :
  s1 <= s2 -> (spec.printed_multiplier s1 <= spec.printed_multiplier s2)%Q.
Proof.
  intros H. unfold spec.printed_multiplier.
  assert (B1 : 0 <= Z.max 0 (Z.min 10 s1) <= 10) by lia.
  assert (B2 : 0 <= Z.max 0 (Z.min 10 s2) <= 10) by lia.
  assert (L : Z.max 0 (Z.min 10 s1) <= Z.max 0 (Z.min 10 s2)) by lia.
  set (c1 := Z.max 0 (Z.min 10 s1)) in *. set (c2 := Z.max 0 (Z.min 10 s2)) in *.
  clearbody c1 c2. clear H.
  cases_0_10 c1; cases_0_10 c2; try (exfalso; lia); unfold Qle; simpl; lia.
Qed.

Lemma printed_multiplier_pos (s : Z) : (0 < spec.printed_multiplier s)%Q.
Proof.
  apply Qlt_le_trans with (spec.printed_multiplier 0); [reflexivity|].
  destruct (Z.le_ge_cases 0 s) as [H|H].
  - apply printed_multiplier_mono, H.
  - unfold spec.printed_multiplier. replace (Z.max 0 (Z.min 10 s)) with 0 by lia.
    apply Qle_refl.
Qed.




(** The binary multiplier shows in the cents: at score 9 the printed
    multiplier is 4.515000000000001, and 300.00 earns 16.55 where the exact
    4.515 would give the tie 16.545 and, to the even cent, 16.54. *)
Lemma cashback_binary_multiplier_visible :
  spec.pays (eco_scoring.compute_cashback 300 (Some 9%Z)) 16.55
  /\ (decimal.nearest_multiple 0.01
        (300 * 0.01 + 300 * 0.01 * spec.multiplier 9%Z)
      == 16.54)%Q.
Proof.
  split; [pays_by_computation (decimal.Finite (331 # 20)) | reflexivity].
Qed.

(** The precision of the context shows on large amounts: at score 5 the
    amount 3333333333340.28 earns 119166666666.92, where the nearest cent
    of the base plus the bonus is 119166666666.91: the product with the
    multiplier has 31 digits, of which the context keeps 28. *)
Lemma cashback_context_visible :
  spec.pays (eco_scoring.compute_cashback 3333333333340.28 (Some 5%Z))
    119166666666.92
  /\ (decimal.nearest_multiple 0.01 (spec.unrounded 3333333333340.28 (Some 5%Z))
      == 119166666666.91)%Q.
Proof.
  split; [pays_by_computation (decimal.Finite (2979166666673 # 25))
         | reflexivity].
Qed.

(** Nor is the cashback defined for every amount: [quantize] raises when
    the cents need more than 28 digits, from 1E+28 on without a score,
    and at 2E+27 with the score 10 though not with the score 0. *)
Lemma cashback_raises :
  eco_scoring.compute_cashback 1e28 None = Raise InvalidOperation
  /\ eco_scoring.compute_cashback 2e27 (Some 10%Z) = Raise InvalidOperation
  /\ spec.pays (eco_scoring.compute_cashback 2e27 (Some 0%Z)) 2.3e25.
Proof.
  split; [vm_compute; reflexivity|]. split; [vm_compute; reflexivity|].
  pays_by_computation (decimal.Finite (23000000000000000000000000 # 1)).
Qed.

(** The cashback of a refund of one cent is the zero with the minus
    sign, which prints as -0.00. *)
Lemma cashback_negative_zero :
  eco_scoring.compute_cashback (- 0.01) None = Ok decimal.NegZero
  /\ eco_scoring.compute_cashback (- 0.01) (Some 10%Z) = Ok decimal.NegZero.
Proof. split; vm_compute; reflexivity. Qed.






(** ** The float model against the primitive floats

    The literals, the multiplier and its printed digits, computed with the
    operations of [spec_float] above, agree with the binary64 floats of the
    kernel. *)

Lemma literals_as_primitive_floats :
  map lit [0.05; 0.10; 0.15; 0.20; 0.30; 0.40; 0.60; 0.80; 1.2; 2.0;
           0.5; 1.0; 5.0; 10.0]%Q
  = map Prim2SF [0.05; 0.10; 0.15; 0.20; 0.30; 0.40; 0.60; 0.80; 1.2; 2.0;
                 0.5; 1.0; 5.0; 10.0]%float.
Proof. vm_compute. reflexivity. Qed.

Lemma multiplier_as_primitive_floats :
  map eco_scoring.map_score_to_multiplier [1; 2; 3; 4; 5; 6; 7; 8; 9; 10]
  = map (fun score => Prim2SF (0.15 + (score / 10.0) * (5.0 - 0.15))%float)
      [1; 2; 3; 4; 5; 6; 7; 8; 9; 10]%float.
Proof. vm_compute. reflexivity. Qed.

Lemma printed_multiplier_reads_back (score : Z) :
  binary64.of_Q (spec.printed_multiplier score)
  = eco_scoring.map_score_to_multiplier score.
Proof.
  unfold eco_scoring.map_score_to_multiplier, spec.printed_multiplier.
  assert (B : 0 <= Z.max 0 (Z.min 10 score) <= 10) by lia.
  set (c := Z.max 0 (Z.min 10 score)) in *. clearbody c.
  cases_0_10 c; vm_compute; reflexivity.
Qed.

(** The bound of 17 digits in [decimal.of_float] changes no digit of a
    printed float: here on the multipliers, on literals of the sources,
    on [0.1 + 0.2], which prints with 17 digits, and on the least and
    the greatest positive float. *)
Lemma printed_digits_kept :
  forallb
    (fun x =>
       match x with
       | S754_finite false m e =>
           Qeq_bool (decimal.round_digits 17 (binary64.shortest m e))
             (binary64.shortest m e)
       | _ => false
       end)
    (map eco_scoring.map_score_to_multiplier [0; 1; 2; 3; 4; 5; 6; 7; 8; 9; 10]
     ++ map lit [0.05; 0.10; 0.15; 0.20; 0.30; 0.40; 0.60; 0.80; 1.2; 2.0;
                 0.5; 1.0; 5.0; 10.0; 19.99; 1234567.89]%Q
     ++ [binary64.add (lit 0.1) (lit 0.2);
         S754_finite false 1 (-1074);
         S754_finite false 9007199254740991 971])
  = true.
Proof. vm_compute. reflexivity. Qed.

(** ** Keyword lookup and the fallback estimator *)

Arguments lit : simpl never.
Arguments binary64.of_Q : simpl never.

Lemma startswith_spec (p x : str) :
  pystr.startswith p x = true <-> exists post, x = p ++ post.
Proof.
  revert x. induction p as [|a p IH]; intros x; simpl.
  - split; [intros _; exists x; reflexivity | reflexivity].
  - destruct x as [|b x].
    + split; [discriminate | intros [post H]; discriminate].
    + rewrite andb_true_iff, Ascii.eqb_eq, IH. split.
      * intros [-> [post ->]]. exists post. reflexivity.
      * intros [post H]. injection H as -> ->. split; [reflexivity | eauto].
Qed.

Lemma contains_spec (sub x : str) :
  pystr.contains sub x = true <-> exists pre post, x = pre ++ sub ++ post.
Proof.
  induction x as [|c x IH]; simpl.
  - rewrite orb_false_r, startswith_spec. split.
    + intros [post H]. exists [], post. exact H.
    + intros (pre & post & H). destruct pre; [eauto|discriminate].
  - rewrite orb_true_iff, startswith_spec, IH. split.
    + intros [[post H]|(pre & post & H)].
      * exists [], post. exact H.
      * exists (c :: pre), post. rewrite H. reflexivity.
    + intros (pre & post & H). destruct pre as [|d pre].
      * left. exists post. exact H.
      * right. injection H as -> ->. eauto.
Qed.

Lemma contains_lower_occurs (key name : str) :
  pystr.contains key (pystr.lower name) = true <-> spec_estimator.occurs key name.
Proof.
  rewrite contains_spec. unfold spec_estimator.occurs, pystr.lower. split.
  - intros (pre & post & H).
    apply List.map_eq_app in H as (before & rest & -> & Hb & Hr).
    apply List.map_eq_app in Hr as (mid & after & -> & Hm & Ha).
    exists before, mid, after. split; [reflexivity | exact Hm].
  - intros (before & mid & after & -> & Hm).
    exists (map pystr.lower_char before), (map pystr.lower_char after).
    rewrite !List.map_app, Hm. reflexivity.
Qed.

Lemma scan_first_match (table : list (str * float)) (name : str) :
  spec_estimator.first_match table item_category_map.DEFAULT_KG_CO2E_PER_USD name
    (item_category_map.scan table (pystr.lower name)).
Proof.
  induction table as [|[key val] table IH]; simpl.
  - right. split; [constructor | reflexivity].
  - destruct (pystr.contains key (pystr.lower name)) eqn:E.
    + left. exists [], key, table. split; [reflexivity|].
      split; [apply contains_lower_occurs, E | constructor].
    + assert (N : ~ spec_estimator.occurs key name).
      { rewrite <- contains_lower_occurs, E. discriminate. }
      remember (item_category_map.scan table (pystr.lower name)) as v eqn:Ev.
      clear Ev. destruct IH as [(before & k & after & Et & Ho & Hb)|[Hall ->]].
      * left. exists ((key, val) :: before), k, after.
        split; [simpl; f_equal; exact Et|]. split; [exact Ho|].
        constructor; assumption.
      * right. split; [constructor; assumption | reflexivity].
Qed.

Lemma scan_in (table : list (str * float)) (n : str) :
  In (item_category_map.scan table n)
     (item_category_map.DEFAULT_KG_CO2E_PER_USD :: map snd table).
Proof.
  induction table as [|[key val] table IH]; simpl.
  - left. reflexivity.
  - destruct (pystr.contains key n); [right; left; reflexivity|].
    destruct IH as [IH|IH]; [left; exact IH | right; right; exact IH].
Qed.

(** Every factor of the table prints as a positive decimal. *)
Lemma factor_decimal (name : str) :
  exists f, decimal.of_float (item_category_map.lookup_kg_co2e_per_usd name)
            = decimal.Finite f /\ (0 < f)%Q.
Proof.
  unfold item_category_map.lookup_kg_co2e_per_usd.
  pose proof (scan_in item_category_map.FALLBACK_KG_CO2E_PER_USD (pystr.lower name)) as H.
  set (v := item_category_map.scan _ _) in *. clearbody v.
  simpl in H.
  repeat (destruct H as [<- | H]; [vm_compute; eexists; split; reflexivity|]).
  destruct H.
Qed.

Lemma of_Q_comp (p q : Q) : (p == q)%Q -> binary64.of_Q p = binary64.of_Q q.
Proof. intros E. unfold binary64.of_Q. rewrite (Qred_complete _ _ E). reflexivity. Qed.

(** Every factor of the table has two decimals and is at most 5. *)
Lemma factor_digits (name : str) (f : Q) :
  decimal.of_float (item_category_map.lookup_kg_co2e_per_usd name)
  = decimal.Finite f ->
  exists c : Z, Z.abs c <= 500 /\ (f == inject_Z c * 10 ^ (-2))%Q.
Proof.
  unfold item_category_map.lookup_kg_co2e_per_usd.
  pose proof (scan_in item_category_map.FALLBACK_KG_CO2E_PER_USD (pystr.lower name)) as H.
  set (v := item_category_map.scan _ _) in *. clearbody v.
  intros Hf. exists (Qfloor (f * 100)). revert Hf.
  simpl in H.
  repeat (destruct H as [<- | H];
          [vm_compute; intros [= <-]; split; [discriminate | reflexivity]|]).
  destruct H.
Qed.

(** [str] of a float has at most 17 significant digits. *)
Lemma of_float_digits (x : float) (p : Q) :
  decimal.of_float x = decimal.Finite p ->
  exists c e : Z, Z.abs c <= 10 ^ 17 /\ (p == inject_Z c * 10 ^ e)%Q.
Proof.
  destruct x as [s|s| |s m e]; cbn [decimal.of_float]; try discriminate.
  - destruct s; [discriminate|].
    intros [= <-]. exists 0, 0. split; [simpl; lia | reflexivity].
  - destruct (round_digits_significant 17 (binary64.shortest m e)) as (c & k & Hc & E);
      [lia|].
    intros [= <-]. destruct s.
    + exists (- c), k. split; [lia|].
      rewrite Qred_correct, E, inject_Z_opp. ring.
    + exists c, k. split; [exact Hc | exact E].
Qed.

(** The product of a factor and a price has at most 20 digits: the
    context does not round it. *)
Lemma factor_product_exact (name : str) (x : float) (f p : Q) :
  decimal.of_float (item_category_map.lookup_kg_co2e_per_usd name)
  = decimal.Finite f ->
  decimal.of_float x = decimal.Finite p ->
  (decimal.context (f * p) == f * p)%Q.
Proof.
  intros Hf Hp.
  destruct (factor_digits name f Hf) as (c1 & H1 & E1).
  destruct (of_float_digits x p Hp) as (c2 & e & H2 & E2).
  apply (context_exact _ (c1 * c2) (-2 + e)).
  - rewrite Z.abs_mul.
    apply Z.le_lt_trans with (500 * 10 ^ 17); [|reflexivity].
    apply Z.mul_le_mono_nonneg; lia.
  - rewrite E1, E2, inject_Z_mult, pow10_plus. ring.
Qed.

(** A price [-0.0] gives the footprint [-0.0]: the product of the
    decimals keeps the sign of the zero. *)
Lemma mock_estimate_negative_zero (name : str) (qty : option Z) :
  climatiq_client._mock_estimate name (Some (S754_zero true)) qty
  = Ok (S754_zero true).
Proof.
  unfold climatiq_client._mock_estimate.
  destruct (factor_decimal name) as (f & -> & Hf).
  cbn [decimal.of_float decimal.zero decimal.mul].
  rewrite (negative_false f) by lra. reflexivity.
Qed.

(** C5: the fallback estimator takes the factor of the first keyword of the
    table that occurs in the name without regard to case (the default 0.5 if
    none does), multiplies it by the price, 1.0 standing for a missing
    price, and always returns a footprint; "organic" wins over "grocery". *)
Theorem C5_fallback_estimate (name : str) (price : option float) (qty : option Z) :
  spec_estimator.first_match item_category_map.FALLBACK_KG_CO2E_PER_USD
    (lit 0.5) name (item_category_map.lookup_kg_co2e_per_usd name)
  /\ (exists kg, climatiq_client._mock_estimate name price qty = Ok kg)
  /\ climatiq_client._mock_estimate name None qty
     = climatiq_client._mock_estimate name (Some (lit 1.0)) qty
  /\ (forall f p,
        decimal.of_float (item_category_map.lookup_kg_co2e_per_usd name)
        = decimal.Finite f ->
        decimal.of_float (default (lit 1.0) price) = decimal.Finite p ->
        climatiq_client._mock_estimate name price qty
        = Ok (binary64.of_Q (f * p)))
  /\ (spec_estimator.occurs (pystr.txt "organic") name ->
        item_category_map.lookup_kg_co2e_per_usd name = lit 0.05).
Proof.
  split; [apply scan_first_match|].
  split; [|split; [reflexivity|split]].
  - unfold climatiq_client._mock_estimate.
    destruct (factor_decimal name) as (f & -> & Hf).
    destruct (decimal.of_float _) as [p|s| |]; simpl.
    + eauto.
    + destruct (Qeq_bool f 0) eqn:E; [|simpl; eauto].
      apply Qeq_bool_eq in E. rewrite E in Hf. discriminate.
    + eauto.
    + eauto.
  - intros f p Hf Hp. unfold climatiq_client._mock_estimate.
    pose proof (factor_product_exact name _ f p Hf Hp) as E.
    assert (R : decimal.rounded (xorb (decimal.negative f) (decimal.negative p))
                  (f * p) = decimal.Finite (decimal.context (f * p))).
    { apply rounded_finite. intros Hs. rewrite E.
      destruct (factor_decimal name) as (f' & Hf' & Hpos).
      rewrite Hf in Hf'. injection Hf' as <-.
      destruct (decimal.negative f) eqn:Nf;
        [apply negative_spec in Nf; lra|].
      apply negative_spec in Hs. nra. }
    rewrite Hf. destruct price as [x|]; cbv [default from_option id] in Hp; rewrite Hp;
      cbn [decimal.mul mbind result_bind]; rewrite R;
      cbn [decimal.to_float]; rewrite (of_Q_comp _ _ E); reflexivity.
  - intros H. apply contains_lower_occurs in H.
    unfold item_category_map.lookup_kg_co2e_per_usd. simpl.
    unfold pystr.txt in H. simpl in H. rewrite H. reflexivity.
Qed.

Lemma C5_fallback_estimate_witness :
  item_category_map.lookup_kg_co2e_per_usd (pystr.txt "Organic Grocery Bag")
  = lit 0.05
  /\ climatiq_client._mock_estimate (pystr.txt "Organic Grocery Bag")
       (Some (lit 2.00)) None
     = Ok (binary64.of_Q ((1 # 20) * 2)).
Proof.
  destruct (C5_fallback_estimate (pystr.txt "Organic Grocery Bag")
              (Some (lit 2.00)) None) as (_ & _ & _ & Hprod & Horg).
  split.
  - apply Horg. exists (pystr.txt ""), (pystr.txt "Organic"), (pystr.txt " Grocery Bag").
    split; reflexivity.
  - apply Hprod; vm_compute; reflexivity.
Defined.

(** ** The receipt text extractor *)

Lemma recognize_nonempty key post image items :
  ocr_google_vision.recognize key post image = Ok items -> items <> [].
Proof.
  unfold ocr_google_vision.recognize.
  destruct (post key image) as [resp|e]; [|discriminate]. simpl.
  destruct (ocr_google_vision.raise_for_status resp); [|discriminate]. simpl.
  destruct (ocr_google_vision.resp_json resp) as [data|]; [|discriminate]. simpl.
  destruct (ocr_google_vision.full_text data) as [text|]; [|discriminate]. simpl.
  destruct (negb (ocr_google_vision.truthy text)).
  - intros [= <-]. discriminate.
  - destruct (ocr_google_vision.json_splitlines text) as [lines|]; [|discriminate].
    simpl. destruct (fold_left _ lines []); intros [= <-]; discriminate.
Qed.

(** C6: extraction returns a list, never an empty one; it is the single
    item "Unknown Item" without price and quantity when recognition is
    disabled or has no credential, when the request fails, answers with an
    error status, has a body that is not JSON or not of the expected shape,
    and when no line of the recognized text yields an item. *)
Theorem C6_extraction_falls_back
    (settings : Settings) (post : ocr_google_vision.Vision)
    (image : ocr_google_vision.bytes) :
  let key := default [] (google_vision_api_key settings) in
  let items := ocr_google_vision.parse_receipt settings post image in
  items <> []
  /\ (use_real_ocr settings = false -> items = spec_extractor.sentinel)
  /\ (key_configured (google_vision_api_key settings) = false -> items = spec_extractor.sentinel)
  /\ (forall e, ocr_google_vision.recognize key post image = Raise e ->
        items = spec_extractor.sentinel)
  /\ (forall e, post key image = Raise e -> items = spec_extractor.sentinel)
  /\ (forall resp, post key image = Ok resp ->
        400 <= ocr_google_vision.status_code resp < 600 -> items = spec_extractor.sentinel)
  /\ (forall resp, post key image = Ok resp ->
        ocr_google_vision.body resp = None -> items = spec_extractor.sentinel)
  /\ (forall resp data e, post key image = Ok resp ->
        ocr_google_vision.body resp = Some data ->
        ocr_google_vision.full_text data = Raise e -> items = spec_extractor.sentinel)
  /\ (forall resp data text, post key image = Ok resp ->
        ocr_google_vision.body resp = Some data ->
        ocr_google_vision.full_text data = Ok (ocr_google_vision.JStr text) ->
        fold_left ocr_google_vision.parse_line (pystr.splitlines text) [] = [] ->
        items = spec_extractor.sentinel).
Proof.
  intros key items.
  assert (Hfail : forall e, ocr_google_vision.recognize key post image = Raise e ->
                            items = spec_extractor.sentinel).
  { intros e H. unfold items, ocr_google_vision.parse_receipt.
    destruct (_ || _); [reflexivity|]. fold key. rewrite H. reflexivity. }
  unfold items, ocr_google_vision.parse_receipt. fold key.
  split; [|split; [|split; [|split; [exact Hfail|]]]].
  - destruct (_ || _); [discriminate|].
    destruct (ocr_google_vision.recognize key post image) as [l|e] eqn:E; simpl.
    + exact (recognize_nonempty _ _ _ _ E).
    + discriminate.
  - intros ->. reflexivity.
  - intros ->. rewrite orb_true_r. reflexivity.
  - assert (Hcase : forall r, ocr_google_vision.recognize key post image = r ->
              (r = Ok spec_extractor.sentinel \/ exists e, r = Raise e) ->
              (if negb (use_real_ocr settings)
                  || negb (key_configured (google_vision_api_key settings))
               then ocr_google_vision._mock_parse image
               else try_except r (ocr_google_vision._mock_parse image)) = spec_extractor.sentinel).
    { intros r _ [->|[e ->]]; destruct (_ || _); reflexivity. }
    split; [|split; [|split; [|split]]].
    + intros e H. apply (Hcase _ eq_refl). right. exists e.
      unfold ocr_google_vision.recognize. rewrite H. reflexivity.
    + intros resp H Hs. apply (Hcase _ eq_refl). right. exists HTTPError.
      unfold ocr_google_vision.recognize, ocr_google_vision.raise_for_status.
      rewrite H. simpl.
      replace (400 <=? ocr_google_vision.status_code resp) with true by lia.
      replace (ocr_google_vision.status_code resp <? 600) with true by lia.
      reflexivity.
    + intros resp H Hb. apply (Hcase _ eq_refl). right.
      unfold ocr_google_vision.recognize, ocr_google_vision.resp_json.
      rewrite H. simpl. destruct (ocr_google_vision.raise_for_status resp); simpl; eauto.
      rewrite Hb. eauto.
    + intros resp data e H Hb Ht. apply (Hcase _ eq_refl). right.
      unfold ocr_google_vision.recognize, ocr_google_vision.resp_json.
      rewrite H. simpl. destruct (ocr_google_vision.raise_for_status resp); simpl; eauto.
      rewrite Hb. simpl. rewrite Ht. eauto.
    + intros resp data text H Hb Ht Hz. apply (Hcase _ eq_refl).
      unfold ocr_google_vision.recognize, ocr_google_vision.resp_json.
      rewrite H. simpl. destruct (ocr_google_vision.raise_for_status resp); simpl; eauto.
      rewrite Hb. simpl. rewrite Ht. simpl.
      destruct text as [|c text]; [left; reflexivity|].
      simpl. rewrite Hz. left. reflexivity.
Qed.

Lemma C6_extraction_falls_back_witness :
  ocr_google_vision.parse_receipt example.offline example.unreachable []
  = spec_extractor.sentinel
  /\ ocr_google_vision.parse_receipt example.online example.unreachable []
     = spec_extractor.sentinel
  /\ ocr_google_vision.parse_receipt example.online
       (example.recognizes (pystr.txt "THANK YOU")) []
     = spec_extractor.sentinel.
Proof.
  split; [|split].
  - destruct (C6_extraction_falls_back example.offline example.unreachable [])
      as (_ & H & _).
    apply H. reflexivity.
  - destruct (C6_extraction_falls_back example.online example.unreachable [])
      as (_ & _ & _ & _ & H & _).
    apply (H RequestException). reflexivity.
  - destruct (C6_extraction_falls_back example.online
                (example.recognizes (pystr.txt "THANK YOU")) [])
      as (_ & _ & _ & _ & _ & _ & _ & _ & H).
    eapply H; reflexivity.
Defined.

(** ** Signs through the conversions between floats and decimals *)

Lemma shr_1_nonneg (mrs : shr_record) :
  0 <= shr_m mrs -> 0 <= shr_m (shr_1 mrs).
Proof. destruct mrs as [[|[p|p|]|p] r s]; simpl; lia. Qed.

Lemma iter_shr_1_nonneg (n : positive) :
  forall mrs, 0 <= shr_m mrs -> 0 <= shr_m (SpecFloat.iter_pos shr_1 n mrs).
Proof.
  induction n as [n IH|n IH|]; intros mrs H; simpl.
  - apply IH, IH, shr_1_nonneg, H.
  - apply IH, IH, H.
  - apply shr_1_nonneg, H.
Qed.

Lemma shr_fexp_nonneg (m e : Z) (l : location) :
  0 <= m -> 0 <= shr_m (fst (shr_fexp prec emax m e l)).
Proof.
  intros H. unfold shr_fexp, shr.
  assert (H0 : 0 <= shr_m (shr_record_of_loc m l)) by (destruct l as [|[]]; exact H).
  destruct (_ - e); simpl; [exact H0 | | exact H0].
  apply iter_shr_1_nonneg, H0.
Qed.

Lemma binary_round_aux_signed (s : bool) (m e : Z) (l : location) :
  0 <= m -> spec_numbers.signed s (binary_round_aux prec emax s m e l).
Proof.
  intros H. unfold binary_round_aux.
  pose proof (shr_fexp_nonneg m e l H) as H1.
  destruct (shr_fexp prec emax m e l) as [mrs' e']. simpl in H1.
  set (m' := round_nearest_even (shr_m mrs') (loc_of_shr_record mrs')).
  assert (H2 : 0 <= m').
  { unfold m', round_nearest_even.
    destruct (loc_of_shr_record mrs') as [|[]]; try destruct (Z.even _); lia. }
  pose proof (shr_fexp_nonneg m' e' loc_Exact H2) as H3.
  destruct (shr_fexp prec emax m' e' loc_Exact) as [mrs'' e'']. simpl in H3.
  destruct (shr_m mrs'') as [|p|p]; simpl; [reflexivity| |lia].
  destruct (e'' <=? emax - prec); reflexivity.
Qed.

Lemma SFdiv_integers_signed (s : bool) (p d : positive) :
  spec_numbers.signed s
    (SFdiv prec emax (S754_finite s p 0) (S754_finite false d 0)).
Proof.
  unfold SFdiv, SFdiv_core_binary.
  set (e' := Z.min _ _). set (sh := 0 - 0 - e').
  set (m' := match sh with Z0 => Zpos p | Zpos _ => Z.shiftl (Zpos p) sh | Zneg _ => 0 end).
  assert (Hm : 0 <= m').
  { unfold m'. destruct sh; try lia. apply Z.shiftl_nonneg. lia. }
  pose proof (Z_div_mod m' (Zpos d) eq_refl) as Hd.
  destruct (Z.div_eucl m' (Zpos d)) as [q r].
  replace (xorb s false) with s by (destruct s; reflexivity).
  apply binary_round_aux_signed. nia.
Qed.

Lemma of_Q_nonneg (q : Q) :
  (0 <= q)%Q -> spec_numbers.signed false (binary64.of_Q q).
Proof.
  intros H. rewrite <- (Qred_correct q) in H. unfold binary64.of_Q.
  destruct (Qred q) as [[|n|n] d]; simpl.
  - reflexivity.
  - apply SFdiv_integers_signed.
  - exfalso. unfold Qle in H. simpl in H. lia.
Qed.

Lemma to_Q_pos (m : positive) (e : Z) : (0 < binary64.to_Q m e)%Q.
Proof.
  unfold binary64.to_Q, Qlt. destruct e as [|p|p]; simpl; try lia.
  all: try (pose proof (Z.pow_pos_nonneg 2 (Z.pos p)); lia).
Qed.

Lemma candidate_pos (x : float) (v : Q) (n : Z) (d : Q) :
  binary64.candidate x v n = Some d -> (0 < d)%Q.
Proof.
  unfold binary64.candidate.
  set (d1 := Qred _). set (d2 := Qred _).
  assert (P : forall c, binary64.round_trips x c = true -> (0 < c)%Q).
  { intros c Hc. unfold binary64.round_trips in Hc.
    apply andb_true_iff in Hc as [Hc _]. unfold Qlt. simpl. lia. }
  destruct (binary64.round_trips x d1) eqn:E1, (binary64.round_trips x d2) eqn:E2;
    intros [= <-]; try destruct (Qle_bool _ _); auto.
Qed.

Lemma shortest_from_pos (x : float) (v : Q) (fuel : nat) :
  (0 < v)%Q -> forall n, (0 < binary64.shortest_from x v n fuel)%Q.
Proof.
  intros Hv. induction fuel as [|fuel IH]; intros n; simpl.
  - rewrite Qred_correct. exact Hv.
  - destruct (binary64.candidate x v n) as [d|] eqn:E.
    + exact (candidate_pos _ _ _ _ E).
    + apply IH.
Qed.

Lemma shortest_pos (m : positive) (e : Z) : (0 < binary64.shortest m e)%Q.
Proof. apply shortest_from_pos, to_Q_pos. Qed.

Lemma of_float_signed (x : float) :
  spec_numbers.signed false x ->
  (exists p, decimal.of_float x = decimal.Finite p /\ (0 <= p)%Q)
  \/ decimal.of_float x = decimal.Infinity false.
Proof.
  destruct x as [s|s| |s m e]; simpl; try tauto.
  - intros ->. left. exists 0%Q. split; [reflexivity | apply Qle_refl].
  - intros ->. right. reflexivity.
  - intros ->. left. eexists. split; [reflexivity|].
    apply Qlt_le_weak, round_digits_pos; [lia | apply shortest_pos].
Qed.

Lemma of_float_nonneg (x : float) :
  spec_numbers.signed false x -> spec_numbers.nonneg (decimal.of_float x).
Proof.
  destruct x as [s|s| |s m e]; simpl; try tauto.
  - intros ->. apply Qle_refl.
  - intros ->. apply Qlt_le_weak, round_digits_pos; [lia | apply shortest_pos].
Qed.

(** ** What the extractor returns *)

Lemma lstrip_split (drop : ascii -> bool) (x : str) :
  exists pre, x = pre ++ pystr.lstrip drop x
              /\ forallb drop pre = true
              /\ firstn (length x - length (pystr.lstrip drop x)) x = pre.
Proof.
  induction x as [|c x IH]; simpl.
  - exists []. auto.
  - destruct (drop c) eqn:E.
    + destruct IH as (pre & Hx & Hd & Hf). exists (c :: pre).
      split; [simpl; f_equal; exact Hx|]. split; [simpl; rewrite E; exact Hd|].
      assert (L : (length (pystr.lstrip drop x) <= length x)%nat).
      { rewrite Hx at 2. rewrite length_app. lia. }
      replace (S (length x) - length (pystr.lstrip drop x))%nat
        with (S (length x - length (pystr.lstrip drop x))) by lia.
      simpl. f_equal. exact Hf.
    + exists []. split; [reflexivity|]. split; [reflexivity|].
      simpl. replace (length x - length x)%nat with O by lia. reflexivity.
Qed.

Lemma int_of_digits_nonneg (ds : str) :
  forallb pystr.isdigit ds = true -> 0 <= pystr.int_of_digits ds.
Proof.
  unfold pystr.int_of_digits.
  assert (G : forall acc, 0 <= acc -> forallb pystr.isdigit ds = true ->
              0 <= fold_left (fun acc c => 10 * acc + pystr.digit_value c) ds acc).
  { induction ds as [|c ds IH]; intros acc Ha H; simpl in *; [exact Ha|].
    apply andb_true_iff in H as [Hc Hds]. apply IH; [|exact Hds].
    unfold pystr.isdigit, pystr.in_range in Hc.
    apply andb_true_iff in Hc as [Hc _]. apply N.leb_le in Hc.
    unfold pystr.digit_value. lia. }
  apply G. lia.
Qed.

Lemma float_of_str_signed (x : str) (p : float) :
  ocr_google_vision.float_of_str x = Ok p -> spec_numbers.signed false p.
Proof.
  unfold ocr_google_vision.float_of_str.
  destruct (lstrip_split pystr.isdigit x) as (ip & _ & Hip & ->).
  destruct (pystr.lstrip pystr.isdigit x) as [|c fp]; [discriminate|].
  destruct (_ && _) eqn:E; [|discriminate]. intros [= <-].
  apply andb_true_iff in E as [E _]. apply andb_true_iff in E as [E _].
  apply andb_true_iff in E as [_ Hfp].
  apply of_Q_nonneg. unfold Qle. simpl.
  assert (0 <= pystr.int_of_digits (ip ++ fp)); [|lia].
  apply int_of_digits_nonneg. rewrite forallb_app, Hip, Hfp. reflexivity.
Qed.

Lemma parse_line_ok (items : list ocr_google_vision.ParsedItem) (raw_line : str) :
  Forall spec_upload.item_ok items ->
  Forall spec_upload.item_ok (ocr_google_vision.parse_line items raw_line).
Proof.
  intros H. unfold ocr_google_vision.parse_line.
  destruct (_ || _); [exact H|].
  destruct (ocr_google_vision.search [] _) as [[g_name g_price]|]; [|exact H].
  destruct (pystr.strip _ g_name) as [|c name]; [exact H|].
  apply Forall_app. split; [exact H|]. constructor; [|constructor].
  split; simpl; [discriminate|].
  destruct (ocr_google_vision.float_of_str g_price) as [p|e] eqn:E; [|exact I].
  exact (float_of_str_signed _ _ E).
Qed.

Lemma mock_parse_ok image :
  Forall spec_upload.item_ok (ocr_google_vision._mock_parse image).
Proof. constructor; [|constructor]. split; simpl; [discriminate | exact I]. Qed.

Lemma parse_receipt_ok settings post image :
  Forall spec_upload.item_ok (ocr_google_vision.parse_receipt settings post image).
Proof.
  unfold ocr_google_vision.parse_receipt.
  destruct (_ || _); [apply mock_parse_ok|].
  unfold ocr_google_vision.recognize.
  destruct (post _ image) as [resp|e]; [|apply mock_parse_ok]. simpl.
  destruct (ocr_google_vision.raise_for_status resp); [|apply mock_parse_ok]. simpl.
  destruct (ocr_google_vision.resp_json resp) as [data|]; [|apply mock_parse_ok]. simpl.
  destruct (ocr_google_vision.full_text data) as [text|]; [|apply mock_parse_ok]. simpl.
  destruct (negb (ocr_google_vision.truthy text)); [apply mock_parse_ok|].
  destruct (ocr_google_vision.json_splitlines text) as [lines|]; [|apply mock_parse_ok].
  simpl.
  assert (H : Forall spec_upload.item_ok (fold_left ocr_google_vision.parse_line lines [])).
  { assert (G : forall acc, Forall spec_upload.item_ok acc ->
                  Forall spec_upload.item_ok (fold_left ocr_google_vision.parse_line lines acc)).
    { induction lines as [|l lines IH]; intros acc Ha; simpl; [exact Ha|].
      apply IH, parse_line_ok, Ha. }
    apply G. constructor. }
  destruct (fold_left _ lines []); [apply mock_parse_ok | exact H].
Qed.

Lemma parse_receipt_nonempty settings post image :
  ocr_google_vision.parse_receipt settings post image <> [].
Proof.
  unfold ocr_google_vision.parse_receipt.
  destruct (_ || _); [discriminate|].
  destruct (ocr_google_vision.recognize _ post image) as [l|e] eqn:E; simpl.
  - exact (recognize_nonempty _ _ _ _ E).
  - discriminate.
Qed.

(** ** One turn of the loop *)

Lemma score_range (r : option float) :
  0 <= eco_scoring.score_from_co2e_per_dollar r <= 10.
Proof.
  destruct r as [r|]; [|simpl; lia].
  rewrite score_is_table.
  apply banding_range; [lia|]. apply descending_bound, bands_descending.
Qed.

Lemma positive_price_some (price : option float) (x : float) :
  receipts.positive_price price = Some x ->
  price = Some x
  /\ ((exists m e, x = S754_finite false m e) \/ x = S754_infinity false).
Proof.
  unfold receipts.positive_price. destruct price as [p|]; [|discriminate].
  destruct (_ && _) eqn:E; [|discriminate]. intros [= <-].
  split; [reflexivity|]. apply andb_true_iff in E as [_ E].
  destruct p as [[]|[]| |[] m e]; try discriminate; eauto.
Qed.

Lemma positive_price_none (price : option float) :
  receipts.positive_price price = None ->
  match decimal.of_float <$> price with
  | Some (decimal.Finite p) => (p <= 0)%Q
  | Some (decimal.Infinity negative) => negative = true
  | _ => True
  end.
Proof.
  unfold receipts.positive_price. destruct price as [p|]; [|intros _; exact I].
  destruct p as [[]|[]| |[] m e]; simpl; try discriminate; intros _;
    try exact I; try reflexivity; try apply Qle_refl.
  rewrite Qred_correct.
  pose proof (round_digits_pos 17 _ ltac:(lia) (shortest_pos m e)). lra.
Qed.

Lemma of_float_positive (x : float) :
  (exists m e, x = S754_finite false m e) \/ x = S754_infinity false ->
  (exists d, decimal.of_float x = decimal.Finite d /\ (0 < d)%Q)
  \/ decimal.of_float x = decimal.Infinity false.
Proof.
  intros [(m & e & ->)| ->]; simpl; [left|right; reflexivity].
  eexists. split; [reflexivity|].
  apply round_digits_pos; [lia | apply shortest_pos].
Qed.

Lemma score_item_spec (kg : float) (price : option float) (score : Z) :
  receipts.score_item kg price = Ok score ->
  0 <= score <= 10 /\ (receipts.positive_price price = None -> score = 5).
Proof.
  unfold receipts.score_item.
  destruct (receipts.positive_price price) as [x|].
  - destruct (binary64.div kg x) as [r|]; [|discriminate]. simpl.
    intros [= <-]. split; [exact (score_range (Some r)) | discriminate].
  - intros [= <-]. split; [lia | reflexivity].
Qed.

Lemma loop_body_stores settings tid st it st' :
  receipts.loop_body settings tid st it = Ok st' ->
  exists row score,
    loop_invariant.stores settings tid row it
    /\ receipts.item_score row = Some score
    /\ receipts.added st' = receipts.added st ++ [row]
    /\ receipts.accumulate (receipts.acc st) (ocr_google_vision.price it) score
       = Ok (receipts.acc st').
Proof.
  unfold receipts.loop_body. fold (loop_invariant.stored_name it).
  destruct (climatiq_client.estimate_item_footprint _ _ _ _) as [kg|] eqn:Ek;
    [|discriminate]. simpl.
  destruct (receipts.score_item kg _) as [score|] eqn:Es; [|discriminate]. simpl.
  destruct (receipts.accumulate _ _ score) as [acc'|] eqn:Ea; [|discriminate].
  simpl. intros [= <-]. simpl.
  eexists _, score. split; [|split; [|split]].
  - exists kg, score. split; [exact Ek|]. split; [exact Es | reflexivity].
  - reflexivity.
  - reflexivity.
  - exact Ea.
Qed.
(** ** The running sums *)

Lemma Qsum_app (xs ys : list Q) :
  (spec_upload.Qsum (xs ++ ys) == spec_upload.Qsum xs + spec_upload.Qsum ys)%Q.
Proof.
  induction xs as [|x xs IH]; simpl.
  - ring.
  - rewrite IH. ring.
Qed.

Lemma price_sum_snoc (rows : list receipts.ReceiptItem) (row : receipts.ReceiptItem) :
  (spec_upload.price_sum (rows ++ [row])
   == spec_upload.price_sum rows
      + match spec_upload.priced row with Some ps => fst ps | None => 0 end)%Q.
Proof.
  unfold spec_upload.price_sum. rewrite omap_app, List.map_app, Qsum_app.
  simpl. destruct (spec_upload.priced row); simpl; ring.
Qed.

Lemma weighted_sum_snoc (rows : list receipts.ReceiptItem) (row : receipts.ReceiptItem) :
  (spec_upload.weighted_sum (rows ++ [row])
   == spec_upload.weighted_sum rows
      + match spec_upload.priced row with
        | Some ps => fst ps * inject_Z (snd ps)
        | None => 0
        end)%Q.
Proof.
  unfold spec_upload.weighted_sum. rewrite omap_app, List.map_app, Qsum_app.
  simpl. destruct (spec_upload.priced row); simpl; ring.
Qed.

Lemma context_sums_snoc (rows : list receipts.ReceiptItem) (row : receipts.ReceiptItem) :
  loop_invariant.context_sums (rows ++ [row])
  = match spec_upload.priced row with
    | Some ps => loop_invariant.add_priced (loop_invariant.context_sums rows) ps
    | None => loop_invariant.context_sums rows
    end.
Proof.
  unfold loop_invariant.context_sums. rewrite omap_app, fold_left_app.
  simpl. destruct (spec_upload.priced row); reflexivity.
Qed.

Lemma Qnum_pos (q : Q) : (0 < q)%Q <-> (0 <? Qnum q) = true.
Proof. unfold Qlt. simpl. rewrite Z.ltb_lt. lia. Qed.

Lemma accumulate_inv rows acc price score acc' row :
  loop_invariant.sums_inv rows acc ->
  receipts.accumulate acc price score = Ok acc' ->
  0 <= score <= 10 ->
  receipts.item_price row = decimal.of_float <$> price ->
  receipts.item_score row = Some score ->
  loop_invariant.sums_inv (rows ++ [row]) acc'
  /\ (spec_upload.priced row = None -> loop_invariant.finite_price row ->
      receipts.positive_price price = None).
Proof.
  intros Hinv Hacc Hs Hprice Hscore. unfold receipts.accumulate in Hacc.
  destruct (receipts.positive_price price) as [x|] eqn:Ep.
  - apply positive_price_some in Ep as [-> Hx].
    apply of_float_positive in Hx as [(d & Hd & Hpos)|Hd];
      simpl in Hprice; rewrite Hd in Hprice, Hacc.
    + assert (Hp : spec_upload.priced row = Some (d, score)).
      { unfold spec_upload.priced. rewrite Hprice, Hscore.
        apply Qnum_pos in Hpos. rewrite Hpos. reflexivity. }
      split; [|rewrite Hp; discriminate].
      assert (Hm : decimal.mul (decimal.Finite d) (decimal.of_int score)
                   = Ok (decimal.Finite (decimal.context (d * inject_Z score)))).
      { unfold decimal.mul, decimal.of_int. rewrite <- rounded_plus.
        do 2 f_equal. unfold decimal.negative. simpl.
        apply Qnum_pos in Hpos. apply Z.ltb_lt in Hpos.
        replace (Qnum d <? 0) with false by lia.
        replace (score <? 0) with false by lia. reflexivity. }
      rewrite Hm in Hacc.
      destruct Hinv as [[-> Hfin]| ->];
        cbn [receipts.total_price receipts.weighted_score_sum decimal.add
             decimal.mul decimal.of_int mbind result_bind] in Hacc;
        injection Hacc as <-.
      * left. split.
        -- rewrite context_sums_snoc, Hp. reflexivity.
        -- apply Forall_app. split; [exact Hfin|]. constructor; [|constructor].
           unfold loop_invariant.finite_price. rewrite Hprice. discriminate.
      * right. reflexivity.
    + split; [|intros _ F; exfalso; apply F; exact Hprice].
      assert (Hw : decimal.mul (decimal.Infinity false) (decimal.of_int score)
                   = Raise InvalidOperation
                   \/ decimal.mul (decimal.Infinity false) (decimal.of_int score)
                      = Ok (decimal.Infinity false)).
      { unfold decimal.mul, decimal.of_int.
        destruct (Qeq_bool (inject_Z score) 0); [left; reflexivity|right].
        unfold decimal.negative. simpl.
        replace (score <? 0) with false by lia. reflexivity. }
      right.
      destruct Hinv as [[-> _]| ->];
        cbn [receipts.total_price receipts.weighted_score_sum decimal.add
             Bool.eqb mbind result_bind] in Hacc;
        destruct Hw as [Hw|Hw]; rewrite Hw in Hacc;
        cbn [decimal.add Bool.eqb mbind result_bind] in Hacc;
        try discriminate; injection Hacc as <-; reflexivity.
  - injection Hacc as <-.
    apply positive_price_none in Ep. rewrite <- Hprice in Ep.
    assert (Hp : spec_upload.priced row = None).
    { unfold spec_upload.priced.
      destruct (receipts.item_price row) as [[p| | |]|]; try reflexivity.
      destruct (receipts.item_score row); [|reflexivity].
      destruct (0 <? Qnum p) eqn:E; [|reflexivity].
      apply Qnum_pos in E. lra. }
    split; [|reflexivity].
    destruct Hinv as [[-> Hfin]| ->]; [left|right; reflexivity].
    rewrite context_sums_snoc, Hp. split; [reflexivity|].
    apply Forall_app. split; [exact Hfin|]. constructor; [|constructor].
    unfold loop_invariant.finite_price.
    destruct (receipts.item_price row) as [[p|[]| |]|]; try discriminate.
Qed.

(** *** The sums within the precision of the context *)

Lemma multiple_of_spec (e : Z) (p : Q) :
  spec_upload.multiple_of e p = true ->
  exists c : Z, (p == inject_Z c * 10 ^ e)%Q.
Proof.
  unfold spec_upload.multiple_of. intros H. apply Qeq_bool_eq in H.
  exists (Qfloor (p / 10 ^ e)). rewrite H. field.
  apply Qpower_not_0, ten_not_0.
Qed.

Lemma coefficient_lt (c : Z) (e n : Z) (q : Q) :
  0 <= n -> (inject_Z c * 10 ^ e == q)%Q -> (q < 10 ^ (n + e))%Q -> c < 10 ^ n.
Proof.
  intros Hn E H. rewrite <- E, pow10_plus, <- (pow10_Z n Hn) in H.
  apply Qmult_lt_r in H; [|apply pow10_pos]. rewrite <- Zlt_Qlt in H. exact H.
Qed.

Lemma coefficient_pos (c : Z) (e : Z) (q : Q) :
  (q == inject_Z c * 10 ^ e)%Q -> (0 < q)%Q -> 0 < c.
Proof.
  intros E H. rewrite E in H. pose proof (pow10_pos e) as P.
  destruct (Z.lt_ge_cases 0 c) as [L|L]; [exact L|]. exfalso.
  assert (A : (inject_Z c <= 0)%Q) by (change 0%Q with (inject_Z 0); rewrite <- Zle_Qle; lia).
  nra.
Qed.

(** Within the precision no sum and no product of the loop is rounded:
    the sums of the context are the sums. *)
Lemma fold_add_priced_exact (e : Z) (l : list (Q * Z)) :
  Forall (fun ps => (0 < fst ps)%Q /\ 0 <= snd ps <= 10
                    /\ spec_upload.multiple_of e (fst ps) = true) l ->
  (spec_upload.Qsum (map fst l) < 10 ^ (27 + e))%Q ->
  exists C CW : Z,
    0 <= C < 10 ^ 27 /\ 0 <= CW <= 10 * C
    /\ (fst (fold_left loop_invariant.add_priced l (0%Q, 0%Q))
        == inject_Z C * 10 ^ e)%Q
    /\ (snd (fold_left loop_invariant.add_priced l (0%Q, 0%Q))
        == inject_Z CW * 10 ^ e)%Q
    /\ (inject_Z C * 10 ^ e == spec_upload.Qsum (map fst l))%Q
    /\ (inject_Z CW * 10 ^ e
        == spec_upload.Qsum (map (fun ps => fst ps * inject_Z (snd ps)) l))%Q.
Proof.
  induction l as [|[p s] l IH] using rev_ind; intros Hall Hsum.
  - exists 0, 0. simpl. repeat split; try lia; ring.
  - apply Forall_app in Hall as [Hall Hx].
    inversion Hx as [|? ? (Hp & Hs & Hm) _]; subst. cbn [fst snd] in Hp, Hs, Hm.
    rewrite List.map_app, Qsum_app in Hsum. cbn [map fst spec_upload.Qsum fold_right] in Hsum.
    destruct IH as (C & CW & HC & HCW & ET & EW & ES & EWS); [exact Hall | lra|].
    destruct (multiple_of_spec e p Hm) as (c & Ec).
    pose proof (coefficient_pos c e p Ec Hp) as Hc.
    assert (Hlt : C + c < 10 ^ 27).
    { apply (coefficient_lt (C + c) e 27 (spec_upload.Qsum (map fst l) + (p + 0))%Q);
        [lia | | exact Hsum].
      rewrite inject_Z_plus, <- ES, Ec. ring. }
    exists (C + c), (CW + c * s).
    rewrite fold_left_app. cbn [fold_left]. unfold loop_invariant.add_priced at 1 3.
    cbn [fst snd]. rewrite !List.map_app, !Qsum_app.
    cbn [map fst snd spec_upload.Qsum fold_right].
    set (tw := fold_left loop_invariant.add_priced l (0%Q, 0%Q)) in *.
    assert (E1 : (fst tw + p == inject_Z (C + c) * 10 ^ e)%Q)
      by (rewrite ET, Ec, inject_Z_plus; ring).
    assert (E2 : (p * inject_Z s == inject_Z (c * s) * 10 ^ e)%Q)
      by (rewrite Ec, inject_Z_mult; ring).
    assert (X2 : (decimal.context (p * inject_Z s) == inject_Z (c * s) * 10 ^ e)%Q).
    { rewrite (context_exact _ (c * s) e); [exact E2 | | exact E2].
      change (10 ^ 28) with (10 * 10 ^ 27). nia. }
    assert (E3 : (snd tw + decimal.context (p * inject_Z s)
                  == inject_Z (CW + c * s) * 10 ^ e)%Q)
      by (rewrite EW, X2, inject_Z_plus; ring).
    split; [lia|]. split; [nia|].
    split; [rewrite (context_exact _ (C + c) e); [exact E1 | | exact E1];
            change (10 ^ 28) with (10 * 10 ^ 27); lia|].
    split; [rewrite (context_exact _ (CW + c * s) e); [exact E3 | | exact E3];
            change (10 ^ 28) with (10 * 10 ^ 27); nia|].
    split.
    + rewrite <- ES, Ec, inject_Z_plus. ring.
    + rewrite <- EWS, Ec, inject_Z_plus, inject_Z_mult. ring.
Qed.

(** ** The whole loop *)

Lemma for_each_inv settings tid items :
  forall st st',
    receipts.for_each (receipts.loop_body settings tid) items st = Ok st' ->
    Forall (loop_invariant.row_inv tid) (receipts.added st) ->
    loop_invariant.sums_inv (receipts.added st) (receipts.acc st) ->
    exists rows,
      receipts.added st' = receipts.added st ++ rows
      /\ Forall2 (loop_invariant.stores settings tid) rows items
      /\ Forall (loop_invariant.row_inv tid) (receipts.added st')
      /\ loop_invariant.sums_inv (receipts.added st') (receipts.acc st').
Proof.
  induction items as [|it items IH]; intros st st' Hrun Hrows Hsums; simpl in Hrun.
  - injection Hrun as <-. exists []. rewrite app_nil_r.
    split; [reflexivity|]. split; [constructor|]. split; assumption.
  - destruct (receipts.loop_body settings tid st it) as [st1|] eqn:Hbody;
      [|discriminate]. simpl in Hrun.
    destruct (loop_body_stores _ _ _ _ _ Hbody)
      as (row & score & Hst & Hsc & Hadd & Hacc).
    destruct Hst as (kg & score' & Hkg & Hscore & Hrow).
    assert (score' = score) as -> by (rewrite Hrow in Hsc; simpl in Hsc; congruence).
    destruct (score_item_spec _ _ _ Hscore) as [Hrange Hfive].
    assert (Hprice : receipts.item_price row
                     = decimal.of_float <$> ocr_google_vision.price it)
      by (rewrite Hrow; reflexivity).
    destruct (accumulate_inv _ _ _ _ _ row Hsums Hacc Hrange Hprice Hsc)
      as [Hsums1 Hpos].
    assert (Hrow1 : loop_invariant.row_inv tid row).
    { split; [rewrite Hrow; reflexivity|]. exists score.
      split; [exact Hsc|]. split; [exact Hrange|]. intros Hp Hf. auto. }
    rewrite <- Hadd in Hsums1.
    destruct (IH st1 st' Hrun) as (rows & Hrows' & Hall & Hinv & Hs).
    + rewrite Hadd. apply Forall_app. split; [exact Hrows|]. constructor; [exact Hrow1|constructor].
    + exact Hsums1.
    + exists (row :: rows).
      split; [rewrite Hrows', Hadd, <- app_assoc; reflexivity|].
      split; [|split; assumption].
      constructor; [|exact Hall]. exists kg, score. auto.
Qed.

(** ** Aggregation *)

Lemma priced_pos row p score :
  spec_upload.priced row = Some (p, score) -> (0 < p)%Q.
Proof.
  unfold spec_upload.priced.
  destruct (receipts.item_price row) as [[q| | |]|]; try discriminate.
  destruct (receipts.item_score row); [|discriminate].
  destruct (0 <? Qnum q) eqn:E; [|discriminate].
  intros [= <- _]. apply Qnum_pos, E.
Qed.

Lemma price_sum_sign (rows : list receipts.ReceiptItem) :
  match omap spec_upload.priced rows with
  | [] => (spec_upload.price_sum rows == 0)%Q
  | _ :: _ => (0 < spec_upload.price_sum rows)%Q
  end.
Proof.
  unfold spec_upload.price_sum.
  assert (G : Forall (fun ps => (0 < fst ps)%Q) (omap spec_upload.priced rows)).
  { apply Forall_forall. intros [p s] Hin.
    apply list_elem_of_omap in Hin as (row & _ & Hp). exact (priced_pos _ _ _ Hp). }
  induction G as [|ps l Hps _ IH]; simpl.
  - reflexivity.
  - destruct l; simpl in *; lra.
Qed.

Lemma queried_scores_added tid kept rows :
  Forall (loop_invariant.row_inv tid) rows ->
  receipts.queried_scores tid (receipts.delete_items tid kept ++ rows)
  = spec_upload.scores rows.
Proof.
  intros H. unfold receipts.queried_scores, receipts.delete_items, spec_upload.scores.
  rewrite List.filter_app. f_equal.
  replace (List.filter (receipts.of_transaction tid)
             (List.filter (fun it => negb (receipts.of_transaction tid it)) kept))
    with (@nil receipts.ReceiptItem).
  - simpl. induction H as [|row rows [Ht _] _ IH]; simpl; [reflexivity|].
    unfold receipts.of_transaction at 1. rewrite Ht, Z.eqb_refl. f_equal. exact IH.
  - induction kept as [|k kept IH]; simpl; [reflexivity|].
    destruct (receipts.of_transaction tid k) eqn:E; simpl; [exact IH|].
    rewrite E. exact IH.
Qed.

Lemma scores_all_five tid rows :
  Forall (loop_invariant.row_inv tid) rows ->
  Forall loop_invariant.finite_price rows ->
  omap spec_upload.priced rows = [] ->
  spec_upload.scores rows = map (fun _ => 5) rows.
Proof.
  intros Hinv. induction Hinv as [|row rows (_ & s & Hs & _ & H5) _ IH];
    intros Hfin Hp; simpl; [reflexivity|].
  inversion Hfin as [|? ? Hf Hfin']; subst. simpl in Hp.
  destruct (spec_upload.priced row) eqn:E; [discriminate|].
  unfold spec_upload.scores. simpl. rewrite Hs, (H5 eq_refl Hf). simpl. f_equal.
  apply IH; assumption.
Qed.

Lemma sum_fives {A} (l : list A) :
  fold_right Z.add 0 (map (fun _ => 5) l) = 5 * Z.of_nat (length l).
Proof. induction l as [|x l IH]; simpl length; simpl; [reflexivity|lia]. Qed.

Lemma to_int_integer (q : Q) (n : Z) :
  (q == inject_Z n)%Q -> Qnum q ÷ Zpos (Qden q) = n.
Proof.
  unfold Qeq. simpl. intros H. rewrite Z.mul_1_r in H. rewrite H.
  apply Z.quot_mul. discriminate.
Qed.

Lemma to_int_five : binary64.to_int (binary64.of_Q 5) = Ok 5.
Proof. vm_compute. reflexivity. Qed.

Lemma queried_scores_deleted tid kept :
  receipts.queried_scores tid (receipts.delete_items tid kept) = [].
Proof.
  unfold receipts.queried_scores, receipts.delete_items.
  induction kept as [|k kept IH]; simpl; [reflexivity|].
  destruct (receipts.of_transaction tid k) eqn:E; simpl; [exact IH|].
  rewrite E. exact IH.
Qed.

Lemma unpriced_mean_five autoflush tid kept rows :
  Forall (loop_invariant.row_inv tid) rows ->
  Forall loop_invariant.finite_price rows ->
  omap spec_upload.priced rows = [] ->
  let scores :=
    receipts.queried_scores tid
      (receipts.visible_rows autoflush (receipts.delete_items tid kept) rows) in
  match scores with
  | [] => Ok 5
  | _ :: _ =>
      binary64.to_int
        (binary64.of_Q
           (inject_Z (fold_right Z.add 0 scores)
            / inject_Z (Z.of_nat (length scores))))
  end = Ok 5.
Proof.
  intros Hrows Hfin Ep. cbv zeta. destruct autoflush; unfold receipts.visible_rows.
  - rewrite (queried_scores_added _ _ _ Hrows).
    rewrite (scores_all_five _ _ Hrows Hfin Ep).
    destruct rows as [|row rows]; [reflexivity|].
    cbn [map].
    change (5 :: map (fun _ => 5) rows)
      with (map (fun _ : receipts.ReceiptItem => 5) (row :: rows)).
    rewrite sum_fives, List.length_map.
    rewrite (of_Q_comp _ 5); [exact to_int_five|].
    rewrite inject_Z_mult. field. intros C.
    apply (inject_Z_injective (Z.of_nat (length (row :: rows))) 0) in C.
    simpl length in C. lia.
  - rewrite queried_scores_deleted. reflexivity.
Qed.

Lemma fold_add_priced_pos (l : list (Q * Z)) :
  Forall (fun ps => (0 < fst ps)%Q) l ->
  forall tw : Q * Q, (0 <= fst tw)%Q -> l <> [] ->
  (0 < fst (fold_left loop_invariant.add_priced l tw))%Q.
Proof.
  induction 1 as [|ps l Hps _ IH]; intros tw Htw Hne; [contradiction|].
  cbn [fold_left].
  assert (P : (0 < fst (loop_invariant.add_priced tw ps))%Q).
  { unfold loop_invariant.add_priced. cbn [fst].
    apply round_digits_pos; [unfold decimal.context_prec; lia | lra]. }
  destruct l as [|ps' l']; [exact P|].
  apply IH; [lra | discriminate].
Qed.

(** The total of the context is positive exactly when a row has a
    positive price. *)
Lemma context_sums_sign (rows : list receipts.ReceiptItem) :
  match omap spec_upload.priced rows with
  | [] => loop_invariant.context_sums rows = (0%Q, 0%Q)
  | _ :: _ => (0 < fst (loop_invariant.context_sums rows))%Q
  end.
Proof.
  unfold loop_invariant.context_sums.
  assert (G : Forall (fun ps => (0 < fst ps)%Q) (omap spec_upload.priced rows)).
  { apply Forall_forall. intros [p s] Hin.
    apply list_elem_of_omap in Hin as (row & _ & Hp). exact (priced_pos _ _ _ Hp). }
  destruct (omap spec_upload.priced rows) as [|ps l]; [reflexivity|].
  apply fold_add_priced_pos; [exact G | apply Qle_refl | discriminate].
Qed.

(** The aggregation is a function of the rows of the run. *)
Lemma aggregate_value autoflush tid kept rows :
  Forall (loop_invariant.row_inv tid) rows ->
  Forall loop_invariant.finite_price rows ->
  receipts.aggregate tid
    (receipts.visible_rows autoflush (receipts.delete_items tid kept) rows)
    {| receipts.total_price :=
         decimal.Finite (fst (loop_invariant.context_sums rows));
       receipts.weighted_score_sum :=
         decimal.Finite (snd (loop_invariant.context_sums rows)) |}
  = loop_invariant.score_of_rows rows.
Proof.
  intros Hrows Hfin. unfold receipts.aggregate, loop_invariant.score_of_rows.
  cbn [receipts.total_price receipts.weighted_score_sum decimal.gt_zero
       mbind result_bind].
  pose proof (context_sums_sign rows) as Hsign.
  destruct (0 <? Qnum (fst (loop_invariant.context_sums rows))) eqn:Epos;
    [reflexivity|].
  destruct (omap spec_upload.priced rows) as [|ps l] eqn:Ep.
  - exact (unpriced_mean_five autoflush tid kept rows Hrows Hfin Ep).
  - apply Qnum_pos in Hsign. congruence.
Qed.

(** The score of rows without a positive price is 5. *)
Lemma score_of_rows_unpriced (rows : list receipts.ReceiptItem) :
  omap spec_upload.priced rows = [] ->
  loop_invariant.score_of_rows rows = Ok 5.
Proof.
  intros Ep. pose proof (context_sums_sign rows) as H. rewrite Ep in H.
  unfold loop_invariant.score_of_rows. rewrite H. reflexivity.
Qed.

(** The mean of the context rounds as the mean: the quotient is rounded
    to 28 digits, which moves it by less than its distance to a tie when
    the total has less than 27 digits, and does not move a tie. *)
Lemma mean_rounding (C CW : Z) :
  0 < C < 10 ^ 27 -> 0 <= CW <= 10 * C ->
  decimal.round_half_even (decimal.context (inject_Z CW / inject_Z C))
  = decimal.round_half_even (inject_Z CW / inject_Z C).
Proof.
  intros HC HCW.
  set (x := (inject_Z CW / inject_Z C)%Q).
  set (n := decimal.round_half_even x).
  assert (Pc : (0 < inject_Z C)%Q)
    by (change 0%Q with (inject_Z 0); rewrite <- Zlt_Qlt; lia).
  assert (Ex : (x * inject_Z C == inject_Z CW)%Q) by (unfold x; field; lra).
  assert (Bx : (inject_Z 0 <= x /\ x <= inject_Z 10)%Q).
  { destruct HCW as [L U]. rewrite Zle_Qle in L, U.
    rewrite inject_Z_mult in U. change (inject_Z 0) with 0%Q in *.
    change (inject_Z 10) with 10%Q in *. rewrite <- Ex in L, U. split.
    - destruct (Qlt_le_dec x 0) as [A|A]; [exfalso; nra | exact A].
    - destruct (Qlt_le_dec 10 x) as [A|A]; [exfalso; nra | exact A]. }
  assert (Bn : 0 <= n <= 10).
  { destruct Bx as [L U]. apply round_half_even_mono in L, U.
    rewrite round_half_even_Z in L, U. unfold n. lia. }
  destruct (Z.eq_dec CW (10 * C)) as [Top|NTop].
  { apply round_half_even_comp.
    assert (E : (x == 10)%Q).
    { unfold x. rewrite Top, inject_Z_mult. change (inject_Z 10) with 10%Q.
      field. lra. }
    rewrite (context_comp x 10 E), E. reflexivity. }
  assert (Lt10 : (x < 10)%Q).
  { assert (A : (inject_Z CW < inject_Z (10 * C))%Q) by (rewrite <- Zlt_Qlt; lia).
    rewrite inject_Z_mult, <- Ex in A. change (inject_Z 10) with 10%Q in A.
    destruct (Qlt_le_dec x 10) as [B|B]; [exact B | exfalso; nra]. }
  destruct (round_half_even_nearest x) as [N _]. fold n in N.
  apply Qabs_Qle_condition in N.
  assert (D : ((x - inject_Z n) * (2 * inject_Z C)
               == inject_Z (2 * CW - 2 * n * C))%Q).
  { unfold Zminus. rewrite inject_Z_plus, inject_Z_opp, !inject_Z_mult, <- Ex.
    change (inject_Z 2) with 2%Q. ring. }
  assert (BD : - C <= 2 * CW - 2 * n * C <= C).
  { assert (A : (inject_Z (- C) <= inject_Z (2 * CW - 2 * n * C)
                 /\ inject_Z (2 * CW - 2 * n * C) <= inject_Z C)%Q).
    { rewrite <- D, inject_Z_opp. split; nra. }
    destruct A as [A1 A2]. rewrite <- Zle_Qle in A1, A2. lia. }
  destruct (Z.eq_dec (Z.abs (2 * CW - 2 * n * C)) C) as [Tie|NTie].
  - apply round_half_even_comp. unfold x at 2. fold x.
    assert (T : exists k : Z, Z.abs k <= 21 /\ (x == inject_Z k / 2)%Q).
    { assert (S : 2 * CW - 2 * n * C = C \/ 2 * CW - 2 * n * C = - C) by lia.
      destruct S as [S|S]; rewrite S in D.
      - exists (2 * n + 1). split; [lia|].
        rewrite inject_Z_plus, inject_Z_mult. change (inject_Z 2) with 2%Q.
        change (inject_Z 1) with 1%Q.
        assert (A : ((x - inject_Z n) * 2 == 1)%Q).
        { apply (Qmult_inj_r _ _ (inject_Z C)); [lra|].
          transitivity ((x - inject_Z n) * (2 * inject_Z C))%Q; [ring|].
          rewrite D. ring. }
        field_simplify_eq. lra.
      - exists (2 * n - 1). split; [lia|].
        unfold Zminus. rewrite inject_Z_plus, inject_Z_mult.
        change (inject_Z 2) with 2%Q. change (inject_Z (- (1))) with (- (1))%Q.
        rewrite inject_Z_opp in D.
        assert (A : ((x - inject_Z n) * 2 == - (1))%Q).
        { apply (Qmult_inj_r _ _ (inject_Z C)); [lra|].
          transitivity ((x - inject_Z n) * (2 * inject_Z C))%Q; [ring|].
          rewrite D. ring. }
        field_simplify_eq. lra. }
    destruct T as (k & Hk & Ek).
    apply (context_exact x (5 * k) (-1)); [lia|].
    rewrite Ek, inject_Z_mult. change (inject_Z 5) with 5%Q.
    change (10 ^ (-1))%Q with (/ 10)%Q. field.
  - apply round_half_even_near.
    assert (Err : (Qabs (decimal.context x - x) <= (1 # 2) * 10 ^ (1 - 28))%Q).
    { apply round_digits_error. change (10 ^ 1)%Q with 10%Q.
      apply Qabs_Qlt_condition. destruct Bx as [L _].
      change (inject_Z 0) with 0%Q in L. split; lra. }
    change ((1 # 2) * 10 ^ (1 - 28))%Q
      with (1 # 2000000000000000000000000000)%Q in Err.
    apply Qabs_Qle_condition in Err.
    assert (BD' : - (C - 1) <= 2 * CW - 2 * n * C <= C - 1) by lia.
    assert (A : (inject_Z (- (C - 1)) <= (x - inject_Z n) * (2 * inject_Z C)
                 /\ (x - inject_Z n) * (2 * inject_Z C) <= inject_Z (C - 1))%Q).
    { rewrite D, <- !Zle_Qle. exact BD'. }
    rewrite inject_Z_opp in A. unfold Zminus in A.
    rewrite inject_Z_plus in A. change (inject_Z (- (1))) with (- (1))%Q in A.
    assert (Cl : (inject_Z C < 1000000000000000000000000000)%Q).
    { change (1000000000000000000000000000)%Q with (inject_Z (10 ^ 27)).
      rewrite <- Zlt_Qlt. lia. }
    set (c := inject_Z C) in *. set (y := decimal.context x) in *.
    set (m := inject_Z n) in *. clearbody c y m.
    apply Qabs_Qlt_condition. split.
    + destruct (Qlt_le_dec (- (1 # 2)) (y - m)) as [G|G]; [exact G | exfalso].
      nra.
    + destruct (Qlt_le_dec (y - m) (1 # 2)) as [G|G]; [exact G | exfalso].
      nra.
Qed.

(** Within the precision of the context the score of the rows is the one
    of the specification. *)
Lemma score_of_rows_exact (e : Z) tid (rows : list receipts.ReceiptItem) :
  Forall (loop_invariant.row_inv tid) rows ->
  Forall loop_invariant.finite_price rows ->
  spec_upload.within_precision e rows = true ->
  exists raw,
    loop_invariant.score_of_rows rows = Ok raw
    /\ spec_upload.aggregated rows raw
    /\ 0 <= raw <= 10.
Proof.
  intros Hrows Hfin Hprec.
  unfold spec_upload.aggregated.
  pose proof (price_sum_sign rows) as Hsign.
  destruct (omap spec_upload.priced rows) as [|ps l] eqn:Ep.
  - exists 5. split; [apply score_of_rows_unpriced, Ep|]. split; [|lia].
    destruct rows as [|row rows]; [reflexivity|].
    rewrite (scores_all_five _ _ Hrows Hfin Ep), sum_fives, List.length_map.
    rewrite Z.div_mul; [reflexivity|]. simpl length. lia.
  - unfold spec_upload.within_precision in Hprec.
    apply andb_true_iff in Hprec as [Hmul Hsum].
    apply negb_true_iff, Qle_bool_false in Hsum.
    assert (Hall : Forall (fun ps => (0 < fst ps)%Q /\ 0 <= snd ps <= 10
                     /\ spec_upload.multiple_of e (fst ps) = true)
                     (omap spec_upload.priced rows)).
    { apply Forall_forall. intros [p s] Hin.
      rewrite forallb_forall in Hmul.
      split; [|split].
      - apply list_elem_of_omap in Hin as (row & _ & Hp). exact (priced_pos _ _ _ Hp).
      - apply list_elem_of_omap in Hin as (row & Hin & Hp).
        rewrite Forall_forall in Hrows.
        destruct (Hrows row Hin) as (_ & s' & Hs & Hr & _).
        unfold spec_upload.priced in Hp. rewrite Hs in Hp.
        destruct (receipts.item_price row) as [[q| | |]|]; try discriminate.
        destruct (0 <? Qnum q); [|discriminate]. injection Hp as _ <-. exact Hr.
      - apply (Hmul (p, s)). apply list_elem_of_In. exact Hin. }
    destruct (fold_add_priced_exact e _ Hall Hsum)
      as (C & CW & HC & HCW & ET & EW & ES & EWS).
    fold (loop_invariant.context_sums rows) in ET, EW.
    fold (spec_upload.price_sum rows) in ES.
    fold (spec_upload.weighted_sum rows) in EWS.
    pose proof (pow10_pos e) as Pe.
    assert (HC0 : 0 < C).
    { apply (coefficient_pos C e (spec_upload.price_sum rows));
        [symmetry; exact ES | exact Hsign]. }
    assert (Pc : (0 < inject_Z C)%Q)
      by (change 0%Q with (inject_Z 0); rewrite <- Zlt_Qlt; lia).
    set (T := fst (loop_invariant.context_sums rows)) in *.
    set (W := snd (loop_invariant.context_sums rows)) in *.
    assert (PT : (0 < T)%Q) by (rewrite ET; nra).
    assert (Emean : (W / T == inject_Z CW / inject_Z C)%Q).
    { rewrite ET, EW. field. split; lra. }
    assert (Espec : (spec_upload.weighted_sum rows / spec_upload.price_sum rows
                     == inject_Z CW / inject_Z C)%Q).
    { rewrite <- ES, <- EWS. field. split; lra. }
    exists (decimal.round_half_even (inject_Z CW / inject_Z C)).
    assert (Bn : 0 <= decimal.round_half_even (inject_Z CW / inject_Z C) <= 10).
    { assert (Bx : (inject_Z 0 <= inject_Z CW / inject_Z C
                    /\ inject_Z CW / inject_Z C <= inject_Z 10)%Q).
      { destruct HCW as [L U]. rewrite Zle_Qle in L, U.
        rewrite inject_Z_mult in U. split.
        - apply Qle_shift_div_l; [exact Pc|]. rewrite Qmult_0_l. exact L.
        - apply Qle_shift_div_r; [exact Pc | exact U]. }
      destruct Bx as [L U]. apply round_half_even_mono in L, U.
      rewrite round_half_even_Z in L, U. lia. }
    split; [|split; [|exact Bn]].
    + unfold loop_invariant.score_of_rows. fold T W.
      pose proof PT as PTq. apply Qnum_pos in PT. rewrite PT.
      unfold loop_invariant.weighted_mean.
      cbn [receipts.total_price receipts.weighted_score_sum decimal.div].
      destruct (Qeq_bool T 0) eqn:Ez;
        [apply Qeq_bool_eq in Ez; apply Qnum_pos in PT; lra|].
      assert (PW : (0 <= W)%Q).
      { rewrite EW. apply Qmult_le_0_compat; [|lra].
        change 0%Q with (inject_Z 0). rewrite <- Zle_Qle. lia. }
      rewrite (negative_false W PW), (negative_false T) by lra.
      cbn [xorb]. rewrite rounded_plus.
      cbn [mbind result_bind]. unfold decimal.quantize. cbv zeta.
      assert (PM : (0 <= decimal.context (W / T))%Q).
      { apply round_digits_nonneg; [discriminate|].
        apply Qle_shift_div_l; [exact PTq | lra]. }
      rewrite (negative_false _ PM), andb_false_r.
      assert (R : decimal.round_half_even (decimal.context (W / T) / 1)
                  = decimal.round_half_even (inject_Z CW / inject_Z C)).
      { rewrite <- (mean_rounding C CW) by lia.
        apply round_half_even_comp.
        rewrite (context_comp _ _ Emean). unfold Qdiv at 1.
        change (/ 1)%Q with 1%Q. apply Qmult_1_r. }
      rewrite R.
      replace (_ <? _) with true
        by (symmetry; apply Z.ltb_lt;
            change (10 ^ decimal.context_prec) with (10 ^ 28); lia).
      cbn [mbind result_bind decimal.to_int]. f_equal. apply to_int_integer.
      unfold decimal.nearest_multiple. rewrite Qred_correct, R. apply Qmult_1_r.
    + destruct (round_half_even_nearest (inject_Z CW / inject_Z C)) as [N1 N2].
      split; rewrite Espec; assumption.
Qed.

(** ** The route *)

Lemma filter_added tid kept rows :
  Forall (loop_invariant.row_inv tid) rows ->
  List.filter (receipts.of_transaction tid) (receipts.delete_items tid kept ++ rows)
  = rows.
Proof.
  intros H. unfold receipts.delete_items. rewrite List.filter_app.
  replace (List.filter (receipts.of_transaction tid)
             (List.filter (fun it => negb (receipts.of_transaction tid it)) kept))
    with (@nil receipts.ReceiptItem).
  - simpl. induction H as [|row rows [Ht _] _ IH]; simpl; [reflexivity|].
    unfold receipts.of_transaction at 1. rewrite Ht, Z.eqb_refl. f_equal. exact IH.
  - induction kept as [|k kept IH]; simpl; [reflexivity|].
    destruct (receipts.of_transaction tid k) eqn:E; simpl; [exact IH|].
    rewrite E. exact IH.
Qed.

Lemma filter_others tid kept rows :
  Forall (loop_invariant.row_inv tid) rows ->
  List.filter (fun it => negb (receipts.of_transaction tid it))
    (receipts.delete_items tid kept ++ rows)
  = List.filter (fun it => negb (receipts.of_transaction tid it)) kept.
Proof.
  intros H. unfold receipts.delete_items. rewrite List.filter_app.
  replace (List.filter (fun it => negb (receipts.of_transaction tid it)) rows)
    with (@nil receipts.ReceiptItem).
  - rewrite app_nil_r.
    induction kept as [|k kept IH]; simpl; [reflexivity|].
    destruct (receipts.of_transaction tid k) eqn:E; simpl; [exact IH|].
    rewrite E. simpl. f_equal. exact IH.
  - induction H as [|row rows [Ht _] _ IH]; simpl; [reflexivity|].
    unfold receipts.of_transaction at 1. rewrite Ht, Z.eqb_refl. exact IH.
Qed.

(** What a run of the route that returns is made of: the rows of the
    loop, their score, the cashback at the clamped score, and the state
    and the answer built from them. *)
Lemma process_items_spec settings autoflush db tid tx items db' r :
  receipts.process_items settings autoflush db tid tx items = Ok (db', r) ->
  exists rows raw cashback,
    Forall2 (loop_invariant.stores settings tid) rows items
    /\ Forall (loop_invariant.row_inv tid) rows
    /\ Forall loop_invariant.finite_price rows
    /\ receipts.for_each (receipts.loop_body settings tid) items
         {| receipts.added := []; receipts.acc := receipts.no_sums |}
       = Ok {| receipts.added := rows;
               receipts.acc :=
                 {| receipts.total_price :=
                      decimal.Finite (fst (loop_invariant.context_sums rows));
                    receipts.weighted_score_sum :=
                      decimal.Finite (snd (loop_invariant.context_sums rows)) |} |}
    /\ loop_invariant.score_of_rows rows = Ok raw
    /\ eco_scoring.compute_cashback (receipts.amount tx)
         (Some (spec_upload.clamp raw)) = Ok cashback
    /\ (db', r)
       = loop_invariant.committed db tid tx rows (spec_upload.clamp raw)
           cashback (length items).
Proof.
  unfold receipts.process_items.
  destruct (receipts.for_each _ items _) as [[rows acc]|] eqn:Hloop; [|discriminate].
  cbn [mbind result_bind receipts.added receipts.acc].
  destruct (for_each_inv _ _ _ _ _ Hloop) as (rows' & Hadd & Hst & Hinv & Hsums).
  { constructor. }
  { left. split; [reflexivity | constructor]. }
  cbn [receipts.added receipts.acc app] in Hadd, Hinv, Hsums. subst rows'.
  destruct Hsums as [[-> Hfin]| ->]; [|discriminate].
  rewrite (aggregate_value autoflush tid _ rows Hinv Hfin).
  destruct (loop_invariant.score_of_rows rows) as [raw|] eqn:Hraw; [|discriminate].
  cbn [mbind result_bind].
  fold (spec_upload.clamp raw).
  destruct (eco_scoring.compute_cashback _ _) as [cashback|] eqn:Hcash;
    [|discriminate].
  cbn [mbind result_bind]. intros [= <- <-].
  exists rows, raw, cashback. repeat split; assumption.
Qed.

(** The run of the route after a loop that ended with finite sums. *)
Lemma process_items_eq settings autoflush db tid tx items rows :
  receipts.for_each (receipts.loop_body settings tid) items
    {| receipts.added := []; receipts.acc := receipts.no_sums |}
  = Ok {| receipts.added := rows;
          receipts.acc :=
            {| receipts.total_price :=
                 decimal.Finite (fst (loop_invariant.context_sums rows));
               receipts.weighted_score_sum :=
                 decimal.Finite (snd (loop_invariant.context_sums rows)) |} |} ->
  Forall (loop_invariant.row_inv tid) rows ->
  Forall loop_invariant.finite_price rows ->
  receipts.process_items settings autoflush db tid tx items
  = (raw ← loop_invariant.score_of_rows rows;
     cashback ← eco_scoring.compute_cashback (receipts.amount tx)
                  (Some (spec_upload.clamp raw));
     Ok (loop_invariant.committed db tid tx rows (spec_upload.clamp raw)
           cashback (length items))).
Proof.
  intros Hloop Hinv Hfin. unfold receipts.process_items. rewrite Hloop.
  cbn [mbind result_bind receipts.added receipts.acc].
  rewrite (aggregate_value autoflush tid _ rows Hinv Hfin).
  reflexivity.
Qed.

Lemma mock_estimate_signed name price qty kg :
  match price with None => True | Some x => spec_numbers.signed false x end ->
  climatiq_client._mock_estimate name price qty = Ok kg ->
  spec_numbers.signed false kg.
Proof.
  intros Hprice. unfold climatiq_client._mock_estimate.
  destruct (factor_decimal name) as (f & -> & Hf).
  set (x := match price with None => lit 1.0 | Some p => p end).
  assert (Hx : spec_numbers.signed false x).
  { unfold x. destruct price; [exact Hprice|]. apply of_Q_nonneg. discriminate. }
  apply of_float_signed in Hx as [(p & -> & Hp)| ->].
  - cbn [decimal.mul mbind result_bind].
    rewrite (negative_false f), (negative_false p Hp) by lra.
    cbn [xorb]. rewrite rounded_plus. cbn [decimal.to_float].
    intros [= <-]. apply of_Q_nonneg.
    apply round_digits_nonneg; [unfold decimal.context_prec; lia | nra].
  - unfold decimal.mul.
    destruct (Qeq_bool f 0); [discriminate|].
    cbn [mbind result_bind decimal.to_float]. intros [= <-].
    unfold decimal.negative. apply Qnum_pos in Hf.
    replace (Qnum f <? 0) with false by lia. reflexivity.
Qed.

Lemma estimate_signed settings name price qty kg :
  match price with None => True | Some x => spec_numbers.signed false x end ->
  climatiq_client.estimate_item_footprint settings name price qty = Ok kg ->
  spec_numbers.signed false kg.
Proof.
  intros Hprice. unfold climatiq_client.estimate_item_footprint.
  destruct (_ || _); [apply mock_estimate_signed, Hprice|].
  destruct (climatiq_client._mock_estimate name price qty) as [v|] eqn:E.
  - intros [= <-]. exact (mock_estimate_signed _ _ _ _ Hprice E).
  - discriminate.
Qed.

Lemma stores_extracted settings tid row it :
  spec_upload.item_ok it ->
  loop_invariant.stores settings tid row it ->
  spec_upload.stored_from settings tid row it /\ spec_upload.well_scored row.
Proof.
  intros [Hname Hprice] (kg & score & Hkg & Hscore & ->).
  assert (Hn : loop_invariant.stored_name it = ocr_google_vision.name it).
  { unfold loop_invariant.stored_name.
    destruct (ocr_google_vision.name it); [contradiction|reflexivity]. }
  rewrite Hn in *. split.
  - exists kg, score. auto.
  - split; simpl.
    + exists score. split; [reflexivity|]. apply (score_item_spec _ _ _ Hscore).
    + apply of_float_nonneg. exact (estimate_signed _ _ _ _ _ Hprice Hkg).
Qed.

Lemma upload_returned settings post autoflush db uid tid content db' r :
  receipts.upload_receipt settings post autoflush db uid tid content
  = (db', receipts.Returned r) ->
  exists tx,
    receipts.query_transaction db uid tid = Some tx
    /\ receipts.process_items settings autoflush db tid tx
         (ocr_google_vision.parse_receipt settings post content)
       = Ok (db', r).
Proof.
  unfold receipts.upload_receipt, receipts.upload_items.
  destruct (receipts.query_transaction db uid tid) as [tx|]; [|discriminate].
  destruct (ocr_google_vision.parse_receipt settings post content) as [|it items];
    [discriminate|].
  destruct (receipts.process_items _ _ _ _ _ _) as [[d r']|] eqn:E; [|discriminate].
  intros [= <- <-]. exists tx. split; [reflexivity | exact E].
Qed.

Lemma upload_not_returned settings post autoflush db uid tid content db' o :
  receipts.upload_receipt settings post autoflush db uid tid content = (db', o) ->
  (forall r, o <> receipts.Returned r) -> db' = db.
Proof.
  unfold receipts.upload_receipt, receipts.upload_items.
  destruct (receipts.query_transaction db uid tid) as [tx|];
    [|intros [= <- _]; reflexivity].
  destruct (ocr_google_vision.parse_receipt settings post content) as [|it items];
    [intros [= <- _]; reflexivity|].
  destruct (receipts.process_items _ _ _ _ _ _) as [[d r']|].
  - intros [= <- <-] H. exfalso. exact (H r' eq_refl).
  - intros [= <- _]. reflexivity.
Qed.

Lemma Forall2_extracted settings tid rows items :
  Forall spec_upload.item_ok items ->
  Forall2 (loop_invariant.stores settings tid) rows items ->
  Forall2 (spec_upload.stored_from settings tid) rows items
  /\ Forall spec_upload.well_scored rows.
Proof.
  intros Hok H. induction H as [|row it rows items Hst _ IH].
  - split; constructor.
  - inversion Hok as [|? ? Hit Hok']; subst.
    destruct (stores_extracted _ _ _ _ Hit Hst) as [H1 H2].
    destruct (IH Hok') as [H3 H4]. split; constructor; assumption.
Qed.

Lemma stored_from_functional settings tid rows rows' items :
  Forall2 (spec_upload.stored_from settings tid) rows items ->
  Forall2 (spec_upload.stored_from settings tid) rows' items ->
  rows = rows'.
Proof.
  intros H. revert rows'. induction H as [|row it rows items Hst _ IH];
    intros rows' H'; inversion H' as [|row' ? rows'' ? Hst' Hrest]; subst.
  - reflexivity.
  - f_equal; [|apply IH, Hrest].
    destruct Hst as (kg & s & Hkg & Hs & ->), Hst' as (kg' & s' & Hkg' & Hs' & ->).
    rewrite Hkg in Hkg'. injection Hkg' as <-.
    rewrite Hs in Hs'. injection Hs' as <-. reflexivity.
Qed.

(** The rows stored for the transaction after an upload that returned. *)
Lemma upload_stored settings post autoflush db uid tid content db' r :
  receipts.upload_receipt settings post autoflush db uid tid content
  = (db', receipts.Returned r) ->
  let stored := List.filter (receipts.of_transaction tid) (receipts.receipt_items db') in
  Forall2 (spec_upload.stored_from settings tid) stored
    (ocr_google_vision.parse_receipt settings post content)
  /\ Forall spec_upload.well_scored stored
  /\ List.filter (fun it => negb (receipts.of_transaction tid it))
       (receipts.receipt_items db')
     = List.filter (fun it => negb (receipts.of_transaction tid it))
         (receipts.receipt_items db)
  /\ exists tx raw cashback,
       receipts.query_transaction db uid tid = Some tx
       /\ Forall (loop_invariant.row_inv tid) stored
       /\ Forall loop_invariant.finite_price stored
       /\ loop_invariant.score_of_rows stored = Ok raw
       /\ eco_scoring.compute_cashback (receipts.amount tx)
            (Some (spec_upload.clamp raw)) = Ok cashback
       /\ (db', r)
          = loop_invariant.committed db tid tx stored (spec_upload.clamp raw)
              cashback
              (length (ocr_google_vision.parse_receipt settings post content)).
Proof.
  intros H stored. apply upload_returned in H as (tx & Hq & Hp).
  apply process_items_spec in Hp
    as (rows & raw & cashback & Hst & Hinv & Hfin & _ & Hraw & Hcash & Hout).
  assert (Es : stored = rows).
  { unfold stored. injection Hout as -> _. cbn [receipts.receipt_items].
    apply filter_added, Hinv. }
  destruct (Forall2_extracted _ _ _ _ (parse_receipt_ok settings post content) Hst)
    as [H1 H2].
  rewrite Es. split; [exact H1|]. split; [exact H2|].
  split.
  - injection Hout as -> _. cbn [receipts.receipt_items].
    apply filter_others, Hinv.
  - exists tx, raw, cashback. auto 10.
Qed.

(** ** Properties of the route *)

(** C2, as the code has it: when the positive prices of the stored rows
    are whole multiples of a power of ten [10^e] and sum to less than
    [10^(27+e)] (whole cents below 10^25, say), the transaction score of
    an upload is, over the rows it stores: with a positive price among
    them, a nearest integer (the even one at a tie) of the price-weighted
    mean of the scores of the rows with a positive price; else, with rows,
    the floor of the mean of all scores; else 5; and the value is clamped
    to [0,10].  Prices 10 and 30 with scores 8 and 4 give 5. *)
Theorem C2_transaction_score :
  (forall settings autoflush db tid tx items db' r e,
      receipts.process_items settings autoflush db tid tx items = Ok (db', r) ->
      spec_upload.within_precision e
        (List.filter (receipts.of_transaction tid) (receipts.receipt_items db'))
      = true ->
      exists raw,
        spec_upload.aggregated
          (List.filter (receipts.of_transaction tid) (receipts.receipt_items db'))
          raw
        /\ receipts.r_eco_score r = Z.max 0 (Z.min 10 raw)
        /\ exists tx', receipts.transactions db' !! tid = Some tx'
                       /\ receipts.eco_score tx' = Some (receipts.r_eco_score r))
  /\ (forall tid visible,
        (acc1 ← receipts.accumulate receipts.no_sums (Some (lit 10)) 8;
         acc2 ← receipts.accumulate acc1 (Some (lit 30)) 4;
         receipts.aggregate tid visible acc2) = Ok 5).
Proof.
  split.
  - intros settings autoflush db tid tx items db' r e H Hprec.
    apply process_items_spec in H
      as (rows & raw & cashback & _ & Hinv & Hfin & _ & Hraw & _ & [= -> ->]).
    cbn [receipts.receipt_items receipts.transactions receipts.r_eco_score] in *.
    rewrite (filter_added _ _ _ Hinv) in *.
    destruct (score_of_rows_exact e tid rows Hinv Hfin Hprec) as (raw' & Hraw' & Hagg & _).
    assert (raw' = raw) as -> by congruence.
    exists raw. split; [exact Hagg|]. split; [reflexivity|].
    eexists. rewrite lookup_insert_eq. split; reflexivity.
  - intros tid visible. vm_compute. reflexivity.
Qed.

Lemma C2_transaction_score_witness :
  exists raw,
    spec_upload.aggregated
      (List.filter (receipts.of_transaction 1)
         (receipts.receipt_items (fst example.processed)))
      raw
    /\ receipts.r_eco_score (snd example.processed) = Z.max 0 (Z.min 10 raw)
    /\ exists tx', receipts.transactions (fst example.processed) !! 1 = Some tx'
         /\ receipts.eco_score tx'
            = Some (receipts.r_eco_score (snd example.processed)).
Proof.
  apply (proj1 C2_transaction_score example.online true example.db0 1 example.tx0
           (ocr_google_vision.parse_receipt example.online
              (example.recognizes example.receipt_text) [])
           (fst example.processed) (snd example.processed) (-2)).
  - vm_compute. reflexivity.
  - vm_compute. reflexivity.
Defined.

(** C2 fails as stated: the sums and the mean are rounded to the 28
    digits of the context.  With the prices 3.5e29, 6.5e29 and 1.0 and the
    scores 10, 0 and 0 the total of the code stays 1E+30, its mean is the
    tie 3.5 and the score 4, where the weighted mean is below 3.5 and
    rounds to 3. *)
Lemma C2_precision_counterexample :
  exists db' r,
    receipts.process_items example.offline true example.db0 1 example.tx0
      example.large_items = Ok (db', r)
    /\ receipts.r_eco_score r = 4
    /\ omap receipts.item_score
         (List.filter (receipts.of_transaction 1) (receipts.receipt_items db'))
       = [10; 0; 0]
    /\ forall raw,
         spec_upload.aggregated
           (List.filter (receipts.of_transaction 1) (receipts.receipt_items db'))
           raw ->
         Z.max 0 (Z.min 10 raw) = 3.
Proof.
  destruct (receipts.process_items example.offline true example.db0 1 example.tx0
              example.large_items) as [[db' r]|] eqn:E;
    vm_compute in E; [|discriminate E].
  injection E as <- <-. eexists _, _. split; [reflexivity|].
  split; [reflexivity|]. split; [vm_compute; reflexivity|].
  intros raw H. unfold spec_upload.aggregated in H.
  set (rows := List.filter _ _) in H.
  assert (Ep : omap spec_upload.priced rows <> []) by (vm_compute; discriminate).
  destruct (omap spec_upload.priced rows) as [|ps l]; [contradiction|].
  assert (Ex : (spec_upload.weighted_sum rows / spec_upload.price_sum rows
                == 3500000000000000000000000000000
                   # 1000000000000000000000000000001)%Q)
    by (vm_compute; reflexivity).
  destruct H as [H _]. rewrite Ex in H. apply Qabs_Qle_condition in H as [L U].
  unfold Qle, Qminus, Qplus, Qopp, inject_Z in L, U. cbn in L, U. lia.
Qed.

(** Scores 9, 3 and 6 without prices: the floor of 18/3, which is 6. *)
Lemma aggregate_unpriced_example (row : Z -> receipts.ReceiptItem) :
  (forall score, receipts.transaction_id (row score) = 1
                 /\ receipts.item_score (row score) = Some score) ->
  receipts.aggregate 1 [row 9; row 3; row 6] receipts.no_sums = Ok 6.
Proof.
  intros H. unfold receipts.aggregate, receipts.queried_scores. simpl.
  unfold receipts.of_transaction.
  rewrite !(proj1 (H _)). simpl. rewrite !(proj2 (H _)). vm_compute. reflexivity.
Qed.

(** C7: the upload fails with 404 when no transaction of that id belongs to
    the user, and with 400 when extraction yields no item; whenever it
    fails with an HTTP error the persisted state is the one before. *)
Theorem C7_failures_leave_state :
  (forall settings post autoflush db uid tid content,
      (forall tx, receipts.transactions db !! tid = Some tx ->
                  receipts.user_id tx <> uid) ->
      receipts.upload_receipt settings post autoflush db uid tid content
      = (db, receipts.HTTPException 404 "Transaction not found for user"))
  /\ (forall settings autoflush db tid tx,
        receipts.upload_items settings autoflush db tid tx []
        = (db, receipts.HTTPException 400 "Could not parse receipt"))
  /\ (forall settings post autoflush db uid tid content db' status detail,
        receipts.upload_receipt settings post autoflush db uid tid content
        = (db', receipts.HTTPException status detail) ->
        db' = db).
Proof.
  split; [|split].
  - intros settings post autoflush db uid tid content H.
    unfold receipts.upload_receipt, receipts.query_transaction.
    destruct (receipts.transactions db !! tid) as [tx|] eqn:E; [|reflexivity].
    specialize (H tx eq_refl).
    destruct (receipts.user_id tx =? uid) eqn:U; [lia|reflexivity].
  - reflexivity.
  - intros settings post autoflush db uid tid content db' status detail H.
    apply (upload_not_returned _ _ _ _ _ _ _ _ _ H). discriminate.
Qed.

Lemma C7_failures_leave_state_witness :
  receipts.upload_receipt example.offline example.unreachable true example.db0 8 1 []
  = (example.db0, receipts.HTTPException 404 "Transaction not found for user").
Proof.
  apply (proj1 C7_failures_leave_state).
  intros tx H. vm_compute in H. injection H as <-. vm_compute. discriminate.
Defined.

(** C8: after an upload that returns, the rows stored for the transaction
    are the rows of the items extracted in that upload, one per item and in
    their order, and the rows of the other transactions are the ones
    before; the rows stored before play no part, so after two uploads the
    stored rows are those of the second alone. *)
Theorem C8_items_replaced :
  (forall settings post autoflush db uid tid content db' r,
      receipts.upload_receipt settings post autoflush db uid tid content
      = (db', receipts.Returned r) ->
      Forall2 (spec_upload.stored_from settings tid)
        (List.filter (receipts.of_transaction tid) (receipts.receipt_items db'))
        (ocr_google_vision.parse_receipt settings post content)
      /\ List.filter (fun it => negb (receipts.of_transaction tid it))
           (receipts.receipt_items db')
         = List.filter (fun it => negb (receipts.of_transaction tid it))
             (receipts.receipt_items db))
  /\ (forall settings1 post1 autoflush1 content1
             settings2 post2 autoflush2 content2
             db uid tid db1 r1 db2 r2,
        receipts.upload_receipt settings1 post1 autoflush1 db uid tid content1
        = (db1, receipts.Returned r1) ->
        receipts.upload_receipt settings2 post2 autoflush2 db1 uid tid content2
        = (db2, receipts.Returned r2) ->
        Forall2 (spec_upload.stored_from settings2 tid)
          (List.filter (receipts.of_transaction tid) (receipts.receipt_items db2))
          (ocr_google_vision.parse_receipt settings2 post2 content2)
        /\ forall db2' r2',
             receipts.upload_receipt settings2 post2 autoflush2 db uid tid content2
             = (db2', receipts.Returned r2') ->
             List.filter (receipts.of_transaction tid) (receipts.receipt_items db2)
             = List.filter (receipts.of_transaction tid) (receipts.receipt_items db2')).
Proof.
  split.
  - intros settings post autoflush db uid tid content db' r H.
    destruct (upload_stored _ _ _ _ _ _ _ _ _ H) as (H1 & _ & H2 & _). auto.
  - intros settings1 post1 autoflush1 content1 settings2 post2 autoflush2
           content2 db uid tid db1 r1 db2 r2 _ H2.
    destruct (upload_stored _ _ _ _ _ _ _ _ _ H2) as (H3 & _).
    split; [exact H3|]. intros db2' r2' H4.
    destruct (upload_stored _ _ _ _ _ _ _ _ _ H4) as (H5 & _).
    exact (stored_from_functional _ _ _ _ _ H3 H5).
Qed.

Lemma C8_items_replaced_witness :
  Forall2 (spec_upload.stored_from example.online 1)
    (List.filter (receipts.of_transaction 1)
       (receipts.receipt_items (fst example.processed)))
    (ocr_google_vision.parse_receipt example.online
       (example.recognizes example.receipt_text) [])
  /\ List.filter (fun it => negb (receipts.of_transaction 1 it))
       (receipts.receipt_items (fst example.processed))
     = List.filter (fun it => negb (receipts.of_transaction 1 it))
         (receipts.receipt_items example.db0).
Proof.
  apply (proj1 C8_items_replaced example.online
           (example.recognizes example.receipt_text) true example.db0 7 1 []
           (fst example.processed) (snd example.processed)).
  vm_compute. reflexivity.
Defined.

(** C9: an upload that returns has stored, for its transaction, only rows
    with a score from 0 to 10 and a footprint that is present and not
    negative, and a transaction score from 0 to 10; an upload that does not
    return stores nothing. *)
Theorem C9_stored_scores_in_range settings post autoflush db uid tid content db' o :
  receipts.upload_receipt settings post autoflush db uid tid content = (db', o) ->
  match o with
  | receipts.Returned r =>
      Forall spec_upload.well_scored
        (List.filter (receipts.of_transaction tid) (receipts.receipt_items db'))
      /\ 0 <= receipts.r_eco_score r <= 10
      /\ (exists tx', receipts.transactions db' !! tid = Some tx'
                      /\ receipts.eco_score tx' = Some (receipts.r_eco_score r))
      /\ (forall other, other <> tid ->
            receipts.transactions db' !! other = receipts.transactions db !! other)
  | _ => db' = db
  end.
Proof.
  intros H. destruct o as [r|status detail|e];
    try (apply (upload_not_returned _ _ _ _ _ _ _ _ _ H); discriminate).
  destruct (upload_stored _ _ _ _ _ _ _ _ _ H)
    as (_ & Hw & _ & tx & raw & cashback & _ & _ & _ & _ & _ & Hout).
  split; [exact Hw|]. injection Hout as -> ->.
  cbn [receipts.r_eco_score receipts.transactions].
  split; [unfold spec_upload.clamp; lia|].
  split.
  - eexists. rewrite lookup_insert_eq. split; reflexivity.
  - intros other Hne. apply lookup_insert_ne. congruence.
Qed.

Lemma C9_stored_scores_in_range_witness :
  match snd example.uploaded with
  | receipts.Returned r =>
      Forall spec_upload.well_scored
        (List.filter (receipts.of_transaction 1)
           (receipts.receipt_items (fst example.uploaded)))
      /\ 0 <= receipts.r_eco_score r <= 10
      /\ (exists tx', receipts.transactions (fst example.uploaded) !! 1 = Some tx'
                      /\ receipts.eco_score tx' = Some (receipts.r_eco_score r))
      /\ (forall other, other <> 1 ->
            receipts.transactions (fst example.uploaded) !! other
            = receipts.transactions example.db0 !! other)
  | _ => fst example.uploaded = example.db0
  end.
Proof.
  apply (C9_stored_scores_in_range example.online
           (example.recognizes example.receipt_text) true example.db0 7 1 []).
  vm_compute. reflexivity.
Defined.

(** The 400 of the route cannot happen: the extractor never returns an
    empty list. *)
Lemma upload_never_400 settings post autoflush db uid tid content db' detail :
  receipts.upload_receipt settings post autoflush db uid tid content
  <> (db', receipts.HTTPException 400 detail).
Proof.
  unfold receipts.upload_receipt, receipts.upload_items.
  destruct (receipts.query_transaction db uid tid) as [tx|]; [|discriminate].
  pose proof (parse_receipt_nonempty settings post content) as Hne.
  destruct (ocr_google_vision.parse_receipt settings post content) as [|it items];
    [contradiction|].
  destruct (receipts.process_items _ _ _ _ _ _) as [[d r]|]; discriminate.
Qed.

(** C10: the 400 of the route cannot happen, but the route does not always
    return once the transaction is found: when the recognized text has a
    line whose price overflows to infinity, it ends in an unhandled
    decimal.InvalidOperation and nothing is stored. *)
Theorem C10_overflowing_price_not_handled :
  (forall settings post autoflush db uid tid content db' detail,
      receipts.upload_receipt settings post autoflush db uid tid content
      <> (db', receipts.HTTPException 400 detail))
  /\ receipts.query_transaction example.db0 7 1 = Some example.tx0
  /\ (forall autoflush,
       receipts.upload_receipt example.online
         (example.recognizes example.overflowing_text) autoflush example.db0 7 1 []
       = (example.db0, receipts.Unhandled InvalidOperation)).
Proof.
  split; [exact upload_never_400|]. split; [vm_compute; reflexivity|].
  intros autoflush. vm_compute. reflexivity.
Qed.

(** ** The merchant heuristics *)

Lemma mixed_merchants_elem (key : str) :
  key ∈ merchant_scoring.MIXED_MERCHANTS <->
  key ∈ [pystr.txt "walmart"; pystr.txt "target"; pystr.txt "amazon";
         pystr.txt "costco"].
Proof.
  unfold merchant_scoring.MIXED_MERCHANTS.
  rewrite !elem_of_union, !elem_of_singleton, !elem_of_cons, elem_of_nil.
  tauto.
Qed.

Lemma occurs_nonempty (key name : str) :
  spec_estimator.occurs key name -> key <> [] -> name <> [].
Proof.
  intros (before & mid & after & -> & Hm) Hk E.
  apply app_eq_nil in E as [_ E]. apply app_eq_nil in E as [E _].
  subst mid. exact (Hk (eq_sym Hm)).
Qed.

(** X1: a merchant is mixed exactly when its name holds, letter case apart,
    one of the four names of the set; no name and the empty name are not
    mixed. *)
Theorem X1_is_mixed_merchant_iff_occurs (merchant_name : option str) :
  merchant_scoring.is_mixed_merchant merchant_name = true <->
  exists name key,
    merchant_name = Some name
    /\ key ∈ merchant_scoring.MIXED_MERCHANTS
    /\ spec_estimator.occurs key name.
Proof.
  unfold merchant_scoring.is_mixed_merchant.
  destruct merchant_name as [[|c name]|].
  - split; [discriminate|]. intros (name & key & [= <-] & Hk & Ho). exfalso.
    apply (occurs_nonempty _ _ Ho); [|reflexivity].
    intros ->. apply mixed_merchants_elem in Hk.
    rewrite !elem_of_cons, elem_of_nil in Hk.
    destruct Hk as [H|[H|[H|[H|[]]]]]; discriminate.
  - rewrite bool_decide_eq_true. unfold set_Exists. split.
    + intros (key & Hk & Hc). exists (c :: name), key.
      split; [reflexivity|]. split; [exact Hk|].
      apply contains_lower_occurs, Hc.
    + intros (name' & key & [= <-] & Hk & Ho). exists key.
      split; [exact Hk|]. apply contains_lower_occurs, Ho.
  - split; [discriminate|]. intros (name & key & H & _). discriminate.
Qed.

Lemma contains_extend (sub pre x post : str) :
  pystr.contains sub x = true -> pystr.contains sub (pre ++ x ++ post) = true.
Proof.
  rewrite !contains_spec. intros (a & b & ->).
  exists (pre ++ a), (b ++ post). rewrite <- !app_assoc. reflexivity.
Qed.

(** X2: text before and after the name of a mixed merchant leaves it
    mixed. *)
Theorem X2_is_mixed_merchant_extends (name before after : str) :
  merchant_scoring.is_mixed_merchant (Some name) = true ->
  merchant_scoring.is_mixed_merchant (Some (before ++ name ++ after)) = true.
Proof.
  unfold merchant_scoring.is_mixed_merchant.
  destruct name as [|c name]; [discriminate|].
  destruct (before ++ (c :: name) ++ after) as [|d long] eqn:E.
  { apply app_eq_nil in E as [_ E]. discriminate E. }
  rewrite <- E, !bool_decide_eq_true. unfold set_Exists.
  intros (key & Hk & Hc). exists key. split; [exact Hk|].
  unfold pystr.lower. rewrite !List.map_app. apply contains_extend, Hc.
Qed.

Lemma X2_is_mixed_merchant_extends_witness :
  merchant_scoring.is_mixed_merchant
    (Some (pystr.txt "SUPER " ++ pystr.txt "Target" ++ pystr.txt " #1204"))
  = true.
Proof.
  apply (X2_is_mixed_merchant_extends (pystr.txt "Target")).
  vm_compute. reflexivity.
Defined.

Lemma any_in_tagged (keys category : list str) :
  merchant_scoring.any_in (list_to_set (map pystr.lower category)) keys = true
  <-> spec_merchant.tagged keys category.
Proof.
  unfold merchant_scoring.any_in, spec_merchant.tagged.
  rewrite existsb_exists. split.
  - intros (k & Hin & Hk). apply bool_decide_eq_true in Hk.
    apply elem_of_list_to_set, list_elem_of_fmap in Hk as (c & -> & Hc).
    exists c. split; [exact Hc|]. apply list_elem_of_In, Hin.
  - intros (c & Hc & Hk). exists (pystr.lower c).
    split; [apply list_elem_of_In, Hk|]. apply bool_decide_eq_true.
    apply elem_of_list_to_set, list_elem_of_fmap. exists c. auto.
Qed.

Lemma any_in_not_tagged (keys category : list str) :
  merchant_scoring.any_in (list_to_set (map pystr.lower category)) keys = false
  <-> ~ spec_merchant.tagged keys category.
Proof. rewrite <- any_in_tagged. destruct (merchant_scoring.any_in _ _); split; congruence. Qed.

(** X3: the heuristic score is 9 exactly when a green keyword is among
    the categories, letter case apart; 3 exactly when there is none but
    an impact keyword; 6 exactly when there is neither but a moderate
    keyword; and 5 exactly when there is none of the three. *)
Theorem X3_quick_merchant_score_precedence
    (merchant_name : option str) (category : list str) :
  let score := merchant_scoring.quick_merchant_score merchant_name (Some category) in
  let green := spec_merchant.tagged merchant_scoring.GREEN category in
  let impact := spec_merchant.tagged merchant_scoring.IMPACT category in
  let moderate := spec_merchant.tagged merchant_scoring.MODERATE category in
  (score = 9 <-> green)
  /\ (score = 3 <-> ~ green /\ impact)
  /\ (score = 6 <-> ~ green /\ ~ impact /\ moderate)
  /\ (score = 5 <-> ~ green /\ ~ impact /\ ~ moderate).
Proof.
  cbv zeta. unfold merchant_scoring.quick_merchant_score.
  destruct (merchant_scoring.any_in _ merchant_scoring.GREEN) eqn:G;
    [apply any_in_tagged in G | apply any_in_not_tagged in G];
    [repeat split; try discriminate; tauto|].
  destruct (merchant_scoring.any_in _ merchant_scoring.IMPACT) eqn:I;
    [apply any_in_tagged in I | apply any_in_not_tagged in I];
    [repeat split; try discriminate; tauto|].
  destruct (merchant_scoring.any_in _ merchant_scoring.MODERATE) eqn:M;
    [apply any_in_tagged in M | apply any_in_not_tagged in M];
    repeat split; try discriminate; tauto.
Qed.

Lemma tagged_same (keys l1 l2 : list str) :
  (forall c, c ∈ l1 <-> c ∈ l2) ->
  spec_merchant.tagged keys l1 <-> spec_merchant.tagged keys l2.
Proof.
  intros H. unfold spec_merchant.tagged.
  split; intros (c & Hc & Hk); exists c; (split; [apply H, Hc | exact Hk]).
Qed.

(** X4: the heuristic score depends on the categories as a set only, and
    not on the merchant: two lists with the same entries, in any order and
    number, score alike under any two merchants; and no category list
    scores as the empty one, 5. *)
Theorem X4_quick_merchant_score_set (m1 m2 : option str) (l1 l2 : list str) :
  (forall c, c ∈ l1 <-> c ∈ l2) ->
  merchant_scoring.quick_merchant_score m1 (Some l1)
  = merchant_scoring.quick_merchant_score m2 (Some l2)
  /\ merchant_scoring.quick_merchant_score m1 None = 5
  /\ merchant_scoring.quick_merchant_score m1 (Some []) = 5.
Proof.
  intros H. split; [|split; reflexivity].
  unfold merchant_scoring.quick_merchant_score.
  assert (E : forall keys,
             merchant_scoring.any_in (list_to_set (map pystr.lower l1)) keys
             = merchant_scoring.any_in (list_to_set (map pystr.lower l2)) keys).
  { intros keys. apply eq_true_iff_eq. rewrite !any_in_tagged.
    apply tagged_same, H. }
  rewrite !E. reflexivity.
Qed.

Lemma X4_quick_merchant_score_set_witness :
  merchant_scoring.quick_merchant_score (Some (pystr.txt "Shell"))
    (Some [pystr.txt "Gas"; pystr.txt "Organic"; pystr.txt "Gas"])
  = merchant_scoring.quick_merchant_score None
      (Some [pystr.txt "Organic"; pystr.txt "Gas"])
  /\ merchant_scoring.quick_merchant_score (Some (pystr.txt "Shell")) None = 5
  /\ merchant_scoring.quick_merchant_score (Some (pystr.txt "Shell")) (Some []) = 5.
Proof.
  apply X4_quick_merchant_score_set.
  intros c. rewrite !elem_of_cons, !elem_of_nil. tauto.
Defined.

(** ** The multiplier and the cashback, further *)

(** X5: the bonus multiplier lies between 0.15 and 5.0, does not decrease
    when the score grows, and is 0.15 for every score up to 0 and 5.0 for
    every score from 10 on. *)
Theorem X5_multiplier_range_monotone :
  (forall s,
      binary64.leb (lit 0.15) (eco_scoring.map_score_to_multiplier s) = true
      /\ binary64.leb (eco_scoring.map_score_to_multiplier s) (lit 5.0) = true)
  /\ (forall s1 s2, s1 <= s2 ->
        binary64.leb (eco_scoring.map_score_to_multiplier s1)
          (eco_scoring.map_score_to_multiplier s2) = true)
  /\ (forall s, s <= 0 -> eco_scoring.map_score_to_multiplier s = lit 0.15)
  /\ (forall s, 10 <= s -> eco_scoring.map_score_to_multiplier s = lit 5.0).
Proof.
  assert (K : forall s, eco_scoring.map_score_to_multiplier s
                        = eco_scoring.map_score_to_multiplier (Z.max 0 (Z.min 10 s))).
  { intros s. unfold eco_scoring.map_score_to_multiplier.
    replace (Z.max 0 (Z.min 10 (Z.max 0 (Z.min 10 s)))) with (Z.max 0 (Z.min 10 s))
      by lia. reflexivity. }
  split; [|split; [|split]].
  - intros s. rewrite (K s).
    assert (B : 0 <= Z.max 0 (Z.min 10 s) <= 10) by lia.
    set (c := Z.max 0 (Z.min 10 s)) in *. clearbody c.
    cases_0_10 c; split; vm_compute; reflexivity.
  - intros s1 s2 H. rewrite (K s1), (K s2).
    assert (B1 : 0 <= Z.max 0 (Z.min 10 s1) <= 10) by lia.
    assert (B2 : 0 <= Z.max 0 (Z.min 10 s2) <= 10) by lia.
    assert (L : Z.max 0 (Z.min 10 s1) <= Z.max 0 (Z.min 10 s2)) by lia.
    set (c1 := Z.max 0 (Z.min 10 s1)) in *. set (c2 := Z.max 0 (Z.min 10 s2)) in *.
    clearbody c1 c2. clear H K.
    cases_0_10 c1; cases_0_10 c2; try (exfalso; lia); vm_compute; reflexivity.
  - intros s H. rewrite (K s). replace (Z.max 0 (Z.min 10 s)) with 0 by lia.
    reflexivity.
  - intros s H. rewrite (K s). replace (Z.max 0 (Z.min 10 s)) with 10 by lia.
    vm_compute. reflexivity.
Qed.

Lemma X5_multiplier_range_monotone_witness :
  binary64.leb (eco_scoring.map_score_to_multiplier 3)
    (eco_scoring.map_score_to_multiplier 8) = true
  /\ eco_scoring.map_score_to_multiplier (-4) = lit 0.15
  /\ eco_scoring.map_score_to_multiplier 12 = lit 5.0.
Proof.
  destruct X5_multiplier_range_monotone as (_ & Hmono & Hlow & Hhigh).
  split; [apply Hmono; lia|]. split; [apply Hlow; lia | apply Hhigh; lia].
Defined.

Lemma nearest_even_unique (x : Q) (n m : Z) :
  spec.nearest_even x n -> spec.nearest_even x m -> n = m.
Proof.
  intros [Hn En] [Hm Em].
  pose proof Hn as Hn'. pose proof Hm as Hm'.
  apply Qabs_Qle_condition in Hn', Hm'.
  destruct (Z.eq_dec n m) as [E|N]; [exact E|exfalso].
  assert (C : n + 1 <= m \/ m + 1 <= n) by lia.
  destruct C as [C|C]; rewrite Zle_Qle in C; push_inject.
  - assert (Hx1 : (x - inject_Z n == 1 # 2)%Q) by lra.
    assert (Hx2 : (x - inject_Z m == - (1 # 2))%Q) by lra.
    assert (Tn : (Qabs (x - inject_Z n) == 1 # 2)%Q) by (rewrite Hx1; reflexivity).
    assert (Tm : (Qabs (x - inject_Z m) == 1 # 2)%Q) by (rewrite Hx2; reflexivity).
    specialize (En Tn). specialize (Em Tm).
    assert (m = n + 1).
    { apply inject_Z_injective. push_inject. lra. }
    subst m. rewrite Z.even_add, En in Em. discriminate.
  - assert (Hx1 : (x - inject_Z m == 1 # 2)%Q) by lra.
    assert (Hx2 : (x - inject_Z n == - (1 # 2))%Q) by lra.
    assert (Tn : (Qabs (x - inject_Z n) == 1 # 2)%Q) by (rewrite Hx2; reflexivity).
    assert (Tm : (Qabs (x - inject_Z m) == 1 # 2)%Q) by (rewrite Hx1; reflexivity).
    specialize (En Tn). specialize (Em Tm).
    assert (n = m + 1).
    { apply inject_Z_injective. push_inject. lra. }
    subst n. rewrite Z.even_add, Em in En. discriminate.
Qed.

Lemma round_half_even_opp (x : Q) :
  decimal.round_half_even (- x) = - decimal.round_half_even x.
Proof.
  apply (nearest_even_unique (- x)); [apply round_half_even_nearest|].
  destruct (round_half_even_nearest x) as [H E].
  assert (A : (Qabs (- x - inject_Z (- decimal.round_half_even x))
               == Qabs (x - inject_Z (decimal.round_half_even x)))%Q).
  { rewrite inject_Z_opp, <- (Qabs_opp (x - _)).
    apply Qabs_wd. ring. }
  split.
  - rewrite A. exact H.
  - rewrite A. intros T. rewrite Z.even_opp. exact (E T).
Qed.

Lemma nearest_cent_opp (x : Q) :
  (decimal.nearest_multiple 0.01 (- x) == - decimal.nearest_multiple 0.01 x)%Q.
Proof.
  rewrite !nearest_cent.
  rewrite (round_half_even_comp (- x * 100) (- (x * 100))) by ring.
  rewrite round_half_even_opp, inject_Z_opp. field.
Qed.

Lemma in_cents_intro (amount : Q) (n : Z) :
  Z.abs n <= 10 ^ 11 -> (amount == inject_Z n / 100)%Q ->
  spec.in_cents amount = true.
Proof.
  intros Hn E. unfold spec.in_cents. apply andb_true_iff.
  assert (E100 : (amount * 100 == inject_Z n)%Q) by (rewrite E; field).
  split.
  - apply Qeq_bool_iff. rewrite (Qfloor_comp _ _ E100), Qfloor_Z, E100.
    reflexivity.
  - apply Qle_bool_iff. apply Qabs_Qle_condition.
    assert (A : (inject_Z (- 10 ^ 11) <= inject_Z n)%Q) by (rewrite <- Zle_Qle; lia).
    assert (B : (inject_Z n <= inject_Z (10 ^ 11))%Q) by (rewrite <- Zle_Qle; lia).
    change (inject_Z (- 10 ^ 11)) with (- (100000000000))%Q in A.
    change (inject_Z (10 ^ 11)) with (100000000000)%Q in B.
    rewrite <- E100 in A, B. split; lra.
Qed.

Lemma in_cents_opp (amount : Q) :
  spec.in_cents amount = true -> spec.in_cents (- amount) = true.
Proof.
  intros H. apply in_cents_spec in H as (n & Hn & E).
  apply (in_cents_intro _ (- n)); [lia|].
  rewrite E, inject_Z_opp. field.
Qed.

(** X6: on amounts in whole cents of at most a billion, the cashback of a
    negative amount is the negative of the cashback of the amount: what a
    purchase earned, its refund takes back to the cent. *)
Theorem X6_cashback_odd (amount : Q) (score : option Z) :
  spec.in_cents amount = true ->
  exists c,
    spec.pays (eco_scoring.compute_cashback amount score) c
    /\ spec.pays (eco_scoring.compute_cashback (- amount) score) (- c).
Proof.
  intros H. eexists. split; [apply pays_exact, H|].
  apply (pays_comp _ _ _ (pays_exact _ score (in_cents_opp _ H))).
  rewrite <- nearest_cent_opp.
  rewrite (nearest_multiple_comp 0.01 (spec.unrounded (- amount) score)
             (- spec.unrounded amount score)); [reflexivity|].
  unfold spec.unrounded. destruct score; ring.
Qed.

Lemma X6_cashback_odd_witness :
  exists c,
    spec.pays (eco_scoring.compute_cashback 19.99 (Some 7%Z)) c
    /\ spec.pays (eco_scoring.compute_cashback (- 19.99) (Some 7%Z)) (- c).
Proof.
  apply (X6_cashback_odd 19.99 (Some 7%Z)). vm_compute. reflexivity.
Defined.

(** X7: on amounts in whole cents of at most a billion, at a fixed score
    or without one, the cashback does not decrease when the amount
    grows. *)
Theorem X7_cashback_monotone_in_amount (a b : Q) (score : option Z) :
  spec.in_cents a = true -> spec.in_cents b = true -> (a <= b)%Q ->
  exists ca cb,
    spec.pays (eco_scoring.compute_cashback a score) ca
    /\ spec.pays (eco_scoring.compute_cashback b score) cb
    /\ (ca <= cb)%Q.
Proof.
  intros Ha Hb H. eexists _, _.
  split; [apply pays_exact, Ha|]. split; [apply pays_exact, Hb|].
  apply nearest_cent_mono. unfold spec.unrounded.
  destruct score as [s|]; [|lra].
  pose proof (printed_multiplier_pos s). nra.
Qed.

Lemma X7_cashback_monotone_in_amount_witness :
  exists ca cb,
    spec.pays (eco_scoring.compute_cashback 19.99 (Some 7%Z)) ca
    /\ spec.pays (eco_scoring.compute_cashback 20.00 (Some 7%Z)) cb
    /\ (ca <= cb)%Q.
Proof.
  apply (X7_cashback_monotone_in_amount 19.99 20.00 (Some 7%Z));
    [vm_compute; reflexivity | vm_compute; reflexivity | unfold Qle; simpl; lia].
Defined.

Lemma printed_multiplier_range (s : Z) :
  (0.15 <= spec.printed_multiplier s <= 5.0)%Q.
Proof.
  split.
  - destruct (Z.le_ge_cases 0 s) as [H|H].
    + apply (printed_multiplier_mono 0 s H).
    + unfold spec.printed_multiplier. replace (Z.max 0 (Z.min 10 s)) with 0 by lia.
      apply Qle_refl.
  - destruct (Z.le_ge_cases s 10) as [H|H].
    + apply (printed_multiplier_mono s 10 H).
    + unfold spec.printed_multiplier. replace (Z.max 0 (Z.min 10 s)) with 10 by lia.
      apply Qle_refl.
Qed.

Lemma nearest_cent_near (x : Q) :
  (x - 0.005 <= decimal.nearest_multiple 0.01 x <= x + 0.005)%Q.
Proof.
  rewrite nearest_cent.
  destruct (round_half_even_nearest (x * 100)) as [H _].
  apply Qabs_Qle_condition in H.
  set (n := inject_Z (decimal.round_half_even (x * 100))) in *. clearbody n.
  split.
  - apply Qle_shift_div_l; [reflexivity|]. lra.
  - apply Qle_shift_div_r; [reflexivity|]. lra.
Qed.

(** X8: on an amount in whole cents of at most a billion that is not
    negative, the cashback with a score is, to within half a cent,
    between 1.15% and 6% of the amount; without a score it is 1% of the
    amount to within half a cent. *)
Theorem X8_cashback_percent_bounds (amount : Q) (score : Z) :
  spec.in_cents amount = true -> (0 <= amount)%Q ->
  exists c c0,
    spec.pays (eco_scoring.compute_cashback amount (Some score)) c
    /\ spec.pays (eco_scoring.compute_cashback amount None) c0
    /\ (0.0115 * amount - 0.005 <= c <= 0.06 * amount + 0.005)%Q
    /\ (0.01 * amount - 0.005 <= c0 <= 0.01 * amount + 0.005)%Q.
Proof.
  intros Hc H. eexists _, _.
  split; [apply pays_exact, Hc|]. split; [apply pays_exact, Hc|].
  pose proof (nearest_cent_near (spec.unrounded amount (Some score))) as [L U].
  pose proof (nearest_cent_near (spec.unrounded amount None)) as [L0 U0].
  unfold spec.unrounded in *.
  pose proof (printed_multiplier_range score) as [Ml Mu].
  split; split; try nra; lra.
Qed.

Lemma X8_cashback_percent_bounds_witness :
  exists c c0,
    spec.pays (eco_scoring.compute_cashback 300 (Some 9%Z)) c
    /\ spec.pays (eco_scoring.compute_cashback 300 None) c0
    /\ (0.0115 * 300 - 0.005 <= c <= 0.06 * 300 + 0.005)%Q
    /\ (0.01 * 300 - 0.005 <= c0 <= 0.01 * 300 + 0.005)%Q.
Proof.
  apply (X8_cashback_percent_bounds 300 9); [vm_compute; reflexivity | discriminate].
Defined.

(** ** The factor table and the estimator, further *)

(** X9: whatever the name, the factor looked up is between 0.05 and 5.0
    kgCO2e per dollar: the least and the greatest of the table, the default
    0.5 lying between them. *)
Theorem X9_factor_range (name : str) :
  binary64.leb (lit 0.05) (item_category_map.lookup_kg_co2e_per_usd name) = true
  /\ binary64.leb (item_category_map.lookup_kg_co2e_per_usd name) (lit 5.0) = true.
Proof.
  unfold item_category_map.lookup_kg_co2e_per_usd.
  pose proof (scan_in item_category_map.FALLBACK_KG_CO2E_PER_USD (pystr.lower name)) as H.
  set (v := item_category_map.scan _ _) in *. clearbody v.
  simpl in H.
  repeat (destruct H as [<- | H]; [split; vm_compute; reflexivity|]).
  destruct H.
Qed.

(** X10: no entry of the table is hidden by an earlier one: a name that
    is a keyword of the table, in any letter case, gets the factor of that
    keyword. *)
Theorem X10_keyword_gets_own_factor (key : str) (val : float) (name : str) :
  In (key, val) item_category_map.FALLBACK_KG_CO2E_PER_USD ->
  pystr.lower name = key ->
  item_category_map.lookup_kg_co2e_per_usd name = val.
Proof.
  intros Hin Hname. unfold item_category_map.lookup_kg_co2e_per_usd.
  rewrite Hname. clear Hname name. simpl in Hin.
  repeat (destruct Hin as [[= <- <-] | Hin]; [vm_compute; reflexivity|]).
  destruct Hin.
Qed.

Lemma X10_keyword_gets_own_factor_witness :
  item_category_map.lookup_kg_co2e_per_usd (pystr.txt "GROCERY") = lit 0.3.
Proof.
  apply (X10_keyword_gets_own_factor (pystr.txt "grocery")).
  - simpl. tauto.
  - vm_compute. reflexivity.
Defined.

Lemma estimate_eq_mock (settings : Settings) (name : str)
    (price : option float) (qty : option Z) :
  climatiq_client.estimate_item_footprint settings name price qty
  = climatiq_client._mock_estimate name price None.
Proof.
  unfold climatiq_client.estimate_item_footprint.
  change (climatiq_client._mock_estimate name price qty)
    with (climatiq_client._mock_estimate name price None).
  destruct (_ || _); [reflexivity|].
  destruct (climatiq_client._mock_estimate name price None); reflexivity.
Qed.

Lemma mock_estimate_total (name : str) (price : option float) :
  exists kg, climatiq_client._mock_estimate name price None = Ok kg.
Proof.
  unfold climatiq_client._mock_estimate.
  destruct (factor_decimal name) as (f & -> & Hf).
  destruct (decimal.of_float _) as [p|s| |]; simpl.
  - eauto.
  - destruct (Qeq_bool f 0) eqn:Ez; [|simpl; eauto].
    apply Qeq_bool_eq in Ez. rewrite Ez in Hf. discriminate.
  - eauto.
  - eauto.
Qed.

(** X11: the footprint of an item is the fallback estimate under every
    setting: switching the footprint service on, with a credential or
    without, changes no result; nor does the quantity; and the call never
    raises. *)
Theorem X11_estimate_is_fallback (settings : Settings) (name : str)
    (price : option float) (qty : option Z) :
  climatiq_client.estimate_item_footprint settings name price qty
  = climatiq_client._mock_estimate name price None
  /\ exists kg,
       climatiq_client.estimate_item_footprint settings name price qty = Ok kg.
Proof.
  rewrite estimate_eq_mock. split; [reflexivity | apply mock_estimate_total].
Qed.

(** ** Lines and amounts *)

Lemma lstrip_head (drop : ascii -> bool) (x : str) (c : ascii) (rest : str) :
  pystr.lstrip drop x = c :: rest -> drop c = false.
Proof.
  induction x as [|d x IH]; simpl; [discriminate|].
  destruct (drop d) eqn:E; [exact IH|]. intros [= <- _]. exact E.
Qed.

Lemma lstrip_fix (drop : ascii -> bool) (x : str) :
  (forall c rest, x = c :: rest -> drop c = false) -> pystr.lstrip drop x = x.
Proof.
  destruct x as [|c x]; [reflexivity|]. intros H. simpl.
  rewrite (H c x eq_refl). reflexivity.
Qed.

Lemma lstrip_all (drop : ascii -> bool) (pre rest : str) :
  forallb drop pre = true ->
  pystr.lstrip drop (pre ++ rest) = pystr.lstrip drop rest.
Proof.
  induction pre as [|c pre IH]; simpl; [reflexivity|].
  intros H. apply andb_true_iff in H as [-> H]. exact (IH H).
Qed.

Lemma lstrip_idem (drop : ascii -> bool) (x : str) :
  pystr.lstrip drop (pystr.lstrip drop x) = pystr.lstrip drop x.
Proof.
  apply lstrip_fix. intros c rest H. exact (lstrip_head _ _ _ _ H).
Qed.

Lemma rstrip_last (drop : ascii -> bool) (x rest : str) (c : ascii) :
  pystr.rstrip drop x = rest ++ [c] -> drop c = false.
Proof.
  unfold pystr.rstrip. intros H.
  apply (f_equal (@rev ascii)) in H. rewrite rev_involutive, rev_app_distr in H.
  simpl in H. exact (lstrip_head _ _ _ _ H).
Qed.

Lemma rstrip_fix (drop : ascii -> bool) (x : str) :
  (forall rest c, x = rest ++ [c] -> drop c = false) -> pystr.rstrip drop x = x.
Proof.
  intros H. unfold pystr.rstrip. rewrite lstrip_fix; [apply rev_involutive|].
  intros c rest E. apply (H (rev rest)).
  rewrite <- (rev_involutive x), E. reflexivity.
Qed.

(** What is left of [c :: x] after its end is stripped still starts with
    [c], when [c] itself is kept. *)
Lemma rstrip_keeps_head (drop : ascii -> bool) (c : ascii) (x : str) :
  drop c = false -> exists rest, pystr.rstrip drop (c :: x) = c :: rest.
Proof.
  intros Hc. unfold pystr.rstrip. simpl.
  destruct (lstrip_split drop (rev x)) as (pre & Hx & Hpre & _).
  assert (E : pystr.lstrip drop (rev x ++ [c])
              = pystr.lstrip drop (rev x) ++ [c]
              \/ (pystr.lstrip drop (rev x) = [] /\ pystr.lstrip drop (rev x ++ [c]) = [c])).
  { clear Hx Hpre pre. induction (rev x) as [|d l IH]; simpl.
    - rewrite Hc. right. auto.
    - destruct (drop d); [exact IH | left; reflexivity]. }
  destruct E as [-> | [_ ->]].
  - rewrite rev_app_distr. simpl. eauto.
  - simpl. eauto.
Qed.

Lemma strip_trimmed (drop : ascii -> bool) (x : str) :
  spec_lines.trimmed drop (pystr.strip drop x).
Proof.
  unfold pystr.strip. split.
  - intros c rest H.
    destruct (pystr.lstrip drop x) as [|d y] eqn:E.
    + discriminate H.
    + pose proof (lstrip_head _ _ _ _ E) as Hd.
      destruct (rstrip_keeps_head drop d y Hd) as (r & Hr).
      rewrite Hr in H. injection H as <- _. exact Hd.
  - intros rest c H. exact (rstrip_last _ _ _ _ H).
Qed.

Lemma strip_fix (drop : ascii -> bool) (x : str) :
  spec_lines.trimmed drop x -> pystr.strip drop x = x.
Proof.
  intros [H1 H2]. unfold pystr.strip.
  rewrite (lstrip_fix _ _ H1). apply rstrip_fix, H2.
Qed.

Lemma digit_not_space (c : ascii) :
  pystr.isdigit c = true -> pystr.isspace c = false.
Proof.
  destruct c as [[|] [|] [|] [|] [|] [|] [|] [|]]; try reflexivity; discriminate.
Qed.

Lemma digit_not_dollar (c : ascii) :
  pystr.isdigit c = true -> Ascii.eqb c "$" = false.
Proof.
  destruct c as [[|] [|] [|] [|] [|] [|] [|] [|]]; try reflexivity; discriminate.
Qed.

Lemma forallb_head {A} (f : A -> bool) (x : list A) :
  x <> [] -> forallb f x = true -> exists c rest, x = c :: rest /\ f c = true.
Proof.
  destruct x as [|c rest]; [contradiction|]. simpl. intros _ H.
  apply andb_true_iff in H as [H _]. eauto.
Qed.

Lemma dot_not_digit : pystr.isdigit "." = false.
Proof. reflexivity. Qed.

Lemma lstrip_digits (ip rest : str) :
  forallb pystr.isdigit ip = true ->
  pystr.lstrip pystr.isdigit (ip ++ "."%char :: rest) = "."%char :: rest.
Proof. intros H. rewrite (lstrip_all _ _ _ H). reflexivity. Qed.

Lemma firstn_stripped (drop : ascii -> bool) (pre rest : str) :
  pystr.lstrip drop (pre ++ rest) = rest ->
  firstn (length (pre ++ rest) - length (pystr.lstrip drop (pre ++ rest)))
    (pre ++ rest) = pre.
Proof.
  intros H. rewrite H, length_app.
  replace (length pre + length rest - length rest)%nat with (length pre + 0)%nat by lia.
  rewrite firstn_app_2. simpl. apply app_nil_r.
Qed.

(** The tail of the pattern matches exactly the strings made of white
    space, an optional dollar sign and an amount. *)
Lemma match_tail_amount (ws cur ip fp : str) :
  ws <> [] -> forallb pystr.isspace ws = true ->
  cur = [] \/ cur = ["$"%char] ->
  spec_lines.amount ip fp ->
  ocr_google_vision.match_tail (ws ++ cur ++ ip ++ "."%char :: fp)
  = Some (ip ++ "."%char :: fp).
Proof.
  intros Hws Hsp Hcur (Hip & Hd & Hf & Hlen).
  destruct (forallb_head _ _ Hip Hd) as (d & ip' & Eip & Hdd).
  assert (R1 : pystr.lstrip pystr.isspace (ws ++ cur ++ ip ++ "."%char :: fp)
               = cur ++ ip ++ "."%char :: fp).
  { rewrite (lstrip_all _ _ _ Hsp). apply lstrip_fix. intros c rest E.
    destruct Hcur as [-> | ->]; simpl in E.
    - rewrite Eip in E. injection E as <- _. apply digit_not_space, Hdd.
    - injection E as <- _. reflexivity. }
  unfold ocr_google_vision.match_tail.
  destruct ws as [|w ws']; [contradiction|].
  cbn [app]. pose proof Hsp as Hw. simpl in Hw. apply andb_true_iff in Hw as [Hw _].
  rewrite Hw. change (w :: ws' ++ cur ++ ip ++ "."%char :: fp)
    with ((w :: ws') ++ cur ++ ip ++ "."%char :: fp).
  rewrite R1.
  cbv zeta.
  set (r2 := match cur ++ ip ++ "."%char :: fp with [] => _ | _ :: _ => _ end).
  assert (R2 : r2 = ip ++ "."%char :: fp).
  { unfold r2. destruct Hcur as [-> | ->]; simpl; [|reflexivity].
    rewrite Eip. simpl. rewrite (digit_not_dollar _ Hdd). reflexivity. }
  clearbody r2. subst r2.
  rewrite (firstn_stripped _ _ _ (lstrip_digits ip fp Hd)), (lstrip_digits ip fp Hd).
  rewrite Eip at 1. rewrite Hf. simpl.
  destruct Hlen as [-> | ->]; reflexivity.
Qed.

Lemma match_tail_shape (x p : str) :
  ocr_google_vision.match_tail x = Some p ->
  exists ws cur ip fp,
    x = ws ++ cur ++ ip ++ "."%char :: fp
    /\ ws <> [] /\ forallb pystr.isspace ws = true
    /\ (cur = [] \/ cur = ["$"%char])
    /\ spec_lines.amount ip fp
    /\ p = ip ++ "."%char :: fp.
Proof.
  unfold ocr_google_vision.match_tail.
  destruct x as [|c x]; [discriminate|].
  destruct (pystr.isspace c) eqn:Hc; [|discriminate].
  destruct (lstrip_split pystr.isspace (c :: x)) as (ws & Hx & Hws & _).
  set (r1 := pystr.lstrip pystr.isspace (c :: x)) in *.
  assert (Hne : ws <> []).
  { intros ->. simpl in Hx. symmetry in Hx.
    pose proof (lstrip_head _ _ _ _ Hx). congruence. }
  set (r2 := match r1 with
             | d :: r => if Ascii.eqb d "$" then r else r1
             | [] => r1
             end).
  assert (Hcur : exists cur, r1 = cur ++ r2 /\ (cur = [] \/ cur = ["$"%char])).
  { unfold r2. destruct r1 as [|d r]; [exists []; auto|].
    destruct (Ascii.eqb d "$") eqn:E.
    - apply Ascii.eqb_eq in E. subst d. exists ["$"%char]. auto.
    - exists []. auto. }
  destruct Hcur as (cur & Hr1 & Hcur).
  destruct (lstrip_split pystr.isdigit r2) as (ip & Hr2 & Hip & ->).
  cbv zeta. fold r2.
  destruct ip as [|d ip]; [discriminate|].
  destruct (pystr.lstrip pystr.isdigit r2) as [|q fs]; [discriminate|].
  destruct (Ascii.eqb q "." && forallb pystr.isdigit fs
            && ((length fs =? 1)%nat || (length fs =? 2)%nat)) eqn:T; [|discriminate].
  intros [= <-].
  apply andb_true_iff in T as [T Hlen]. apply andb_true_iff in T as [Hq Hfs].
  apply Ascii.eqb_eq in Hq. subst q.
  exists ws, cur, (d :: ip), fs.
  split; [rewrite Hx, Hr1, Hr2; reflexivity|].
  split; [exact Hne|]. split; [exact Hws|]. split; [exact Hcur|].
  split; [|reflexivity].
  split; [discriminate|]. split; [exact Hip|]. split; [exact Hfs|].
  apply orb_true_iff in Hlen as [H|H]; apply Nat.eqb_eq in H; auto.
Qed.

(** After its leading white space, a string that the tail matches holds
    no white space. *)
Lemma match_tail_no_space (x p : str) :
  ocr_google_vision.match_tail x = Some p ->
  forallb (fun c => negb (pystr.isspace c)) (pystr.lstrip pystr.isspace x) = true.
Proof.
  intros H. apply match_tail_shape in H
    as (ws & cur & ip & fp & -> & _ & Hws & Hcur & (Hne & Hip & Hfp & _) & _).
  assert (D : forall l, forallb pystr.isdigit l = true ->
                        forallb (fun c => negb (pystr.isspace c)) l = true).
  { intros l Hl. apply forallb_forall. intros c Hin.
    rewrite forallb_forall in Hl. rewrite (digit_not_space _ (Hl _ Hin)). reflexivity. }
  assert (N : forallb (fun c => negb (pystr.isspace c))
                (cur ++ ip ++ "."%char :: fp) = true).
  { rewrite !forallb_app. cbn [forallb]. rewrite (D _ Hip), (D _ Hfp).
    destruct Hcur as [-> | ->]; reflexivity. }
  rewrite (lstrip_all _ _ _ Hws). rewrite lstrip_fix; [exact N|].
  intros c rest E. rewrite E in N. simpl in N.
  apply andb_true_iff in N as [N _]. destruct (pystr.isspace c); [discriminate|reflexivity].
Qed.

Lemma lstrip_keeps (drop : ascii -> bool) (u : str) (c : ascii) (v : str) :
  drop c = false -> exists pre, pystr.lstrip drop (u ++ c :: v) = pre ++ c :: v.
Proof.
  intros Hc. induction u as [|d u IH]; simpl.
  - rewrite Hc. exists []. reflexivity.
  - destruct (drop d); [exact IH|]. exists (d :: u). reflexivity.
Qed.

(** The tail does not match from inside a word that white space
    follows. *)
Lemma match_tail_inside (u : str) (c w : ascii) (v : str) :
  pystr.isspace c = false -> pystr.isspace w = true ->
  ocr_google_vision.match_tail (u ++ c :: w :: v) = None.
Proof.
  intros Hc Hw.
  destruct (ocr_google_vision.match_tail (u ++ c :: w :: v)) as [p|] eqn:E;
    [exfalso|reflexivity].
  apply match_tail_no_space in E.
  destruct (lstrip_keeps pystr.isspace u c (w :: v) Hc) as (pre & Hpre).
  rewrite Hpre, forallb_app in E. simpl in E. rewrite Hw in E. simpl in E.
  rewrite !andb_false_r in E. discriminate.
Qed.

Lemma search_some (x : str) :
  forall acc g p,
    ocr_google_vision.search acc x = Some (g, p) ->
    exists a b, x = a ++ b /\ g = rev acc ++ a
                /\ ocr_google_vision.match_tail b = Some p.
Proof.
  induction x as [|c x IH]; intros acc g p; cbn [ocr_google_vision.search].
  - change (ocr_google_vision.match_tail []) with (@None str). discriminate.
  - destruct (ocr_google_vision.match_tail (c :: x)) as [q|] eqn:E.
    + intros [= <- <-]. exists [], (c :: x). rewrite app_nil_r. auto.
    + intros H. apply IH in H as (a & b & -> & -> & Hm).
      exists (c :: a), b. simpl. rewrite <- app_assoc. auto.
Qed.

Lemma search_first (a : str) :
  forall acc b p,
    (forall a1 a2, a = a1 ++ a2 -> a2 <> [] ->
                   ocr_google_vision.match_tail (a2 ++ b) = None) ->
    ocr_google_vision.match_tail b = Some p ->
    ocr_google_vision.search acc (a ++ b) = Some (rev acc ++ a, p).
Proof.
  induction a as [|c a IH]; intros acc b p Hno Hb.
  - rewrite app_nil_r. cbn [app].
    destruct b as [|d b]; [discriminate Hb|].
    cbn [ocr_google_vision.search]. rewrite Hb. reflexivity.
  - cbn [app ocr_google_vision.search].
    pose proof (Hno [] (c :: a) eq_refl) as H0. cbn [app] in H0.
    rewrite H0 by discriminate.
    rewrite (IH (c :: acc) b p); [simpl; rewrite <- app_assoc; reflexivity| |exact Hb].
    intros a1 a2 E Hne. apply (Hno (c :: a1) a2); [rewrite E; reflexivity | exact Hne].
Qed.

Lemma float_of_str_amount (ip fp : str) :
  spec_lines.amount ip fp ->
  ocr_google_vision.float_of_str (ip ++ "."%char :: fp)
  = Ok (binary64.of_Q (spec_lines.decimal_value ip fp)).
Proof.
  intros (Hne & Hip & Hfp & Hlen). unfold ocr_google_vision.float_of_str.
  rewrite (firstn_stripped _ _ _ (lstrip_digits ip fp Hip)), (lstrip_digits ip fp Hip).
  rewrite Hfp. simpl.
  destruct ip as [|d ip]; [contradiction|].
  destruct fp as [|f fp]; [simpl in Hlen; lia|]. reflexivity.
Qed.

(** ** What a line yields *)

Lemma parse_line_extracted (items : list ocr_google_vision.ParsedItem) (raw_line : str) :
  Forall spec_lines.extracted items ->
  Forall spec_lines.extracted (ocr_google_vision.parse_line items raw_line).
Proof.
  intros H. unfold ocr_google_vision.parse_line.
  destruct (_ || _); [exact H|].
  destruct (ocr_google_vision.search [] _) as [[g_name g_price]|] eqn:Es; [|exact H].
  destruct (pystr.strip _ g_name) as [|c name] eqn:En; [exact H|].
  apply Forall_app. split; [exact H|]. constructor; [|constructor].
  apply search_some in Es as (a & b & _ & _ & Hm).
  apply match_tail_shape in Hm as (ws & cur & ip & fp & _ & _ & _ & _ & Ha & ->).
  rewrite (float_of_str_amount _ _ Ha).
  split; [discriminate|]. split; [|split; [reflexivity|]].
  - cbn [ocr_google_vision.name]. rewrite <- En. apply strip_trimmed.
  - exists ip, fp. split; [exact Ha | reflexivity].
Qed.

(** X12: the extractor returns the single unknown item, or items read
    from lines, each with a name that is not empty and neither starts nor
    ends with one of the separators, no quantity, and as price the float
    nearest to an amount written with digits, a point and one or two
    digits: a price is never absent from such an item, and never
    negative. *)
Theorem X12_extracted_items (settings : Settings)
    (post : ocr_google_vision.Vision) (image : ocr_google_vision.bytes) :
  ocr_google_vision.parse_receipt settings post image = spec_extractor.sentinel
  \/ Forall spec_lines.extracted
       (ocr_google_vision.parse_receipt settings post image).
Proof.
  unfold ocr_google_vision.parse_receipt.
  destruct (_ || _); [left; reflexivity|].
  unfold ocr_google_vision.recognize.
  destruct (post _ image) as [resp|e]; [|left; reflexivity]. simpl.
  destruct (ocr_google_vision.raise_for_status resp); [|left; reflexivity]. simpl.
  destruct (ocr_google_vision.resp_json resp) as [data|]; [|left; reflexivity]. simpl.
  destruct (ocr_google_vision.full_text data) as [text|]; [|left; reflexivity]. simpl.
  destruct (negb (ocr_google_vision.truthy text)); [left; reflexivity|].
  destruct (ocr_google_vision.json_splitlines text) as [lines|]; [|left; reflexivity].
  simpl.
  assert (H : Forall spec_lines.extracted
                (fold_left ocr_google_vision.parse_line lines [])).
  { assert (G : forall acc, Forall spec_lines.extracted acc ->
                  Forall spec_lines.extracted
                    (fold_left ocr_google_vision.parse_line lines acc)).
    { induction lines as [|l lines IH]; intros acc Ha; simpl; [exact Ha|].
      apply IH, parse_line_extracted, Ha. }
    apply G. constructor. }
  destruct (fold_left _ lines []); [left; reflexivity | right; exact H].
Qed.

Lemma trimmed_app_last (drop : ascii -> bool) (x y : str) :
  y <> [] ->
  (forall c rest, x = c :: rest -> drop c = false) ->
  (forall rest c, y = rest ++ [c] -> drop c = false) ->
  x <> [] ->
  spec_lines.trimmed drop (x ++ y).
Proof.
  intros Hy Hx Hl Hne. split.
  - intros c rest E. destruct x as [|d x]; [contradiction|].
    injection E as <- _. exact (Hx d x eq_refl).
  - intros rest c E.
    destruct (exists_last Hy) as (y' & d & ->).
    rewrite app_assoc in E. apply app_inj_tail in E as [_ <-].
    exact (Hl y' d eq_refl).
Qed.

(** A line made of a name, white space, an optional dollar sign and an
    amount yields that name and that amount. *)
Lemma parse_line_formatted (items : list ocr_google_vision.ParsedItem)
    (name ws cur ip fp : str) :
  name <> [] ->
  spec_lines.trimmed pystr.isspace name ->
  spec_lines.trimmed (pystr.one_of spec_lines.separators) name ->
  ws <> [] -> forallb pystr.isspace ws = true ->
  cur = [] \/ cur = ["$"%char] ->
  spec_lines.amount ip fp ->
  ocr_google_vision.parse_line items (name ++ ws ++ cur ++ ip ++ "."%char :: fp)
  = items ++ [ {| ocr_google_vision.name := name;
                  ocr_google_vision.price :=
                    Some (binary64.of_Q (spec_lines.decimal_value ip fp));
                  ocr_google_vision.qty := None |} ].
Proof.
  intros Hname [Hfirst Hlast] Hsep Hws Hsp Hcur Ha.
  pose proof Ha as (Hip & Hd & Hfp & Hlen).
  set (tail := ws ++ cur ++ ip ++ "."%char :: fp).
  assert (Htail : ocr_google_vision.match_tail tail = Some (ip ++ "."%char :: fp))
    by (apply match_tail_amount; assumption).
  assert (Hline : pystr.strip pystr.isspace (name ++ tail) = name ++ tail).
  { apply strip_fix, trimmed_app_last; try assumption.
    - unfold tail. destruct ws; [contradiction|discriminate].
    - intros rest c E. unfold tail in E. rewrite !app_assoc in E.
      assert (Hfp' : fp <> []) by (destruct fp; [simpl in Hlen; lia | discriminate]).
      destruct (exists_last Hfp') as (fp' & d & Efp). rewrite Efp in E.
      change ("."%char :: fp' ++ [d]) with (("."%char :: fp') ++ [d]) in E.
      rewrite app_assoc in E. apply app_inj_tail in E as [_ <-].
      apply digit_not_space. rewrite Efp, forallb_app in Hfp. simpl in Hfp.
      apply andb_true_iff in Hfp as [_ Hfp]. rewrite andb_true_r in Hfp. exact Hfp. }
  unfold ocr_google_vision.parse_line. fold tail. rewrite Hline.
  assert (Hlen2 : ((length (name ++ tail) =? 0)%nat
                   || (length (name ++ tail) <? 2)%nat) = false).
  { rewrite length_app. unfold tail. rewrite length_app.
    destruct name; [contradiction|]. destruct ws; [contradiction|].
    simpl. destruct (length name + _)%nat eqn:E; [lia|reflexivity]. }
  rewrite Hlen2.
  rewrite (search_first name [] tail (ip ++ "."%char :: fp)); [|clear Hlen2 Hline|exact Htail].
  - cbn [rev app]. unfold spec_lines.separators in Hsep.
    rewrite (strip_fix _ _ Hsep), (float_of_str_amount _ _ Ha).
    destruct name; [contradiction|reflexivity].
  - intros a1 a2 E Hne.
    destruct (exists_last Hne) as (u & c & ->).
    assert (Hc : pystr.isspace c = false).
    { apply (Hlast (a1 ++ u)). rewrite E, app_assoc. reflexivity. }
    unfold tail. destruct ws as [|w ws']; [contradiction|].
    simpl in Hsp. apply andb_true_iff in Hsp as [Hw _].
    rewrite <- app_assoc. cbn [app]. apply match_tail_inside; assumption.
Qed.

Lemma splitlines_line (l rest : str) :
  spec_lines.one_line l ->
  forall cur,
    pystr.splitlines_from cur (l ++ example.LF :: rest)
    = (rev cur ++ l) :: pystr.splitlines_from [] rest.
Proof.
  unfold spec_lines.one_line.
  induction l as [|c l IH]; intros H cur.
  - rewrite app_nil_r. cbn [app pystr.splitlines_from].
    change (pystr.is_linebreak example.LF) with true. cbv iota.
    destruct rest; reflexivity.
  - cbn [forallb] in H. apply andb_true_iff in H as [Hc Hl].
    cbn [app pystr.splitlines_from].
    destruct (pystr.is_linebreak c); [discriminate Hc|].
    rewrite (IH Hl). cbn [rev]. rewrite <- app_assoc. reflexivity.
Qed.

Lemma splitlines_last (l : str) :
  spec_lines.one_line l ->
  forall cur, rev cur ++ l <> [] ->
    pystr.splitlines_from cur l = [rev cur ++ l].
Proof.
  unfold spec_lines.one_line.
  induction l as [|c l IH]; intros H cur Hne.
  - rewrite app_nil_r in *. cbn [pystr.splitlines_from].
    destruct cur; [contradiction|reflexivity].
  - cbn [forallb] in H. apply andb_true_iff in H as [Hc Hl].
    cbn [pystr.splitlines_from].
    destruct (pystr.is_linebreak c); [discriminate Hc|].
    rewrite (IH Hl).
    + cbn [rev]. rewrite <- app_assoc. reflexivity.
    + cbn [rev]. rewrite <- app_assoc. destruct (rev cur); discriminate.
Qed.

Lemma splitlines_join (lines : list str) :
  Forall (fun l => spec_lines.one_line l /\ l <> []) lines ->
  pystr.splitlines (spec_text.join example.LF lines) = lines.
Proof.
  unfold pystr.splitlines.
  induction 1 as [|l lines [Hl Hne] Hall IH]; [reflexivity|].
  destruct lines as [|l' lines].
  - cbn [spec_text.join]. exact (splitlines_last l Hl [] Hne).
  - change (spec_text.join example.LF (l :: l' :: lines))
      with (l ++ example.LF :: spec_text.join example.LF (l' :: lines)).
    rewrite (splitlines_line l _ Hl []). cbn [rev app]. f_equal. exact IH.
Qed.

Lemma one_line_app (x y : str) :
  spec_lines.one_line x -> spec_lines.one_line y -> spec_lines.one_line (x ++ y).
Proof.
  unfold spec_lines.one_line. intros Hx Hy. rewrite forallb_app, Hx, Hy. reflexivity.
Qed.

Lemma digits_one_line (x : str) :
  forallb pystr.isdigit x = true -> spec_lines.one_line x.
Proof.
  unfold spec_lines.one_line. intros H. apply forallb_forall. intros c Hin.
  rewrite forallb_forall in H. specialize (H c Hin). revert H.
  destruct c as [[|] [|] [|] [|] [|] [|] [|] [|]]; try reflexivity; discriminate.
Qed.

Lemma printable_line (e : spec_lines.entry) :
  spec_lines.printable e ->
  spec_lines.one_line (spec_lines.line_of e) /\ spec_lines.line_of e <> [].
Proof.
  intros (H1 & Hne & _ & _ & _ & _ & Hcur & (_ & Hip & Hfp & _)).
  unfold spec_lines.line_of. split.
  - rewrite app_assoc. apply one_line_app; [exact H1|].
    apply one_line_app; [destruct Hcur as [-> | ->]; reflexivity|].
    apply one_line_app; [apply digits_one_line, Hip|].
    apply (one_line_app ["."%char]); [reflexivity | apply digits_one_line, Hfp].
  - destruct (spec_lines.e_name e); [contradiction|discriminate].
Qed.

Lemma parse_lines_formatted (entries : list spec_lines.entry) :
  Forall spec_lines.printable entries ->
  forall items,
    fold_left ocr_google_vision.parse_line (map spec_lines.line_of entries) items
    = items ++ map spec_lines.item_of entries.
Proof.
  induction 1 as [|e entries He _ IH]; intros items; cbn [map fold_left].
  - rewrite app_nil_r. reflexivity.
  - destruct He as (_ & Hne & Hsp & Hsep & Hws & Hw & Hcur & Ha).
    pose proof (parse_line_formatted items _ _ _ _ _ Hne Hsp Hsep Hws Hw Hcur Ha) as P.
    change (ocr_google_vision.parse_line items (spec_lines.line_of e)
            = items ++ [spec_lines.item_of e]) in P.
    rewrite P, IH, <- app_assoc. reflexivity.
Qed.

(** X13: a receipt is read back as it was printed: when recognition is
    on, with a credential, and the service answers without an error
    status the text of printed lines, one per entry, joined by line
    feeds, the extractor returns the entries in their order, each with
    its name and, as price, the float nearest to its amount. *)
Theorem X13_receipt_round_trip (settings : Settings)
    (post : ocr_google_vision.Vision) (image : ocr_google_vision.bytes)
    (key : str) (resp : ocr_google_vision.Response)
    (data : ocr_google_vision.json) (entries : list spec_lines.entry) :
  use_real_ocr settings = true ->
  google_vision_api_key settings = Some key -> key <> [] ->
  post key image = Ok resp ->
  ocr_google_vision.raise_for_status resp = Ok tt ->
  ocr_google_vision.body resp = Some data ->
  ocr_google_vision.full_text data
  = Ok (ocr_google_vision.JStr
          (spec_text.join example.LF (map spec_lines.line_of entries))) ->
  entries <> [] ->
  Forall spec_lines.printable entries ->
  ocr_google_vision.parse_receipt settings post image
  = map spec_lines.item_of entries.
Proof.
  intros Hon Hkey Hk Hpost Hstatus Hbody Htext Hne Hall.
  unfold ocr_google_vision.parse_receipt. rewrite Hon, Hkey.
  destruct key as [|k key]; [contradiction|].
  cbn [negb orb key_configured default from_option id].
  unfold ocr_google_vision.recognize. rewrite Hpost.
  cbn [mbind result_bind]. rewrite Hstatus. cbn [mbind result_bind].
  unfold ocr_google_vision.resp_json. rewrite Hbody. cbn [mbind result_bind].
  rewrite Htext. cbn [mbind result_bind].
  assert (Hlines : Forall (fun l => spec_lines.one_line l /\ l <> [])
                     (map spec_lines.line_of entries)).
  { apply Forall_map. eapply List.Forall_impl; [|exact Hall].
    intros e He. exact (printable_line e He). }
  assert (Htruthy : ocr_google_vision.truthy
                      (ocr_google_vision.JStr
                         (spec_text.join example.LF (map spec_lines.line_of entries)))
                    = true).
  { destruct entries as [|e entries]; [contradiction|].
    inversion Hlines as [|? ? [_ Hl] _]; subst. cbn [map] in *.
    unfold ocr_google_vision.truthy.
    destruct (spec_lines.line_of e) as [|c l] eqn:E; [contradiction|].
    destruct (map spec_lines.line_of entries); reflexivity. }
  rewrite Htruthy. cbn [negb].
  cbn [ocr_google_vision.json_splitlines mbind result_bind].
  rewrite (splitlines_join _ Hlines), (parse_lines_formatted _ Hall []).
  cbn [app try_except].
  destruct entries; [contradiction|reflexivity].
Qed.

Lemma trimmed_by_strip (drop : ascii -> bool) (x : str) :
  pystr.strip drop x = x -> spec_lines.trimmed drop x.
Proof. intros H. rewrite <- H. apply strip_trimmed. Qed.

Lemma X13_receipt_round_trip_witness :
  ocr_google_vision.parse_receipt example.online
    (example.recognizes example_uploads.printed) []
  = map spec_lines.item_of example_uploads.entries.
Proof.
  apply (X13_receipt_round_trip example.online
           (example.recognizes example_uploads.printed) [] (pystr.txt "key")
           {| ocr_google_vision.status_code := 200;
              ocr_google_vision.body :=
                Some (ocr_google_vision.JDict
                        [ (pystr.txt "responses",
                           ocr_google_vision.JList
                             [ ocr_google_vision.JDict
                                 [ (pystr.txt "fullTextAnnotation",
                                    ocr_google_vision.JDict
                                      [ (pystr.txt "text",
                                         ocr_google_vision.JStr
                                           example_uploads.printed) ]) ] ]) ]) |}
           (ocr_google_vision.JDict
              [ (pystr.txt "responses",
                 ocr_google_vision.JList
                   [ ocr_google_vision.JDict
                       [ (pystr.txt "fullTextAnnotation",
                          ocr_google_vision.JDict
                            [ (pystr.txt "text",
                               ocr_google_vision.JStr
                                 example_uploads.printed) ]) ] ]) ])
           example_uploads.entries);
    try reflexivity; try discriminate.
  constructor; [|constructor; [|constructor]];
    (split; [reflexivity|]; split; [discriminate|];
     split; [apply trimmed_by_strip; reflexivity|];
     split; [apply trimmed_by_strip; reflexivity|];
     split; [discriminate|]; split; [reflexivity|];
     split; [first [left; reflexivity | right; reflexivity]|];
     split; [discriminate|]; split; [reflexivity|]; split; [reflexivity|];
     first [left; reflexivity | right; reflexivity]).
Defined.

(** X14: a line, as [splitlines] yields it, adds at most one item, and
    only when, white space at its ends apart, it is some text followed by
    white space, an optional dollar sign and an amount that ends the
    line; the item then has the text before the white space, stripped of
    separators, as its name, which is not empty, and the float nearest to
    the amount as its price.  Every other line is dropped. *)
Theorem X14_line_anatomy (items : list ocr_google_vision.ParsedItem) (raw_line : str) :
  spec_lines.one_line raw_line ->
  ocr_google_vision.parse_line items raw_line = items
  \/ exists text ws cur ip fp,
       pystr.strip pystr.isspace raw_line = text ++ ws ++ cur ++ ip ++ "."%char :: fp
       /\ ws <> [] /\ forallb pystr.isspace ws = true
       /\ (cur = [] \/ cur = ["$"%char])
       /\ spec_lines.amount ip fp
       /\ pystr.strip (pystr.one_of spec_lines.separators) text <> []
       /\ ocr_google_vision.parse_line items raw_line
          = items ++ [ {| ocr_google_vision.name :=
                            pystr.strip (pystr.one_of spec_lines.separators) text;
                          ocr_google_vision.price :=
                            Some (binary64.of_Q (spec_lines.decimal_value ip fp));
                          ocr_google_vision.qty := None |} ].
Proof.
  intros _. unfold ocr_google_vision.parse_line.
  destruct (_ || _); [left; reflexivity|].
  destruct (ocr_google_vision.search [] _) as [[g_name g_price]|] eqn:Es;
    [|left; reflexivity].
  apply search_some in Es as (a & b & Hline & -> & Hm).
  apply match_tail_shape in Hm as (ws & cur & ip & fp & -> & Hws & Hsp & Hcur & Ha & ->).
  cbn [rev app]. rewrite (float_of_str_amount _ _ Ha).
  fold spec_lines.separators.
  destruct (pystr.strip (pystr.one_of spec_lines.separators) a) as [|c name] eqn:En;
    [left; reflexivity|].
  right. exists a, ws, cur, ip, fp. rewrite En.
  repeat (split; [assumption|]). split; [discriminate | reflexivity].
Qed.

Lemma X14_line_anatomy_witness :
  ocr_google_vision.parse_line [] (pystr.txt "Coffee: $4.50") = []
  \/ exists text ws cur ip fp,
       pystr.strip pystr.isspace (pystr.txt "Coffee: $4.50")
       = text ++ ws ++ cur ++ ip ++ "."%char :: fp
       /\ ws <> [] /\ forallb pystr.isspace ws = true
       /\ (cur = [] \/ cur = ["$"%char])
       /\ spec_lines.amount ip fp
       /\ pystr.strip (pystr.one_of spec_lines.separators) text <> []
       /\ ocr_google_vision.parse_line [] (pystr.txt "Coffee: $4.50")
          = [] ++ [ {| ocr_google_vision.name :=
                         pystr.strip (pystr.one_of spec_lines.separators) text;
                       ocr_google_vision.price :=
                         Some (binary64.of_Q (spec_lines.decimal_value ip fp));
                       ocr_google_vision.qty := None |} ].
Proof.
  apply (X14_line_anatomy [] (pystr.txt "Coffee: $4.50")). reflexivity.
Defined.

(** ** When the route returns *)

Lemma mock_estimate_overflow (name : str) :
  climatiq_client._mock_estimate name (Some spec_route.overflow) None
  = Ok spec_route.overflow.
Proof.
  unfold climatiq_client._mock_estimate.
  destruct (factor_decimal name) as (f & -> & Hf).
  cbn [decimal.of_float spec_route.overflow decimal.mul].
  destruct (Qeq_bool f 0) eqn:Ez.
  { apply Qeq_bool_eq in Ez. rewrite Ez in Hf. discriminate. }
  unfold decimal.negative. apply Qnum_pos in Hf.
  replace (Qnum f <? 0) with false by lia. reflexivity.
Qed.

Lemma accumulate_overflow (acc : receipts.sums) :
  exists e, receipts.accumulate acc (Some spec_route.overflow) 0 = Raise e.
Proof.
  unfold receipts.accumulate.
  change (receipts.positive_price (Some spec_route.overflow))
    with (Some spec_route.overflow).
  cbn [decimal.of_float spec_route.overflow].
  destruct (decimal.add (receipts.total_price acc) (decimal.Infinity false))
    as [t|e]; cbn [mbind result_bind]; eauto.
Qed.

Lemma loop_body_overflow settings tid st it :
  ocr_google_vision.price it = Some spec_route.overflow ->
  exists e, receipts.loop_body settings tid st it = Raise e.
Proof.
  intros Hp. unfold receipts.loop_body.
  rewrite estimate_eq_mock, Hp, mock_estimate_overflow.
  cbn [mbind result_bind].
  change (receipts.score_item spec_route.overflow (Some spec_route.overflow))
    with (@Ok Z 0).
  cbn [mbind result_bind].
  destruct (accumulate_overflow (receipts.acc st)) as (e & ->).
  cbn [mbind result_bind]. eauto.
Qed.

Lemma for_each_overflow settings tid items :
  forall st st',
    receipts.for_each (receipts.loop_body settings tid) items st = Ok st' ->
    spec_route.no_overflow items.
Proof.
  induction items as [|it items IH]; intros st st' H; [constructor|].
  cbn [receipts.for_each] in H.
  destruct (receipts.loop_body settings tid st it) as [st1|e] eqn:E;
    [|discriminate H].
  cbn [mbind result_bind] in H.
  constructor; [|exact (IH _ _ H)].
  intros Hp. destruct (loop_body_overflow settings tid st it Hp) as (e & He).
  congruence.
Qed.

Lemma score_item_total (kg : float) (price : option float) :
  exists score, receipts.score_item kg price = Ok score.
Proof.
  unfold receipts.score_item.
  destruct (receipts.positive_price price) as [x|] eqn:E; [|eauto].
  apply positive_price_some in E as [_ [(m & e & ->)| ->]];
    cbn [binary64.div binary64.is_zero mbind result_bind]; eauto.
Qed.

Lemma accumulate_finite acc price score :
  spec_route.finite_sums acc -> price <> Some spec_route.overflow ->
  exists acc', receipts.accumulate acc price score = Ok acc' /\ spec_route.finite_sums acc'.
Proof.
  intros (T & W & ->) Hp. unfold receipts.accumulate.
  destruct (receipts.positive_price price) as [x|] eqn:E.
  - apply positive_price_some in E as [-> [(m & e & ->)| ->]].
    + cbn [decimal.of_float receipts.total_price receipts.weighted_score_sum
           decimal.add decimal.mul decimal.of_int mbind result_bind].
      match goal with
      | |- context [decimal.rounded ?s ?q] =>
          destruct (rounded_cases s q) as [(r & ->)| ->]
      end;
        cbn [decimal.add mbind result_bind];
        eexists; (split; [reflexivity|]); eexists _, _; reflexivity.
    + exfalso. apply Hp. reflexivity.
  - eexists. split; [reflexivity|]. exists T, W. reflexivity.
Qed.

Lemma loop_body_total settings tid st it :
  spec_route.finite_sums (receipts.acc st) ->
  ocr_google_vision.price it <> Some spec_route.overflow ->
  exists st', receipts.loop_body settings tid st it = Ok st'
              /\ spec_route.finite_sums (receipts.acc st').
Proof.
  intros Hacc Hp. unfold receipts.loop_body.
  fold (loop_invariant.stored_name it). rewrite estimate_eq_mock.
  destruct (mock_estimate_total (loop_invariant.stored_name it)
              (ocr_google_vision.price it)) as (kg & ->).
  cbn [mbind result_bind].
  destruct (score_item_total kg (ocr_google_vision.price it)) as (score & ->).
  cbn [mbind result_bind].
  destruct (accumulate_finite _ _ score Hacc Hp) as (acc' & -> & Hf).
  cbn [mbind result_bind]. eexists. split; [reflexivity | exact Hf].
Qed.

Lemma for_each_total settings tid items :
  spec_route.no_overflow items ->
  forall st, spec_route.finite_sums (receipts.acc st) ->
  exists st', receipts.for_each (receipts.loop_body settings tid) items st = Ok st'
              /\ spec_route.finite_sums (receipts.acc st').
Proof.
  intros H. induction H as [|it items Hit _ IH]; intros st Hacc.
  - exists st. split; [reflexivity | exact Hacc].
  - destruct (loop_body_total settings tid st it Hacc Hit) as (st1 & E1 & H1).
    destruct (IH st1 H1) as (st' & E' & H').
    exists st'. split; [|exact H']. cbn [receipts.for_each]. rewrite E1. exact E'.
Qed.
(** What a run of the route over [items] is made of. *)
Lemma process_items_run settings autoflush db tid tx items :
  spec_route.no_overflow items ->
  exists rows,
    receipts.for_each (receipts.loop_body settings tid) items
      {| receipts.added := []; receipts.acc := receipts.no_sums |}
    = Ok {| receipts.added := rows;
            receipts.acc :=
              {| receipts.total_price :=
                   decimal.Finite (fst (loop_invariant.context_sums rows));
                 receipts.weighted_score_sum :=
                   decimal.Finite (snd (loop_invariant.context_sums rows)) |} |}
    /\ Forall2 (loop_invariant.stores settings tid) rows items
    /\ Forall (loop_invariant.row_inv tid) rows
    /\ Forall loop_invariant.finite_price rows
    /\ receipts.process_items settings autoflush db tid tx items
       = (raw ← loop_invariant.score_of_rows rows;
          cashback ← eco_scoring.compute_cashback (receipts.amount tx)
                       (Some (spec_upload.clamp raw));
          Ok (loop_invariant.committed db tid tx rows (spec_upload.clamp raw)
                cashback (length items))).
Proof.
  intros Hno.
  destruct (for_each_total settings tid items Hno
              {| receipts.added := []; receipts.acc := receipts.no_sums |})
    as ([rows acc] & Hrun & (T & W & Hacc)).
  { exists 0%Q, 0%Q. reflexivity. }
  cbn [receipts.acc] in Hacc. subst acc.
  destruct (for_each_inv _ _ _ _ _ Hrun) as (rows' & Hadd & Hst & Hinv & Hsums).
  { constructor. }
  { left. split; [reflexivity | constructor]. }
  cbn [receipts.added receipts.acc app] in Hadd, Hinv, Hsums. subst rows'.
  destruct Hsums as [[[= -> ->] Hfin]|C]; [|discriminate C].
  exists rows. split; [exact Hrun|]. split; [exact Hst|].
  split; [exact Hinv|]. split; [exact Hfin|].
  exact (process_items_eq _ _ _ _ _ _ _ Hrun Hinv Hfin).
Qed.

Lemma process_items_overflow settings autoflush db tid tx items db' r :
  receipts.process_items settings autoflush db tid tx items = Ok (db', r) ->
  spec_route.no_overflow items.
Proof.
  unfold receipts.process_items.
  destruct (receipts.for_each _ items _) as [st|] eqn:Hloop; [|discriminate].
  intros _. exact (for_each_overflow _ _ _ _ _ Hloop).
Qed.

Lemma forallb_map {A B} (f : B -> bool) (g : A -> B) (l : list A) :
  forallb f (map g l) = forallb (fun x => f (g x)) l.
Proof. induction l as [|x l IH]; simpl; [reflexivity | rewrite IH; reflexivity]. Qed.

(** The positive prices of the rows are those of the items. *)
Lemma stores_positive_prices settings tid rows items :
  Forall2 (loop_invariant.stores settings tid) rows items ->
  map fst (omap spec_upload.priced rows) = spec_route.positive_prices items.
Proof.
  induction 1 as [|row it rows items (kg & score & _ & _ & ->) _ IH];
    [reflexivity|].
  unfold spec_route.positive_prices in *. cbn [omap list_omap].
  unfold spec_upload.priced at 1.
  cbn [receipts.item_price receipts.item_score].
  destruct (decimal.of_float <$> ocr_google_vision.price it) as [[p| | |]|];
    try exact IH.
  destruct (0 <? Qnum p); [|exact IH].
  cbn [map fst]. f_equal. exact IH.
Qed.

Lemma stores_within settings tid rows items (e : Z) :
  Forall2 (loop_invariant.stores settings tid) rows items ->
  spec_upload.within_precision e rows = spec_route.prices_within e items.
Proof.
  intros H. unfold spec_upload.within_precision, spec_route.prices_within,
    spec_upload.price_sum.
  rewrite <- (stores_positive_prices _ _ _ _ H), forallb_map. reflexivity.
Qed.

(** A run returns when no price overflows, the prices fit the precision
    of the context and the amount is in whole cents of at most a
    billion. *)
Lemma process_items_returns settings autoflush db tid tx items (e : Z) :
  spec_route.no_overflow items ->
  spec_route.prices_within e items = true ->
  spec.in_cents (receipts.amount tx) = true ->
  exists rows raw cashback,
    Forall2 (loop_invariant.stores settings tid) rows items
    /\ Forall (loop_invariant.row_inv tid) rows
    /\ spec_upload.aggregated rows raw
    /\ 0 <= raw <= 10
    /\ eco_scoring.compute_cashback (receipts.amount tx) (Some raw) = Ok cashback
    /\ receipts.process_items settings autoflush db tid tx items
       = Ok (loop_invariant.committed db tid tx rows raw cashback (length items)).
Proof.
  intros Hno Hprec Hc.
  destruct (process_items_run settings autoflush db tid tx _ Hno)
    as (rows & _ & Hst & Hinv & Hfin & Hp).
  rewrite <- (stores_within _ _ _ _ e Hst) in Hprec.
  destruct (score_of_rows_exact e tid rows Hinv Hfin Hprec)
    as (raw & Hraw & Hagg & Hr).
  rewrite Hraw in Hp. cbn [mbind result_bind] in Hp.
  assert (Ec : spec_upload.clamp raw = raw) by (unfold spec_upload.clamp; lia).
  rewrite Ec in Hp.
  destruct (pays_exact _ (Some raw) Hc) as (cashback & _ & Ecash & _).
  rewrite Ecash in Hp. cbn [mbind result_bind] in Hp.
  exists rows, raw, cashback. split; [exact Hst|]. split; [exact Hinv|].
  split; [exact Hagg|]. split; [exact Hr|].
  split; [exact Ecash | exact Hp].
Qed.

(** X15: an upload that returns has found the transaction of the user and
    read no price too large for a finite float; and the upload returns
    when the transaction is found, its amount is in whole cents of at most
    a billion, no price overflows and the positive prices are whole
    multiples of a power of ten [10^e] that sum to less than
    [10^(27+e)]. *)
Theorem X15_upload_returns settings post autoflush db uid tid content :
  ((exists db' r,
       receipts.upload_receipt settings post autoflush db uid tid content
       = (db', receipts.Returned r)) ->
   (exists tx, receipts.query_transaction db uid tid = Some tx)
   /\ spec_route.no_overflow
        (ocr_google_vision.parse_receipt settings post content))
  /\ (forall tx e,
        receipts.query_transaction db uid tid = Some tx ->
        spec.in_cents (receipts.amount tx) = true ->
        spec_route.no_overflow
          (ocr_google_vision.parse_receipt settings post content) ->
        spec_route.prices_within e
          (ocr_google_vision.parse_receipt settings post content) = true ->
        exists db' r,
          receipts.upload_receipt settings post autoflush db uid tid content
          = (db', receipts.Returned r)).
Proof.
  split.
  - intros (db' & r & H). apply upload_returned in H as (tx & Hq & Hp).
    split; [eauto|]. exact (process_items_overflow _ _ _ _ _ _ _ _ Hp).
  - intros tx e Hq Hc Hno Hprec.
    destruct (process_items_returns settings autoflush db tid tx _ e Hno Hprec Hc)
      as (rows & raw & cashback & _ & _ & _ & _ & _ & Hp).
    unfold receipts.upload_receipt, receipts.upload_items. rewrite Hq.
    pose proof (parse_receipt_nonempty settings post content) as Hne.
    destruct (ocr_google_vision.parse_receipt settings post content) as [|it items];
      [contradiction|].
    rewrite Hp. unfold loop_invariant.committed. eauto.
Qed.

Lemma X15_upload_returns_witness :
  exists db' r,
    receipts.upload_receipt example.online
      (example.recognizes example.receipt_text) true example.db0 7 1 []
    = (db', receipts.Returned r).
Proof.
  apply (proj2 (X15_upload_returns example.online
                  (example.recognizes example.receipt_text) true example.db0 7 1 [])
           example.tx0 (-2)).
  - vm_compute. reflexivity.
  - vm_compute. reflexivity.
  - vm_compute. repeat constructor; discriminate.
  - vm_compute. reflexivity.
Defined.

(** An overflowing price is not the one way in which the route raises:
    with an amount of 29 digits the cashback cannot be rounded to cents
    within the precision of the context, whatever the receipt. *)
Lemma upload_raises_on_large_amount :
  receipts.upload_receipt example.offline example.unreachable true
    example_uploads.large_db 7 1 []
  = (example_uploads.large_db, receipts.Unhandled InvalidOperation).
Proof. vm_compute. reflexivity. Qed.

(** ** What the route answers and stores *)

Lemma upload_run settings post autoflush db uid tid content db' r :
  receipts.upload_receipt settings post autoflush db uid tid content
  = (db', receipts.Returned r) ->
  exists tx rows raw cashback,
    let items := ocr_google_vision.parse_receipt settings post content in
    receipts.query_transaction db uid tid = Some tx
    /\ spec_route.no_overflow items
    /\ receipts.for_each (receipts.loop_body settings tid) items
         {| receipts.added := []; receipts.acc := receipts.no_sums |}
       = Ok {| receipts.added := rows;
               receipts.acc :=
                 {| receipts.total_price :=
                      decimal.Finite (fst (loop_invariant.context_sums rows));
                    receipts.weighted_score_sum :=
                      decimal.Finite (snd (loop_invariant.context_sums rows)) |} |}
    /\ Forall2 (loop_invariant.stores settings tid) rows items
    /\ Forall (loop_invariant.row_inv tid) rows
    /\ Forall loop_invariant.finite_price rows
    /\ loop_invariant.score_of_rows rows = Ok raw
    /\ eco_scoring.compute_cashback (receipts.amount tx)
         (Some (spec_upload.clamp raw)) = Ok cashback
    /\ (db', r)
       = loop_invariant.committed db tid tx rows (spec_upload.clamp raw)
           cashback (length items).
Proof.
  intros H. apply upload_returned in H as (tx & Hq & Hp).
  pose proof (process_items_overflow _ _ _ _ _ _ _ _ Hp) as Hno.
  apply process_items_spec in Hp
    as (rows & raw & cashback & Hst & Hinv & Hfin & Hrun & Hraw & Hcash & Hout).
  exists tx, rows, raw, cashback. cbv zeta. repeat split; assumption.
Qed.

(** X16: what an upload answers is what it stored: the answer names the
    transaction, counts the rows now stored for it, of which there is at
    least one, and carries the score and the cashback written to the
    transaction, the cashback being the one of the transaction's amount
    at that score; the flag that asks for a receipt is cleared, the user
    and the amount are kept. *)
Theorem X16_answer_matches_store settings post autoflush db uid tid content db' r :
  receipts.upload_receipt settings post autoflush db uid tid content
  = (db', receipts.Returned r) ->
  exists tx,
    receipts.query_transaction db uid tid = Some tx
    /\ receipts.r_transaction_id r = tid
    /\ receipts.r_items r
       = length (List.filter (receipts.of_transaction tid) (receipts.receipt_items db'))
    /\ (0 < receipts.r_items r)%nat
    /\ eco_scoring.compute_cashback (receipts.amount tx)
         (Some (receipts.r_eco_score r))
       = Ok (receipts.r_cashback_usd r)
    /\ receipts.transactions db' !! tid
       = Some {| receipts.user_id := receipts.user_id tx;
                 receipts.amount := receipts.amount tx;
                 receipts.eco_score := Some (receipts.r_eco_score r);
                 receipts.needs_receipt := false;
                 receipts.cashback_usd := Some (receipts.r_cashback_usd r) |}.
Proof.
  intros H. apply upload_run in H
    as (tx & rows & raw & cashback & Hq & _ & _ & Hst & Hinv & _ & _ & Hcash
        & [= -> ->]).
  exists tx. split; [exact Hq|]. split; [reflexivity|].
  cbn [receipts.r_items receipts.receipt_items receipts.transactions
       receipts.r_cashback_usd receipts.r_eco_score].
  split; [|split; [|split]].
  - rewrite (filter_added _ _ _ Hinv). symmetry. exact (Forall2_length _ _ _ Hst).
  - pose proof (parse_receipt_nonempty settings post content) as Hne.
    destruct (ocr_google_vision.parse_receipt settings post content);
      [contradiction | simpl; lia].
  - exact Hcash.
  - rewrite lookup_insert_eq. reflexivity.
Qed.

Lemma X16_answer_matches_store_witness :
  exists tx,
    receipts.query_transaction example.db0 7 1 = Some tx
    /\ receipts.r_transaction_id (snd example.processed) = 1
    /\ receipts.r_items (snd example.processed)
       = length (List.filter (receipts.of_transaction 1)
                   (receipts.receipt_items (fst example.processed)))
    /\ (0 < receipts.r_items (snd example.processed))%nat
    /\ eco_scoring.compute_cashback (receipts.amount tx)
         (Some (receipts.r_eco_score (snd example.processed)))
       = Ok (receipts.r_cashback_usd (snd example.processed))
    /\ receipts.transactions (fst example.processed) !! 1
       = Some {| receipts.user_id := receipts.user_id tx;
                 receipts.amount := receipts.amount tx;
                 receipts.eco_score := Some (receipts.r_eco_score (snd example.processed));
                 receipts.needs_receipt := false;
                 receipts.cashback_usd :=
                   Some (receipts.r_cashback_usd (snd example.processed)) |}.
Proof.
  apply (X16_answer_matches_store example.online
           (example.recognizes example.receipt_text) true example.db0 7 1 []).
  vm_compute. reflexivity.
Defined.

Lemma delete_items_again tid kept rows :
  Forall (loop_invariant.row_inv tid) rows ->
  receipts.delete_items tid (receipts.delete_items tid kept ++ rows)
  = receipts.delete_items tid kept.
Proof.
  intros H. unfold receipts.delete_items at 1.
  rewrite (filter_others _ _ _ H). reflexivity.
Qed.

(** X17: an upload that returned, made again with the same receipt and
    the same answer of the recognition service, returns the same answer
    and leaves the state as the first left it: the same transaction, the
    same rows (the rows are the columns that the route sets). *)
Theorem X17_upload_idempotent settings post autoflush db uid tid content db1 r :
  receipts.upload_receipt settings post autoflush db uid tid content
  = (db1, receipts.Returned r) ->
  receipts.upload_receipt settings post autoflush db1 uid tid content
  = (db1, receipts.Returned r).
Proof.
  intros H. apply upload_run in H
    as (tx & rows & raw & cashback & Hq & Hno & Hrun & Hst & Hinv & Hfin & Hraw
        & Hcash & [= -> ->]).
  cbv zeta in *.
  set (score := spec_upload.clamp raw) in *.
  set (tx1 := loop_invariant.scored_transaction tx score cashback).
  set (db1 := {| receipts.transactions := <[tid := tx1]> (receipts.transactions db);
                 receipts.receipt_items :=
                   receipts.delete_items tid (receipts.receipt_items db) ++ rows |}).
  assert (Hu : (receipts.user_id tx =? uid) = true).
  { unfold receipts.query_transaction in Hq.
    destruct (receipts.transactions db !! tid) as [t|]; [|discriminate].
    destruct (receipts.user_id t =? uid) eqn:E; [|discriminate].
    injection Hq as <-. exact E. }
  assert (Hq1 : receipts.query_transaction db1 uid tid = Some tx1).
  { unfold receipts.query_transaction, db1. cbn [receipts.transactions].
    rewrite lookup_insert_eq. cbn [tx1 loop_invariant.scored_transaction receipts.user_id].
    rewrite Hu. reflexivity. }
  pose proof (process_items_eq settings autoflush db1 tid tx1 _ rows Hrun Hinv Hfin)
    as Hp.
  rewrite Hraw in Hp. cbn [mbind result_bind] in Hp. fold score in Hp.
  change (receipts.amount tx1) with (receipts.amount tx) in Hp.
  rewrite Hcash in Hp. cbn [mbind result_bind] in Hp.
  unfold receipts.upload_receipt, receipts.upload_items. rewrite Hq1.
  pose proof (parse_receipt_nonempty settings post content) as Hne.
  destruct (ocr_google_vision.parse_receipt settings post content) as [|it items];
    [contradiction|].
  rewrite Hp. unfold loop_invariant.committed, db1.
  cbn [receipts.transactions receipts.receipt_items].
  rewrite (delete_items_again _ _ _ Hinv), insert_insert_eq.
  reflexivity.
Qed.

Lemma X17_upload_idempotent_witness :
  receipts.upload_receipt example.online (example.recognizes example.receipt_text)
    true (fst example.processed) 7 1 []
  = (fst example.processed, receipts.Returned (snd example.processed)).
Proof.
  apply (X17_upload_idempotent example.online
           (example.recognizes example.receipt_text) true example.db0 7 1 []).
  vm_compute. reflexivity.
Defined.

(** ** The order of the items *)

Lemma stores_functional settings tid row row' it :
  loop_invariant.stores settings tid row it ->
  loop_invariant.stores settings tid row' it ->
  row = row'.
Proof.
  intros (kg & s & Hkg & Hs & ->) (kg' & s' & Hkg' & Hs' & ->).
  rewrite Hkg in Hkg'. injection Hkg' as <-.
  rewrite Hs in Hs'. injection Hs' as <-. reflexivity.
Qed.

Lemma Forall2_stores_functional settings tid rows rows' items :
  Forall2 (loop_invariant.stores settings tid) rows items ->
  Forall2 (loop_invariant.stores settings tid) rows' items ->
  rows = rows'.
Proof.
  intros H. revert rows'. induction H as [|row it rows items Hst _ IH];
    intros rows' H'; inversion H' as [|row' ? rows'' ? Hst' Hrest]; subst.
  - reflexivity.
  - f_equal; [exact (stores_functional _ _ _ _ _ Hst Hst') | apply IH, Hrest].
Qed.

Lemma Forall2_Permutation {A B} (R : A -> B -> Prop) (l1 l2 : list B) :
  Permutation l1 l2 ->
  forall r1, Forall2 R r1 l1 ->
  exists r2, Forall2 R r2 l2 /\ Permutation r1 r2.
Proof.
  induction 1 as [|x l l' _ IH|x y l|l l' l'' _ IH1 _ IH2]; intros r1 H.
  - inversion H; subst. exists []. split; constructor.
  - inversion H as [|a ? r ? Ha Hr]; subst.
    destruct (IH r Hr) as (r2 & H2 & P). exists (a :: r2).
    split; constructor; assumption.
  - inversion H as [|a ? r ? Ha Hr]; subst.
    inversion Hr as [|b ? r' ? Hb Hr']; subst.
    exists (b :: a :: r'). split; [repeat constructor; assumption|].
    apply perm_swap.
  - destruct (IH1 r1 H) as (r' & H' & P1).
    destruct (IH2 r' H') as (r2 & H2 & P2).
    exists r2. split; [exact H2|]. exact (perm_trans P1 P2).
Qed.

Lemma omap_priced_Permutation (rows rows' : list receipts.ReceiptItem) :
  Permutation rows rows' ->
  Permutation (omap spec_upload.priced rows) (omap spec_upload.priced rows').
Proof.
  induction 1 as [|x l l' _ IH|x y l|l l' l'' _ IH1 _ IH2]; simpl.
  - constructor.
  - destruct (spec_upload.priced x); [constructor|]; exact IH.
  - destruct (spec_upload.priced x), (spec_upload.priced y);
      try apply perm_swap; reflexivity.
  - exact (perm_trans IH1 IH2).
Qed.

Lemma Qsum_Permutation (xs ys : list Q) :
  Permutation xs ys -> (spec_upload.Qsum xs == spec_upload.Qsum ys)%Q.
Proof.
  induction 1 as [|x l l' _ IH|x y l|l l' l'' _ IH1 _ IH2]; simpl.
  - reflexivity.
  - rewrite IH. reflexivity.
  - ring.
  - rewrite IH1. exact IH2.
Qed.

Lemma sums_Permutation (rows rows' : list receipts.ReceiptItem) :
  Permutation rows rows' ->
  (spec_upload.price_sum rows == spec_upload.price_sum rows')%Q
  /\ (spec_upload.weighted_sum rows == spec_upload.weighted_sum rows')%Q.
Proof.
  intros P. apply omap_priced_Permutation in P.
  unfold spec_upload.price_sum, spec_upload.weighted_sum.
  split; apply Qsum_Permutation, Permutation_map, P.
Qed.

Lemma positive_prices_Permutation (items items' : list ocr_google_vision.ParsedItem) :
  Permutation items items' ->
  Permutation (spec_route.positive_prices items) (spec_route.positive_prices items').
Proof.
  unfold spec_route.positive_prices.
  induction 1 as [|x l l' _ IH|x y l|l l' l'' _ IH1 _ IH2]; cbn [omap list_omap].
  - constructor.
  - destruct (decimal.of_float <$> ocr_google_vision.price x) as [[p| | |]|];
      try exact IH.
    destruct (0 <? Qnum p); [constructor|]; exact IH.
  - destruct (decimal.of_float <$> ocr_google_vision.price x) as [[p| | |]|],
             (decimal.of_float <$> ocr_google_vision.price y) as [[q| | |]|];
      try destruct (0 <? Qnum p); try destruct (0 <? Qnum q);
      try apply perm_swap; reflexivity.
  - exact (perm_trans IH1 IH2).
Qed.

Lemma forallb_Permutation {A} (f : A -> bool) (l l' : list A) :
  Permutation l l' -> forallb f l = forallb f l'.
Proof.
  induction 1 as [|x l l' _ IH|x y l|l l' l'' _ IH1 _ IH2]; simpl.
  - reflexivity.
  - rewrite IH. reflexivity.
  - destruct (f x), (f y); reflexivity.
  - rewrite IH1. exact IH2.
Qed.

Lemma prices_within_Permutation (e : Z) (items items' : list ocr_google_vision.ParsedItem) :
  Permutation items items' ->
  spec_route.prices_within e items = spec_route.prices_within e items'.
Proof.
  intros P. apply positive_prices_Permutation in P.
  unfold spec_route.prices_within.
  rewrite (forallb_Permutation _ _ _ P). f_equal. f_equal.
  apply eq_true_iff_eq. rewrite !Qle_bool_iff, (Qsum_Permutation _ _ P).
  reflexivity.
Qed.

Lemma aggregated_Permutation (rows rows' : list receipts.ReceiptItem) (raw raw' : Z) :
  Permutation rows rows' ->
  omap spec_upload.priced rows <> [] ->
  spec_upload.aggregated rows raw -> spec_upload.aggregated rows' raw' ->
  raw = raw'.
Proof.
  intros P Hne H H'. destruct (sums_Permutation _ _ P) as [ET EW].
  apply omap_priced_Permutation in P.
  unfold spec_upload.aggregated in H, H'.
  destruct (omap spec_upload.priced rows) as [|ps l]; [contradiction|].
  destruct (omap spec_upload.priced rows') as [|ps' l'];
    [apply Permutation_sym, Permutation_nil in P; discriminate P|].
  apply (nearest_even_unique _ _ _ H).
  destruct H' as [N1 N2]. split; rewrite ET, EW; assumption.
Qed.

(** X18: when the prices fit the precision of the context (the positive
    ones are whole multiples of a power of ten [10^e] that sum to less
    than [10^(27+e)]), the order of the items plays no part in the result:
    a run over the same items in another order returns as well, with the
    same score, cashback and count, writes the same transaction, and
    stores the same rows in the other order. *)
Theorem X18_order_irrelevant settings autoflush db tid tx items items' db1 r e :
  Permutation items items' ->
  spec_route.prices_within e items = true ->
  receipts.process_items settings autoflush db tid tx items = Ok (db1, r) ->
  exists db2,
    receipts.process_items settings autoflush db tid tx items' = Ok (db2, r)
    /\ receipts.transactions db2 = receipts.transactions db1
    /\ Permutation (receipts.receipt_items db1) (receipts.receipt_items db2).
Proof.
  intros P Hprec H.
  pose proof (process_items_overflow _ _ _ _ _ _ _ _ H) as Hno.
  assert (Hno' : spec_route.no_overflow items').
  { unfold spec_route.no_overflow. rewrite <- P. exact Hno. }
  apply process_items_spec in H
    as (rows & raw & cashback & Hst & Hinv & Hfin & _ & Hraw & Hcash & [= -> ->]).
  destruct (process_items_run settings autoflush db tid tx _ Hno')
    as (rows' & _ & Hst' & Hinv' & Hfin' & Hp').
  destruct (Forall2_Permutation _ _ _ P rows Hst) as (rows2 & Hst2 & Prows).
  rewrite (Forall2_stores_functional _ _ _ _ _ Hst2 Hst') in Prows.
  assert (Hraw' : loop_invariant.score_of_rows rows' = Ok raw).
  { destruct (omap spec_upload.priced rows) as [|ps l] eqn:Ep.
    - rewrite (score_of_rows_unpriced rows Ep) in Hraw. injection Hraw as <-.
      apply score_of_rows_unpriced.
      pose proof (omap_priced_Permutation _ _ Prows) as Pp. rewrite Ep in Pp.
      apply Permutation_nil in Pp. exact Pp.
    - pose proof Hprec as Hprec'.
      rewrite (prices_within_Permutation e _ _ P) in Hprec'.
      rewrite <- (stores_within _ _ _ _ e Hst) in Hprec.
      rewrite <- (stores_within _ _ _ _ e Hst') in Hprec'.
      destruct (score_of_rows_exact e tid rows Hinv Hfin Hprec)
        as (raw1 & Hraw1 & Hagg1 & _).
      destruct (score_of_rows_exact e tid rows' Hinv' Hfin' Hprec')
        as (raw2 & Hraw2 & Hagg2 & _).
      assert (raw1 = raw) by congruence. subst raw1.
      rewrite Hraw2. f_equal. symmetry.
      apply (aggregated_Permutation rows rows' raw raw2 Prows);
        [rewrite Ep; discriminate | exact Hagg1 | exact Hagg2]. }
  rewrite Hraw' in Hp'. cbn [mbind result_bind] in Hp'.
  rewrite Hcash in Hp'. cbn [mbind result_bind] in Hp'.
  rewrite <- (Permutation_length P) in Hp'.
  eexists. split; [exact Hp'|]. split; [reflexivity|].
  cbn [receipts.receipt_items]. apply Permutation_app_head, Prows.
Qed.

Lemma X18_order_irrelevant_witness :
  exists db2,
    receipts.process_items example.online true example.db0 1 example.tx0
      (rev (ocr_google_vision.parse_receipt example.online
              (example.recognizes example.receipt_text) []))
    = Ok (db2, snd example.processed)
    /\ receipts.transactions db2 = receipts.transactions (fst example.processed)
    /\ Permutation (receipts.receipt_items (fst example.processed))
         (receipts.receipt_items db2).
Proof.
  apply (X18_order_irrelevant example.online true example.db0 1 example.tx0
           (ocr_google_vision.parse_receipt example.online
              (example.recognizes example.receipt_text) [])
           _ _ _ (-2)).
  - apply Permutation_rev.
  - vm_compute. reflexivity.
  - vm_compute. reflexivity.
Defined.

(** Beyond the precision of the context the order does matter: the
    prices 3.5e29, 6.5e29, 400 and 400 with the scores 10, 0, 0 and 0
    give the score 4 in this order and 3 with the two small prices
    first. *)
Lemma order_matters_beyond_precision :
  (fun out => receipts.r_eco_score (snd out))
    <$> receipts.process_items example.offline true example.db0 1 example.tx0
          (example.large_pair ++ example.small_pair)
  = Ok 4
  /\ (fun out => receipts.r_eco_score (snd out))
       <$> receipts.process_items example.offline true example.db0 1 example.tx0
             (example.small_pair ++ example.large_pair)
     = Ok 3.
Proof. split; vm_compute; reflexivity. Qed.

(** ** Receipts without a price *)

Lemma for_each_unpriced settings tid items :
  Forall (fun it => receipts.positive_price (ocr_google_vision.price it) = None)
    items ->
  forall st st',
    receipts.for_each (receipts.loop_body settings tid) items st = Ok st' ->
    receipts.acc st' = receipts.acc st.
Proof.
  induction 1 as [|it items Hit _ IH]; intros st st' H;
    cbn [receipts.for_each] in H.
  - injection H as <-. reflexivity.
  - destruct (receipts.loop_body settings tid st it) as [st1|] eqn:E;
      [|discriminate H].
    cbn [mbind result_bind] in H. rewrite (IH _ _ H).
    destruct (loop_body_stores _ _ _ _ _ E) as (row & score & _ & _ & _ & Hacc).
    unfold receipts.accumulate in Hacc. rewrite Hit in Hacc.
    injection Hacc as <-. reflexivity.
Qed.

(** X19: a receipt on which no item has a positive price, the prices
    being absent or zero, gives the transaction the score 5, whatever the
    names and however many the items. *)
Theorem X19_unpriced_receipt_scores_five settings autoflush db tid tx items db' r :
  Forall (fun it => receipts.positive_price (ocr_google_vision.price it) = None)
    items ->
  receipts.process_items settings autoflush db tid tx items = Ok (db', r) ->
  receipts.r_eco_score r = 5
  /\ exists tx', receipts.transactions db' !! tid = Some tx'
                 /\ receipts.eco_score tx' = Some 5.
Proof.
  intros Hun H.
  apply process_items_spec in H
    as (rows & raw & cashback & _ & _ & _ & Hrun & Hraw & _ & [= -> ->]).
  apply (for_each_unpriced _ _ _ Hun) in Hrun.
  cbn [receipts.acc] in Hrun. injection Hrun as ET _.
  unfold loop_invariant.score_of_rows in Hraw. rewrite ET in Hraw.
  injection Hraw as <-.
  split; [reflexivity|]. eexists.
  cbn [receipts.transactions]. rewrite lookup_insert_eq.
  split; reflexivity.
Qed.

Lemma X19_unpriced_receipt_scores_five_witness :
  receipts.r_eco_score (snd example_uploads.unpriced_run) = 5
  /\ exists tx',
       receipts.transactions (fst example_uploads.unpriced_run) !! 1 = Some tx'
       /\ receipts.eco_score tx' = Some 5.
Proof.
  apply (X19_unpriced_receipt_scores_five example.offline true example.db0 1
           example.tx0 example_uploads.unpriced_items).
  - repeat constructor.
  - vm_compute. reflexivity.
Defined.

(** X20: with recognition switched off, or without a credential for it,
    an upload for a transaction of the user stores the one row of the
    unknown item, with the footprint 0.5 and the score 5, in place of the
    rows of the transaction, and answers the score 5, the cashback of the
    amount at that score and the count 1; it raises, and stores nothing,
    only if that cashback is not defined, which does not happen for an
    amount in whole cents of at most a billion; the image plays no
    part. *)
Theorem X20_upload_without_recognition settings post autoflush db uid tid content tx :
  use_real_ocr settings = false
  \/ key_configured (google_vision_api_key settings) = false ->
  receipts.query_transaction db uid tid = Some tx ->
  receipts.upload_receipt settings post autoflush db uid tid content
  = match eco_scoring.compute_cashback (receipts.amount tx) (Some 5) with
    | Ok cashback =>
        ({| receipts.transactions :=
              <[tid := {| receipts.user_id := receipts.user_id tx;
                          receipts.amount := receipts.amount tx;
                          receipts.eco_score := Some 5;
                          receipts.needs_receipt := false;
                          receipts.cashback_usd := Some cashback |}]>
                (receipts.transactions db);
            receipts.receipt_items :=
              receipts.delete_items tid (receipts.receipt_items db)
              ++ [spec_route.unknown_row tid] |},
         receipts.Returned
           {| receipts.r_transaction_id := tid;
              receipts.r_eco_score := 5;
              receipts.r_cashback_usd := cashback;
              receipts.r_items := 1 |})
    | Raise e => (db, receipts.Unhandled e)
    end
  /\ (spec.in_cents (receipts.amount tx) = true ->
      exists cashback,
        eco_scoring.compute_cashback (receipts.amount tx) (Some 5) = Ok cashback).
Proof.
  intros Hoff Hq.
  split; [|intros Hc; destruct (pays_exact _ (Some 5) Hc) as (d & _ & -> & _); eauto].
  assert (Hitems : ocr_google_vision.parse_receipt settings post content
                   = spec_extractor.sentinel).
  { unfold ocr_google_vision.parse_receipt.
    destruct Hoff as [-> | ->]; [reflexivity|].
    rewrite orb_true_r. reflexivity. }
  assert (Hno : spec_route.no_overflow spec_extractor.sentinel).
  { repeat constructor. discriminate. }
  destruct (process_items_run settings autoflush db tid tx _ Hno)
    as (rows & Hrun & _ & _ & _ & Hp).
  assert (Hone : receipts.for_each (receipts.loop_body settings tid)
                   spec_extractor.sentinel
                   {| receipts.added := []; receipts.acc := receipts.no_sums |}
                 = Ok {| receipts.added := [spec_route.unknown_row tid];
                         receipts.acc := receipts.no_sums |}).
  { unfold spec_extractor.sentinel.
    cbn [receipts.for_each]. unfold receipts.loop_body.
    rewrite estimate_eq_mock. vm_compute. reflexivity. }
  rewrite Hone in Hrun. injection Hrun as <- _ _.
  change (loop_invariant.score_of_rows [spec_route.unknown_row tid])
    with (@Ok Z 5) in Hp.
  cbn [mbind result_bind] in Hp.
  change (spec_upload.clamp 5) with 5 in Hp.
  unfold receipts.upload_receipt, receipts.upload_items.
  rewrite Hq, Hitems. unfold spec_extractor.sentinel in *. rewrite Hp.
  destruct (eco_scoring.compute_cashback (receipts.amount tx) (Some 5));
    reflexivity.
Qed.

Lemma X20_upload_without_recognition_witness :
  receipts.upload_receipt example.offline example.unreachable true example.db0 7 1 []
  = match eco_scoring.compute_cashback (receipts.amount example.tx0) (Some 5) with
    | Ok cashback =>
        ({| receipts.transactions :=
              <[1 := {| receipts.user_id := receipts.user_id example.tx0;
                        receipts.amount := receipts.amount example.tx0;
                        receipts.eco_score := Some 5;
                        receipts.needs_receipt := false;
                        receipts.cashback_usd := Some cashback |}]>
                (receipts.transactions example.db0);
            receipts.receipt_items :=
              receipts.delete_items 1 (receipts.receipt_items example.db0)
              ++ [spec_route.unknown_row 1] |},
         receipts.Returned
           {| receipts.r_transaction_id := 1;
              receipts.r_eco_score := 5;
              receipts.r_cashback_usd := cashback;
              receipts.r_items := 1 |})
    | Raise e => (example.db0, receipts.Unhandled e)
    end.
Proof.
  apply (X20_upload_without_recognition example.offline example.unreachable true
           example.db0 7 1 [] example.tx0).
  - left. reflexivity.
  - vm_compute. reflexivity.
Defined.

(** ** Uploads for two transactions *)

Lemma upload_explicit settings post autoflush db uid tid content tx rows raw cashback :
  receipts.query_transaction db uid tid = Some tx ->
  receipts.for_each (receipts.loop_body settings tid)
    (ocr_google_vision.parse_receipt settings post content)
    {| receipts.added := []; receipts.acc := receipts.no_sums |}
  = Ok {| receipts.added := rows;
          receipts.acc :=
            {| receipts.total_price :=
                 decimal.Finite (fst (loop_invariant.context_sums rows));
               receipts.weighted_score_sum :=
                 decimal.Finite (snd (loop_invariant.context_sums rows)) |} |} ->
  Forall (loop_invariant.row_inv tid) rows ->
  Forall loop_invariant.finite_price rows ->
  loop_invariant.score_of_rows rows = Ok raw ->
  eco_scoring.compute_cashback (receipts.amount tx) (Some (spec_upload.clamp raw))
  = Ok cashback ->
  receipts.upload_receipt settings post autoflush db uid tid content
  = ({| receipts.transactions :=
          <[tid := loop_invariant.scored_transaction tx (spec_upload.clamp raw)
                     cashback]>
            (receipts.transactions db);
        receipts.receipt_items :=
          receipts.delete_items tid (receipts.receipt_items db) ++ rows |},
     receipts.Returned
       {| receipts.r_transaction_id := tid;
          receipts.r_eco_score := spec_upload.clamp raw;
          receipts.r_cashback_usd := cashback;
          receipts.r_items :=
            length (ocr_google_vision.parse_receipt settings post content) |}).
Proof.
  intros Hq Hrun Hinv Hfin Hraw Hcash.
  pose proof (process_items_eq settings autoflush db tid tx _ rows Hrun Hinv Hfin)
    as Hp.
  rewrite Hraw in Hp. cbn [mbind result_bind] in Hp.
  rewrite Hcash in Hp. cbn [mbind result_bind] in Hp.
  unfold receipts.upload_receipt, receipts.upload_items. rewrite Hq.
  pose proof (parse_receipt_nonempty settings post content) as Hne.
  destruct (ocr_google_vision.parse_receipt settings post content) as [|it items];
    [contradiction|].
  rewrite Hp. reflexivity.
Qed.

Lemma query_other db uid tid other tx' rows :
  other <> tid ->
  receipts.query_transaction
    {| receipts.transactions := <[other := tx']> (receipts.transactions db);
       receipts.receipt_items := rows |} uid tid
  = receipts.query_transaction db uid tid.
Proof.
  intros H. unfold receipts.query_transaction. cbn [receipts.transactions].
  rewrite lookup_insert_ne by exact H. reflexivity.
Qed.

Lemma delete_items_others tid other rows :
  other <> tid ->
  Forall (loop_invariant.row_inv other) rows ->
  receipts.delete_items tid rows = rows.
Proof.
  intros Hne H. unfold receipts.delete_items.
  induction H as [|row rows [Ht _] _ IH]; simpl; [reflexivity|].
  unfold receipts.of_transaction at 1. rewrite Ht.
  destruct (Z.eqb_spec other tid) as [E|_]; [contradiction|].
  simpl. f_equal. exact IH.
Qed.

Lemma delete_items_comm a b rows :
  receipts.delete_items a (receipts.delete_items b rows)
  = receipts.delete_items b (receipts.delete_items a rows).
Proof.
  unfold receipts.delete_items.
  induction rows as [|row rows IH]; simpl; [reflexivity|].
  destruct (receipts.of_transaction a row) eqn:Ea,
           (receipts.of_transaction b row) eqn:Eb;
    simpl; rewrite ?Ea, ?Eb; simpl; rewrite ?IH; reflexivity.
Qed.

(** X21: uploads for two different transactions do not interfere: made in
    the other order they both return as well, each with the answer it had,
    and leave the same transactions and the same rows, up to the order of
    the rows. *)
Theorem X21_uploads_commute
    settingsA postA autoflushA uidA tidA contentA
    settingsB postB autoflushB uidB tidB contentB
    db db1 db2 rA rB :
  tidA <> tidB ->
  receipts.upload_receipt settingsA postA autoflushA db uidA tidA contentA
  = (db1, receipts.Returned rA) ->
  receipts.upload_receipt settingsB postB autoflushB db1 uidB tidB contentB
  = (db2, receipts.Returned rB) ->
  exists db1' db2',
    receipts.upload_receipt settingsB postB autoflushB db uidB tidB contentB
    = (db1', receipts.Returned rB)
    /\ receipts.upload_receipt settingsA postA autoflushA db1' uidA tidA contentA
       = (db2', receipts.Returned rA)
    /\ receipts.transactions db2' = receipts.transactions db2
    /\ Permutation (receipts.receipt_items db2) (receipts.receipt_items db2').
Proof.
  intros Hne HA HB.
  apply upload_run in HA
    as (txA & rowsA & rawA & cA & HqA & _ & HrunA & _ & HinvA & HfinA & HrawA
        & HcashA & [= -> ->]).
  apply upload_run in HB
    as (txB & rowsB & rawB & cB & HqB & _ & HrunB & _ & HinvB & HfinB & HrawB
        & HcashB & [= -> ->]).
  cbv zeta in *.
  rewrite query_other in HqB by exact Hne.
  pose proof (upload_explicit settingsB postB autoflushB db uidB tidB contentB
                txB rowsB rawB cB HqB HrunB HinvB HfinB HrawB HcashB) as HB'.
  eexists _, _. split; [exact HB'|].
  split; [|split].
  - apply (upload_explicit settingsA postA autoflushA _ uidA tidA contentA
             txA rowsA rawA cA);
      [|exact HrunA | exact HinvA | exact HfinA | exact HrawA | exact HcashA].
    rewrite query_other by (intros E; exact (Hne (eq_sym E))). exact HqA.
  - cbn [receipts.transactions]. apply insert_insert_ne. exact Hne.
  - cbn [receipts.receipt_items]. unfold receipts.delete_items at 1 3.
    rewrite !List.filter_app.
    fold (receipts.delete_items tidB rowsA) (receipts.delete_items tidA rowsB)
         (receipts.delete_items tidB
            (receipts.delete_items tidA (receipts.receipt_items db)))
         (receipts.delete_items tidA
            (receipts.delete_items tidB (receipts.receipt_items db))).
    rewrite (delete_items_others tidB tidA rowsA Hne HinvA).
    rewrite (delete_items_others tidA tidB rowsB
               (fun E => Hne (eq_sym E)) HinvB).
    rewrite (delete_items_comm tidB tidA), <- !app_assoc.
    apply Permutation_app_head, Permutation_app_comm.
Qed.

Lemma X21_uploads_commute_witness :
  exists db1' db2',
    receipts.upload_receipt example.offline example.unreachable false
      example_uploads.two_db 7 2 []
    = (db1', receipts.Returned (example_uploads.answer (snd example_uploads.second)))
    /\ receipts.upload_receipt example.online
         (example.recognizes example.receipt_text) true db1' 7 1 []
       = (db2', receipts.Returned (example_uploads.answer (snd example_uploads.first)))
    /\ receipts.transactions db2'
       = receipts.transactions (fst example_uploads.second)
    /\ Permutation (receipts.receipt_items (fst example_uploads.second))
         (receipts.receipt_items db2').
Proof.
  apply (X21_uploads_commute
           example.online (example.recognizes example.receipt_text) true 7 1 []
           example.offline example.unreachable false 7 2 []
           example_uploads.two_db (fst example_uploads.first)).
  - discriminate.
  - vm_compute. reflexivity.
  - vm_compute. reflexivity.
Defined.

(** ** The category column of a CSV row *)

Lemma contains_char (c : ascii) (x : str) :
  pystr.contains [c] x = true <-> In c x.
Proof.
  rewrite contains_spec. split.
  - intros (pre & post & ->). apply in_or_app. right. left. reflexivity.
  - intros H. apply in_split in H as (pre & post & ->). exists pre, post. reflexivity.
Qed.

Lemma split_from_spec (sep : ascii) (x : str) :
  forall cur,
    Forall (fun p => ~ In sep p) (tl (transactions.split_from sep cur x))
    /\ exists p, hd [] (transactions.split_from sep cur x) = rev cur ++ p
                 /\ ~ In sep p.
Proof.
  induction x as [|c x IH]; intros cur; simpl.
  - split; [constructor|]. exists []. rewrite app_nil_r. auto.
  - destruct (Ascii.eqb c sep) eqn:E.
    + simpl. split.
      * destruct (IH []) as (Ht & p & Hh & Hp).
        destruct (transactions.split_from sep [] x) as [|q l]; [constructor|].
        simpl in *. subst q. constructor; assumption.
      * exists []. rewrite app_nil_r. auto.
    + destruct (IH (c :: cur)) as (Ht & p & Hh & Hp).
      split; [exact Ht|]. exists (c :: p). split.
      * rewrite Hh. simpl. rewrite <- app_assoc. reflexivity.
      * intros [C|C]; [|exact (Hp C)].
        subst c. rewrite Ascii.eqb_refl in E. discriminate.
Qed.

Lemma split_no_sep (sep : ascii) (x : str) :
  Forall (fun p => ~ In sep p) (transactions.split sep x).
Proof.
  unfold transactions.split.
  destruct (split_from_spec sep x []) as (Ht & p & Hh & Hp).
  destruct (transactions.split_from sep [] x) as [|q l]; [constructor|].
  simpl in *. subst q. constructor; assumption.
Qed.

Lemma lstrip_incl (drop : ascii -> bool) (x : str) (c : ascii) :
  In c (pystr.lstrip drop x) -> In c x.
Proof.
  destruct (lstrip_split drop x) as (pre & Hx & _).
  intros H. rewrite Hx. apply in_or_app. right. exact H.
Qed.

Lemma strip_incl (drop : ascii -> bool) (x : str) (c : ascii) :
  In c (pystr.strip drop x) -> In c x.
Proof.
  unfold pystr.strip, pystr.rstrip. intros H.
  apply in_rev, lstrip_incl, in_rev in H. exact (lstrip_incl _ _ _ H).
Qed.

Lemma stripped_kept (sep : ascii) (parts : list str) :
  Forall (fun p => ~ In sep p) parts ->
  Forall (fun c => spec_csv.kept c /\ ~ In sep c) (transactions.stripped parts).
Proof.
  intros H. unfold transactions.stripped.
  induction H as [|p parts Hp _ IH]; simpl; [constructor|].
  destruct (pystr.strip pystr.isspace p) as [|d s] eqn:E; simpl; [exact IH|].
  constructor; [|exact IH]. rewrite E. split.
  - split; [discriminate|]. rewrite <- E. apply strip_trimmed.
  - intros C. apply Hp. apply (strip_incl pystr.isspace). rewrite E. exact C.
Qed.

(** X22: the category of a CSV row is absent or a list that is not empty;
    each of its entries is not empty, has no white space at either end
    and does not hold the separator that the column was split at: the bar
    when the column holds a bar, the comma otherwise. *)
Theorem X22_csv_categories_kept (field : option str) :
  match transactions.csv_categories field with
  | None => True
  | Some cats =>
      cats <> []
      /\ Forall (fun c =>
                   spec_csv.kept c
                   /\ ~ In (spec_csv.separator
                              (match field with Some x => x | None => [] end)) c)
           cats
  end.
Proof.
  unfold transactions.csv_categories, spec_csv.separator.
  set (cat_raw := match field with Some x => x | None => [] end).
  destruct (pystr.contains (pystr.txt "|") cat_raw).
  - pose proof (stripped_kept _ _ (split_no_sep "|" cat_raw)) as H.
    destruct (transactions.stripped _); [exact I|]. split; [discriminate | exact H].
  - pose proof (stripped_kept _ _ (split_no_sep "," cat_raw)) as H.
    destruct (transactions.stripped _); [exact I|]. split; [discriminate | exact H].
Qed.

Lemma split_from_clean (sep : ascii) (p : str) :
  ~ In sep p ->
  forall cur, transactions.split_from sep cur p = [rev cur ++ p].
Proof.
  induction p as [|c p IH]; intros H cur; simpl.
  - rewrite app_nil_r. reflexivity.
  - destruct (Ascii.eqb c sep) eqn:E.
    + apply Ascii.eqb_eq in E. subst c. exfalso. apply H. left. reflexivity.
    + rewrite IH; [|intros C; apply H; right; exact C].
      simpl. rewrite <- app_assoc. reflexivity.
Qed.

Lemma split_from_app (sep : ascii) (p rest : str) :
  ~ In sep p ->
  forall cur,
    transactions.split_from sep cur (p ++ sep :: rest)
    = (rev cur ++ p) :: transactions.split_from sep [] rest.
Proof.
  induction p as [|c p IH]; intros H cur; simpl.
  - rewrite Ascii.eqb_refl, app_nil_r. reflexivity.
  - destruct (Ascii.eqb c sep) eqn:E.
    + apply Ascii.eqb_eq in E. subst c. exfalso. apply H. left. reflexivity.
    + rewrite IH; [|intros C; apply H; right; exact C].
      simpl. rewrite <- app_assoc. reflexivity.
Qed.

Lemma split_join (sep : ascii) (parts : list str) :
  parts <> [] -> Forall (fun p => ~ In sep p) parts ->
  transactions.split sep (spec_text.join sep parts) = parts.
Proof.
  intros Hne H. unfold transactions.split.
  induction H as [|p parts Hp Hall IH]; [contradiction|].
  destruct parts as [|q parts].
  - simpl. exact (split_from_clean sep p Hp []).
  - change (spec_text.join sep (p :: q :: parts))
      with (p ++ sep :: spec_text.join sep (q :: parts)).
    rewrite (split_from_app sep p _ Hp []). simpl. f_equal.
    apply IH. discriminate.
Qed.

Lemma stripped_fix (parts : list str) :
  Forall spec_csv.kept parts -> transactions.stripped parts = parts.
Proof.
  unfold transactions.stripped.
  induction 1 as [|p parts [Hne Ht] _ IH]; simpl; [reflexivity|].
  rewrite (strip_fix _ _ Ht). destruct p as [|c p]; [contradiction|].
  simpl. rewrite (strip_fix _ _ Ht). f_equal. exact IH.
Qed.

Lemma join_no_char (c sep : ascii) (parts : list str) :
  c <> sep -> Forall (fun p => ~ In c p) parts ->
  ~ In c (spec_text.join sep parts).
Proof.
  intros Hc H. induction H as [|p parts Hp _ IH]; [intros []|].
  destruct parts as [|q parts]; [exact Hp|].
  change (spec_text.join sep (p :: q :: parts))
    with (p ++ sep :: spec_text.join sep (q :: parts)).
  intros C. apply in_app_or in C as [C|[C|C]]; [exact (Hp C)| |exact (IH C)].
  exact (Hc (eq_sym C)).
Qed.

(** X23: categories written one after the other with commas between
    them, or with bars, are read back as they are: for a list that is
    not empty, of entries that are not empty, have no white space at
    either end and hold neither bar nor comma. *)
Theorem X23_csv_categories_round_trip (cats : list str) :
  cats <> [] ->
  Forall (fun c => spec_csv.kept c /\ ~ In "|"%char c /\ ~ In ","%char c) cats ->
  transactions.csv_categories (Some (spec_text.join "," cats)) = Some cats
  /\ transactions.csv_categories (Some (spec_text.join "|" cats)) = Some cats.
Proof.
  intros Hne H.
  assert (Hk : Forall spec_csv.kept cats)
    by (eapply List.Forall_impl; [|exact H]; simpl; tauto).
  assert (Hb : Forall (fun p => ~ In "|"%char p) cats)
    by (eapply List.Forall_impl; [|exact H]; simpl; tauto).
  assert (Hc : Forall (fun p => ~ In ","%char p) cats)
    by (eapply List.Forall_impl; [|exact H]; simpl; tauto).
  unfold transactions.csv_categories. split.
  - assert (N : pystr.contains (pystr.txt "|") (spec_text.join "," cats) = false).
    { destruct (pystr.contains _ _) eqn:E; [|reflexivity].
      apply (contains_char "|") in E. exfalso.
      exact (join_no_char "|" "," cats ltac:(discriminate) Hb E). }
    rewrite N, (split_join "," cats Hne Hc), (stripped_fix _ Hk).
    destruct cats; [contradiction|reflexivity].
  - destruct (pystr.contains (pystr.txt "|") (spec_text.join "|" cats)) eqn:E.
    + rewrite (split_join "|" cats Hne Hb), (stripped_fix _ Hk).
      destruct cats; [contradiction|reflexivity].
    + destruct cats as [|c [|d cats]]; [contradiction| |].
      * change (spec_text.join "|" [c]) with (spec_text.join "," [c]).
        rewrite (split_join "," [c] Hne Hc), (stripped_fix _ Hk). reflexivity.
      * exfalso.
        assert (T : pystr.contains (pystr.txt "|")
                      (spec_text.join "|" (c :: d :: cats)) = true).
        { apply (contains_char "|").
          change (spec_text.join "|" (c :: d :: cats))
            with (c ++ "|"%char :: spec_text.join "|" (d :: cats)).
          apply in_or_app. right. left. reflexivity. }
        congruence.
Qed.

Lemma X23_csv_categories_round_trip_witness :
  transactions.csv_categories
    (Some (spec_text.join "," [pystr.txt "Food and Drink"; pystr.txt "Coffee Shop"]))
  = Some [pystr.txt "Food and Drink"; pystr.txt "Coffee Shop"]
  /\ transactions.csv_categories
       (Some (spec_text.join "|" [pystr.txt "Food and Drink"; pystr.txt "Coffee Shop"]))
     = Some [pystr.txt "Food and Drink"; pystr.txt "Coffee Shop"].
Proof.
  apply X23_csv_categories_round_trip; [discriminate|].
  assert (K : forall x : str,
             pystr.strip pystr.isspace x = x -> x <> [] ->
             forallb (fun c => negb (Ascii.eqb c "|") && negb (Ascii.eqb c ",")) x = true ->
             spec_csv.kept x /\ ~ In "|"%char x /\ ~ In ","%char x).
  { intros x Hs Hne Hf. split; [split; [exact Hne|]|].
    - rewrite <- Hs. apply strip_trimmed.
    - rewrite forallb_forall in Hf.
      split; intros C; specialize (Hf _ C); simpl in Hf; discriminate. }
  constructor; [|constructor; [|constructor]]; apply K;
    solve [reflexivity | discriminate].
Defined.

(** ** Items without a price, and the range of the score *)

Lemma for_each_app {A S} (body : S -> A -> result S) (xs ys : list A) :
  forall st,
    receipts.for_each body (xs ++ ys) st
    = (st' ← receipts.for_each body xs st; receipts.for_each body ys st').
Proof.
  induction xs as [|x xs IH]; intros st; cbn [app receipts.for_each].
  - reflexivity.
  - destruct (body st x) as [st1|e]; cbn [mbind result_bind]; [apply IH|reflexivity].
Qed.

Lemma unpriced_no_overflow (items : list ocr_google_vision.ParsedItem) :
  Forall (fun it => receipts.positive_price (ocr_google_vision.price it) = None)
    items ->
  spec_route.no_overflow items.
Proof.
  apply List.Forall_impl. intros it H E. rewrite E in H. discriminate H.
Qed.

(** X24: items without a positive price do not count: a run over the
    items of a run that returned, with such items after them, returns as
    well, with the same score and the same cashback; only the count
    grows. *)
Theorem X24_unpriced_items_do_not_count
    settings autoflush db tid tx items extra db1 r1 :
  Forall (fun it => receipts.positive_price (ocr_google_vision.price it) = None)
    extra ->
  receipts.process_items settings autoflush db tid tx items = Ok (db1, r1) ->
  exists db2 r2,
    receipts.process_items settings autoflush db tid tx (items ++ extra)
    = Ok (db2, r2)
    /\ receipts.r_eco_score r2 = receipts.r_eco_score r1
    /\ receipts.r_cashback_usd r2 = receipts.r_cashback_usd r1
    /\ receipts.r_items r2 = (receipts.r_items r1 + length extra)%nat
    /\ receipts.transactions db2 = receipts.transactions db1.
Proof.
  intros Hun H.
  pose proof (process_items_overflow _ _ _ _ _ _ _ _ H) as Hno.
  assert (Hno' : spec_route.no_overflow (items ++ extra)).
  { apply Forall_app. split; [exact Hno | exact (unpriced_no_overflow _ Hun)]. }
  apply process_items_spec in H
    as (rows & raw & cashback & _ & _ & _ & Hrun & Hraw & Hcash & [= -> ->]).
  destruct (process_items_run settings autoflush db tid tx _ Hno')
    as (rows' & Hrun' & _ & _ & _ & Hp').
  rewrite for_each_app, Hrun in Hrun'. cbn [mbind result_bind] in Hrun'.
  apply (for_each_unpriced _ _ _ Hun) in Hrun'.
  cbn [receipts.acc] in Hrun'. injection Hrun' as ET EW.
  assert (Hraw' : loop_invariant.score_of_rows rows' = Ok raw).
  { rewrite <- Hraw. unfold loop_invariant.score_of_rows. rewrite ET, EW.
    reflexivity. }
  rewrite Hraw' in Hp'. cbn [mbind result_bind] in Hp'.
  rewrite Hcash in Hp'. cbn [mbind result_bind] in Hp'.
  eexists _, _. split; [exact Hp'|].
  cbn [receipts.r_eco_score receipts.r_cashback_usd receipts.r_items
       receipts.transactions].
  rewrite length_app. repeat split.
Qed.

Lemma X24_unpriced_items_do_not_count_witness :
  exists db2 r2,
    receipts.process_items example.online true example.db0 1 example.tx0
      (ocr_google_vision.parse_receipt example.online
         (example.recognizes example.receipt_text) []
       ++ example_uploads.unpriced_items)
    = Ok (db2, r2)
    /\ receipts.r_eco_score r2 = receipts.r_eco_score (snd example.processed)
    /\ receipts.r_cashback_usd r2 = receipts.r_cashback_usd (snd example.processed)
    /\ receipts.r_items r2
       = (receipts.r_items (snd example.processed)
          + length example_uploads.unpriced_items)%nat
    /\ receipts.transactions db2 = receipts.transactions (fst example.processed).
Proof.
  apply (X24_unpriced_items_do_not_count example.online true example.db0 1
           example.tx0).
  - repeat constructor.
  - vm_compute. reflexivity.
Defined.

Lemma weighted_between (lo hi : Z) (l : list (Q * Z)) :
  Forall (fun ps => (0 < fst ps)%Q /\ lo <= snd ps <= hi) l ->
  (inject_Z lo * spec_upload.Qsum (map fst l)
   <= spec_upload.Qsum (map (fun ps => fst ps * inject_Z (snd ps)) l)
   <= inject_Z hi * spec_upload.Qsum (map fst l))%Q.
Proof.
  induction 1 as [|[p s] l [Hp [Hl Hh]] _ [IH1 IH2]]; simpl.
  - split; ring_simplify; apply Qle_refl.
  - simpl in Hp, Hl, Hh. rewrite Zle_Qle in Hl, Hh. split; nra.
Qed.

Lemma nearest_even_between (x : Q) (n lo hi : Z) :
  spec.nearest_even x n ->
  (inject_Z lo <= x <= inject_Z hi)%Q -> lo <= n <= hi.
Proof.
  intros [H _] [Hl Hh]. apply Qabs_Qle_condition in H.
  assert (A : (inject_Z lo < inject_Z (n + 1))%Q) by (push_inject; lra).
  assert (B : (inject_Z n < inject_Z (hi + 1))%Q) by (push_inject; lra).
  rewrite <- Zlt_Qlt in A, B. lia.
Qed.

(** X25: when a stored row has a positive price and the positive prices
    fit the precision of the context (whole multiples of a power of ten
    [10^e] that sum to less than [10^(27+e)]), the score of the
    transaction lies between the lowest and the highest score of the rows
    with a positive price: the weighted mean and its rounding never leave
    the range of what they average. *)
Theorem X25_score_within_item_scores
    settings post autoflush db uid tid content db' r (e lo hi : Z) :
  receipts.upload_receipt settings post autoflush db uid tid content
  = (db', receipts.Returned r) ->
  let stored :=
    List.filter (receipts.of_transaction tid) (receipts.receipt_items db') in
  spec_upload.within_precision e stored = true ->
  (exists row p s, In row stored /\ spec_upload.priced row = Some (p, s)) ->
  (forall row p s, In row stored -> spec_upload.priced row = Some (p, s) ->
                   lo <= s <= hi) ->
  lo <= receipts.r_eco_score r <= hi.
Proof.
  intros H stored Hprec (row0 & p0 & s0 & Hin0 & Hp0) Hall.
  destruct (upload_stored _ _ _ _ _ _ _ _ _ H)
    as (_ & Hw & _ & tx & raw & cashback & _ & Hinv & Hfin & Hraw & _ & Hout).
  fold stored in Hw, Hinv, Hfin, Hraw.
  destruct (score_of_rows_exact e tid stored Hinv Hfin Hprec)
    as (raw' & Hraw' & Hagg & _).
  assert (raw' = raw) as -> by congruence.
  assert (Hr : receipts.r_eco_score r = spec_upload.clamp raw)
    by (injection Hout as _ ->; reflexivity).
  assert (Hs0 : 0 <= s0 <= 10).
  { rewrite Forall_forall in Hw.
    destruct (Hw row0 ltac:(apply list_elem_of_In; exact Hin0))
      as [(s & Hs & Hrange) _].
    unfold spec_upload.priced in Hp0. rewrite Hs in Hp0.
    destruct (receipts.item_price row0) as [[q| | |]|]; try discriminate.
    destruct (0 <? Qnum q); [|discriminate]. injection Hp0 as _ <-. exact Hrange. }
  pose proof (Hall _ _ _ Hin0 Hp0) as Hb0.
  assert (Hps : Forall (fun ps => (0 < fst ps)%Q /\ lo <= snd ps <= hi)
                  (omap spec_upload.priced stored)).
  { apply Forall_forall. intros [p s] Hin.
    apply list_elem_of_omap in Hin as (row & Hrow & Hp).
    split; [exact (priced_pos _ _ _ Hp)|].
    apply (Hall row p s); [apply list_elem_of_In, Hrow | exact Hp]. }
  pose proof (weighted_between lo hi _ Hps) as [Wl Wh].
  pose proof (price_sum_sign stored) as Hsign.
  unfold spec_upload.aggregated in Hagg.
  fold (spec_upload.price_sum stored) (spec_upload.weighted_sum stored) in Wl, Wh.
  destruct (omap spec_upload.priced stored) as [|ps l] eqn:E.
  { exfalso. assert (C : (p0, s0) ∈ omap spec_upload.priced stored).
    { apply list_elem_of_omap. exists row0.
      split; [apply list_elem_of_In, Hin0 | exact Hp0]. }
    rewrite E in C. inversion C. }
  assert (Hlh : lo <= raw <= hi).
  { apply (nearest_even_between _ _ _ _ Hagg). split.
    - apply Qle_shift_div_l; [exact Hsign | exact Wl].
    - apply Qle_shift_div_r; [exact Hsign | exact Wh]. }
  rewrite Hr. unfold spec_upload.clamp. lia.
Qed.

Lemma X25_score_within_item_scores_witness :
  0 <= receipts.r_eco_score (example_uploads.answer (snd example.uploaded)) <= 9.
Proof.
  apply (X25_score_within_item_scores example.online
           (example.recognizes example.receipt_text) true example.db0 7 1 []
           (fst example.uploaded) _ (-2)).
  - vm_compute. reflexivity.
  - vm_compute. reflexivity.
  - vm_compute. eexists _, _, _. split; [left; reflexivity | reflexivity].
  - intros row p s Hin Hp. vm_compute in Hin.
    destruct Hin as [<- | [<- | [<- | []]]]; vm_compute in Hp;
      injection Hp as _ <-; lia.
Defined.

(** ** The band of a ratio and the cashback *)

(** X26: a lower footprint per dollar never pays less: for an amount in
    whole cents of at most a billion that is not negative, the cashback
    at the score of a ratio is at least the cashback at the score of any
    greater ratio. *)
Theorem X26_greener_never_pays_less (amount : Q) (r1 r2 : float) :
  spec.in_cents amount = true ->
  (0 <= amount)%Q ->
  binary64.leb r1 r2 = true ->
  exists c1 c2,
    spec.pays
      (eco_scoring.compute_cashback amount
         (Some (eco_scoring.score_from_co2e_per_dollar (Some r1)))) c1
    /\ spec.pays
         (eco_scoring.compute_cashback amount
            (Some (eco_scoring.score_from_co2e_per_dollar (Some r2)))) c2
    /\ (c2 <= c1)%Q.
Proof.
  intros Hc Ha Hle. eexists _, _.
  split; [apply pays_exact, Hc|]. split; [apply pays_exact, Hc|].
  rewrite !score_is_table.
  pose proof (banding_antitone spec.bands 10 r1 r2 bands_descending Hle) as Hs.
  apply nearest_cent_mono. unfold spec.unrounded.
  pose proof (printed_multiplier_mono _ _ Hs). nra.
Qed.

Lemma X26_greener_never_pays_less_witness :
  exists c1 c2,
    spec.pays
      (eco_scoring.compute_cashback 80
         (Some (eco_scoring.score_from_co2e_per_dollar (Some (lit 0.07))))) c1
    /\ spec.pays
         (eco_scoring.compute_cashback 80
            (Some (eco_scoring.score_from_co2e_per_dollar (Some (lit 0.5))))) c2
    /\ (c2 <= c1)%Q.
Proof.
  apply (X26_greener_never_pays_less 80 (lit 0.07) (lit 0.5));
    [vm_compute; reflexivity | discriminate | vm_compute; reflexivity].
Defined.

(** ** The score and the receipt *)

Lemma loop_body_acc settings tid1 tid2 st1 st2 it st1' :
  receipts.acc st2 = receipts.acc st1 ->
  receipts.loop_body settings tid1 st1 it = Ok st1' ->
  exists st2', receipts.loop_body settings tid2 st2 it = Ok st2'
               /\ receipts.acc st2' = receipts.acc st1'.
Proof.
  intros Hacc. unfold receipts.loop_body. rewrite Hacc.
  destruct (climatiq_client.estimate_item_footprint _ _ _ _) as [kg|];
    [|discriminate]. cbn [mbind result_bind].
  destruct (receipts.score_item kg _) as [score|]; [|discriminate].
  cbn [mbind result_bind].
  destruct (receipts.accumulate _ _ score) as [acc'|]; [|discriminate].
  cbn [mbind result_bind]. intros [= <-].
  eexists. split; reflexivity.
Qed.

Lemma for_each_acc settings tid1 tid2 items :
  forall st1 st2 st1',
    receipts.acc st2 = receipts.acc st1 ->
    receipts.for_each (receipts.loop_body settings tid1) items st1 = Ok st1' ->
    exists st2',
      receipts.for_each (receipts.loop_body settings tid2) items st2 = Ok st2'
      /\ receipts.acc st2' = receipts.acc st1'.
Proof.
  induction items as [|it items IH]; intros st1 st2 st1' Hacc H;
    cbn [receipts.for_each] in *.
  - injection H as <-. exists st2. auto.
  - destruct (receipts.loop_body settings tid1 st1 it) as [s1|] eqn:E;
      [|discriminate H].
    cbn [mbind result_bind] in H.
    destruct (loop_body_acc settings tid1 tid2 st1 st2 it s1 Hacc E)
      as (s2 & -> & Hacc').
    cbn [mbind result_bind]. exact (IH _ _ _ Hacc' H).
Qed.

(** X27: the score is read off the receipt alone: two uploads that
    return, of the same receipt with the same answer of the recognition
    service, answer the same score and the same count, whatever the
    transactions, the users, the rows stored before and the flushing of
    the sessions. *)
Theorem X27_score_from_receipt_alone
    settings post content
    autoflush1 db1 uid1 tid1 db1' r1
    autoflush2 db2 uid2 tid2 db2' r2 :
  receipts.upload_receipt settings post autoflush1 db1 uid1 tid1 content
  = (db1', receipts.Returned r1) ->
  receipts.upload_receipt settings post autoflush2 db2 uid2 tid2 content
  = (db2', receipts.Returned r2) ->
  receipts.r_eco_score r1 = receipts.r_eco_score r2
  /\ receipts.r_items r1 = receipts.r_items r2.
Proof.
  intros H1 H2.
  apply upload_run in H1
    as (tx1 & rows1 & raw1 & c1 & _ & _ & Hrun1 & _ & _ & _ & Hraw1 & _ & [= -> ->]).
  apply upload_run in H2
    as (tx2 & rows2 & raw2 & c2 & _ & _ & Hrun2 & _ & _ & _ & Hraw2 & _ & [= -> ->]).
  cbv zeta in *.
  destruct (for_each_acc settings tid1 tid2 _ _
              {| receipts.added := []; receipts.acc := receipts.no_sums |}
              _ eq_refl Hrun1) as (st2 & Hrun2' & Hacc).
  rewrite Hrun2 in Hrun2'. injection Hrun2' as <-.
  cbn [receipts.acc] in Hacc. injection Hacc as ET EW.
  assert (E : raw1 = raw2).
  { unfold loop_invariant.score_of_rows in Hraw1, Hraw2.
    rewrite ET, EW in Hraw2. congruence. }
  subst raw2. split; reflexivity.
Qed.

Lemma X27_score_from_receipt_alone_witness :
  receipts.r_eco_score (example_uploads.answer (snd example.uploaded))
  = receipts.r_eco_score (example_uploads.answer (snd example_uploads.again))
  /\ receipts.r_items (example_uploads.answer (snd example.uploaded))
     = receipts.r_items (example_uploads.answer (snd example_uploads.again)).
Proof.
  apply (X27_score_from_receipt_alone example.online
           (example.recognizes example.receipt_text) []
           true example.db0 7 1 (fst example.uploaded) _
           false example_uploads.two_db 7 2 (fst example_uploads.again) _);
    vm_compute; reflexivity.
Defined.
